(** * HotSpot: the [ciKlass] hierarchy queries, the ZGC locks and the RISC-V
      VM version

    A shallow embedding of
    - [ciKlass.cpp]: the compiler-facing proxy of a [Klass*], its loaded-only
      queries ([is_subtype_of], [least_common_ancestor], [super_of_depth], ...),
    - [gc/z/zLock.inline.hpp]: [ZLock], [ZReentrantLock], [ZConditionLock] and
      the scoped [ZLocker].
    - [cpu/riscv/vm_version_riscv.cpp]: the flag settings of
      [VM_Version::initialize] and [VM_Version::c2_initialize].

    The VM side of the queries ([Klass::is_subtype_of], [Klass::LCA],
    [Klass::primary_super_of_depth], the object factory of [ciEnv]) lives in
    files that are not part of the sources at hand; those definitions are
    modelled from the specification and marked as such. *)

From Stdlib Require Import ZArith List Bool Arith Lia String.
Import ListNotations.

Set Implicit Arguments.

(* ================================================================== *)
(** * Outcomes of a call *)

(** A call either returns, trips an [assert], or (in a product build, where
    [assert] expands to nothing) runs into behaviour C++ leaves undefined,
    such as calling through a null [Klass*]. *)
Inductive outcome (A : Type) : Type :=
| Returned (a : A)
| AssertFailed (msg : string)
| Undefined.

Arguments AssertFailed {A} msg.
Arguments Undefined {A}.

Definition bind {A B : Type} (m : outcome A) (f : A -> outcome B) : outcome B :=
  match m with
  | Returned a => f a
  | AssertFailed msg => AssertFailed msg
  | Undefined => Undefined
  end.

Declare Scope outcome_scope.
Declare Scope vm_scope.

Notation "x <- m ;; k" := (bind m (fun x => k))
  (at level 61, m at next level, right associativity) : outcome_scope.
Notation "m ;;; k" := (bind m (fun _ => k))
  (at level 61, right associativity) : outcome_scope.

(** [assert(cond, msg)]: checked in debug builds ([ASSERT] defined), compiled
    out in product builds. *)
Definition assert (debug_build : bool) (cond : bool) (msg : string) : outcome unit :=
  if debug_build then (if cond then Returned tt else AssertFailed msg)
  else Returned tt.

(** Identity of a thread ([Thread*]). *)
Abbreviation Thread := nat (only parsing).

Definition same_thread (a b : option Thread) : bool :=
  match a, b with
  | Some x, Some y => Nat.eqb x y
  | None, None => true
  | _, _ => false
  end.

(** Unsigned 64-bit wrap-around ([uint64_t]) and the conversion of a 64-bit
    pattern to [jlong]. *)
Definition wrap64 (x : Z) : Z := x mod 2 ^ 64.
Definition to_jlong (x : Z) : Z := (x + 2 ^ 63) mod 2 ^ 64 - 2 ^ 63.

(* ================================================================== *)
(** * zLock.inline.hpp *)

Module ZLock.

(** The [pthread_mutex_t _lock]: who holds it, if anyone. *)
Definition t := option Thread.

(** [ZLock::ZLock]: [pthread_mutex_init]. *)
Definition init : t := None.

(** [ZLock::lock]: [pthread_mutex_lock] returns once the mutex is taken;
    [None] stands for a call that does not return (the mutex is held). *)
Definition lock (cur : Thread) (m : t) : option t :=
  match m with
  | None => Some (Some cur)
  | Some _ => None
  end.

(** [ZLock::try_lock]: [pthread_mutex_trylock(&_lock) == 0]. *)
Definition try_lock (cur : Thread) (m : t) : bool * t :=
  match m with
  | None => (true, Some cur)
  | Some _ => (false, m)
  end.

(** [ZLock::unlock]: [pthread_mutex_unlock]. *)
Definition unlock (m : t) : t := None.

End ZLock.

Module ZReentrantLock.

Local Open Scope outcome_scope.

Record t := mk {
  _lock : ZLock.t;
  _owner : option Thread;
  _count : Z       (* uint64_t *)
}.

(** Constructor: [_lock(), _owner(NULL), _count(0)]. *)
Definition init : t := mk ZLock.init None 0.

(** [ZReentrantLock::is_owned]: the owner is the current thread. *)
Definition is_owned (cur : Thread) (l : t) : bool :=
  same_thread (_owner l) (Some cur).

(** [ZReentrantLock::lock]. [None]: the call is blocked in [_lock.lock()]. *)
Definition lock (cur : Thread) (l : t) : option t :=
  if negb (same_thread (_owner l) (Some cur)) then
    match ZLock.lock cur (_lock l) with
    | Some m => Some (mk m (Some cur) (wrap64 (_count l + 1)))
    | None => None
    end
  else Some (mk (_lock l) (_owner l) (wrap64 (_count l + 1))).

(** [ZReentrantLock::unlock]. *)
Definition unlock (debug_build : bool) (cur : Thread) (l : t) : outcome t :=
  assert debug_build (is_owned cur l) "Invalid owner" ;;;
  assert debug_build (0 <? _count l)%Z "Invalid count" ;;;
  let count := wrap64 (_count l - 1) in
  if (count =? 0)%Z
  then Returned (mk (ZLock.unlock (_lock l)) None count)
  else Returned (mk (_lock l) (_owner l) count).

(** [n] nested calls of [lock] by one thread. *)
Fixpoint lock_n (cur : Thread) (n : nat) (l : t) : option t :=
  match n with
  | O => Some l
  | S n' => match lock cur l with
            | Some l' => lock_n cur n' l'
            | None => None
            end
  end.

(** [k] calls of [unlock] in a row by one thread. *)
Fixpoint unlock_n (debug_build : bool) (cur : Thread) (k : nat) (l : t) : outcome t :=
  match k with
  | O => Returned l
  | S k' => l' <- unlock debug_build cur l ;; unlock_n debug_build cur k' l'
  end.

(** The lock is free: nobody owns it, the count is zero, the mutex is not held. *)
Definition unheld (l : t) : Prop :=
  _lock l = None /\ _owner l = None /\ _count l = 0%Z.

(** The lock is held [c] times by [cur]. *)
Definition held_by (cur : Thread) (c : Z) (l : t) : Prop :=
  _lock l = Some cur /\ _owner l = Some cur /\ _count l = c.

(** The state between two calls: the mutex is held by the owner and by
    nobody when there is none, and the count is zero exactly when nobody owns
    the lock. *)
Definition consistent (l : t) : Prop :=
  _lock l = _owner l
  /\ (_owner l = None <-> _count l = 0%Z)
  /\ (0 <= _count l < 2 ^ 64)%Z.

End ZReentrantLock.

Module ZConditionLock.

Local Open Scope Z_scope.

(** [struct timespec]. [tv_sec] is the platform's [time_t]; its width is
    not fixed by the source, the sum of seconds is taken in [Z]. *)
Record timespec := mk_timespec { tv_sec : Z; tv_nsec : Z }.

(** Modelled from the spec: [NANOUNITS] and [MILLIUNITS] are declared in
    [globalDefinitions.hpp], which is not part of the sources at hand; the
    values are the number of nanoseconds and of milliseconds in a second. *)
Definition NANOUNITS : Z := 1000000000.
Definition MILLIUNITS : Z := 1000.

(** The absolute time [ZConditionLock::wait] computes for [millis > 0]:
    [millis] is [uint64_t], [timeout] and [seconds] are [jlong], [/] and [%]
    truncate towards zero. *)
Definition abstime (millis : Z) (now : timespec) : timespec :=
  let timeout := to_jlong (wrap64 (millis * (NANOUNITS / MILLIUNITS))) in
  let seconds := Z.quot timeout NANOUNITS in
  let sec := tv_sec now + seconds in
  let timeout := Z.rem timeout NANOUNITS in
  let nanos := tv_nsec now + timeout in
  if NANOUNITS <=? nanos
  then mk_timespec (sec + 1) (nanos - NANOUNITS)
  else mk_timespec sec nanos.

(** What the thread blocks in. *)
Inductive cond_call :=
| pthread_cond_timedwait (deadline : timespec)
| pthread_cond_wait.

(** [ZConditionLock::wait]: [now] is what [clock_gettime] stores, [status]
    what [pthread_cond_timedwait] returns; the result is the blocking call
    made and the value returned. *)
Definition wait (millis : Z) (now : timespec) (status : Z) : cond_call * bool :=
  if 0 <? millis
  then (pthread_cond_timedwait (abstime millis now), status =? 0)
  else (pthread_cond_wait, true).

(** A point in time as nanoseconds since the epoch. *)
Definition nanos_of (ts : timespec) : Z := tv_sec ts * NANOUNITS + tv_nsec ts.

(** The condition lock as [lock], [try_lock] and [unlock] see it: the
    [pthread_mutex_t _mutex] and who holds it. The queue of the
    [pthread_cond_t _cond] belongs to the thread library. *)
Record t := mk { _mutex : option Thread }.

(** [ZConditionLock::ZConditionLock]: [pthread_mutex_init]. *)
Definition init : t := mk None.

(** [ZConditionLock::lock]: [pthread_mutex_lock(&_mutex)]; [None] stands for
    a call that does not return. *)
Definition lock (cur : Thread) (l : t) : option t :=
  match _mutex l with
  | None => Some (mk (Some cur))
  | Some _ => None
  end.

(** [ZConditionLock::try_lock]: [pthread_mutex_trylock(&_mutex) == 0]. *)
Definition try_lock (cur : Thread) (l : t) : bool * t :=
  match _mutex l with
  | None => (true, mk (Some cur))
  | Some _ => (false, l)
  end.

(** [ZConditionLock::unlock]: [pthread_mutex_unlock(&_mutex)]. *)
Definition unlock (l : t) : t := mk None.

End ZConditionLock.

Module ZLocker.

Local Open Scope outcome_scope.

(** What the template [ZLocker<T>] needs of [T]: [lock()] and [unlock()].
    [lock] gives [None] while the calling thread is blocked. *)
Class Lockable (T : Type) : Type := {
  lock : Thread -> T -> option T;
  unlock : bool -> Thread -> T -> outcome T
}.

#[global] Instance ZLock_Lockable : Lockable ZLock.t := {|
  lock := ZLock.lock;
  unlock := fun _ _ m => Returned (ZLock.unlock m)
|}.

#[global] Instance ZReentrantLock_Lockable : Lockable ZReentrantLock.t := {|
  lock := ZReentrantLock.lock;
  unlock := ZReentrantLock.unlock
|}.

(** [ZLocker<T>]: the constructor locks, the destructor, run when the
    enclosing block is left on any path, unlocks. [body] is the block, run on
    the lock as the constructor left it. *)
Definition scoped {T : Type} {L : Lockable T} {A : Type}
           (debug_build : bool) (cur : Thread)
           (body : T -> outcome (A * T)) (l : T) : option (outcome (A * T)) :=
  match lock cur l with
  | None => None
  | Some l1 =>
      Some (r <- body l1 ;;
            l2 <- unlock debug_build cur (snd r) ;;
            Returned (fst r, l2))
  end.

#[global] Instance ZConditionLock_Lockable : Lockable ZConditionLock.t := {|
  lock := ZConditionLock.lock;
  unlock := fun _ _ m => Returned (ZConditionLock.unlock m)
|}.

(** A [ZLocker] on a lock inside the block of another [ZLocker] on the same
    lock, by the same thread:
    [{ ZLocker<T> outer(&l); { ZLocker<T> inner(&l); body } }].
    [None]: the thread is blocked in one of the two constructors. *)
Definition nested {T : Type} {L : Lockable T} {A : Type}
           (debug_build : bool) (cur : Thread)
           (body : T -> outcome (A * T)) (l : T) : option (outcome (A * T)) :=
  match lock cur l with
  | None => None
  | Some l1 =>
      match scoped debug_build cur body l1 with
      | None => None
      | Some inner =>
          Some (r <- inner ;;
                l2 <- unlock debug_build cur (snd r) ;;
                Returned (fst r, l2))
      end
  end.

End ZLocker.

(* ================================================================== *)
(** * The VM side: heap-resident class metadata *)

Module Klass.

(** A [Klass*]: the identity of a heap-resident class, the position at which
    it was defined. *)
Abbreviation id := nat (only parsing).

(** Modelled from the spec: the metadata of one loaded class or interface
    ([Klass], declared in [klass.hpp], which is not part of the sources at
    hand), with its hierarchy descriptor (data model): the primary supertype
    display, root first and without the type itself, of fixed capacity; the
    secondary supertype set; the eligibility flag and the check-slot offset;
    the depth, the number of proper class ancestors. *)
Record t := mk {
  name : string;                      (* Symbol*, always present *)
  layout_helper : Z;
  modifier_flags : Z;
  access_flags : Z;
  is_interface : bool;
  super : option id;
  local_interfaces : list id;
  super_depth : nat;                  (* number of proper class ancestors *)
  primary_supers : list id;           (* the display *)
  secondary_supers : list id;
  can_be_primary_super : bool;        (* eligibleAsPrimarySuper *)
  super_check_offset : nat            (* checkSlotOffset *)
}.

Definition heap := list t.

(** What a class file declares. *)
Record class_decl := mk_decl {
  d_name : string;
  d_layout_helper : Z;
  d_modifier_flags : Z;
  d_access_flags : Z;
  d_is_interface : bool;
  d_super : option id;
  d_interfaces : list id
}.

Definition secondary_of (h : heap) (i : id) : list id :=
  match nth_error h i with
  | Some ki => secondary_supers ki
  | None => []
  end.

(** Modelled from the spec: the construction of the hierarchy descriptor
    ([Klass::initialize_supers], not part of the sources at hand). The display
    holds the class ancestors from the root down, the type itself excluded, up
    to [limit] entries; class ancestors past the capacity and all interfaces
    go to the secondary set. A type is eligible as primary super when it is a
    class whose own slot lies inside the display; its check slot is then its
    depth, and otherwise the slot past the display, which holds no ancestor. *)
Definition create (limit : nat) (h : heap) (d : class_decl) : t :=
  let sup := match d_super d with
             | Some s => match nth_error h s with
                         | Some ks => Some (s, ks)
                         | None => None
                         end
             | None => None
             end in
  let depth := match sup with Some (_, ks) => S (super_depth ks) | None => O end in
  let primary := match sup with
                 | Some (s, ks) => if super_depth ks <? limit
                                   then primary_supers ks ++ [s]
                                   else primary_supers ks
                 | None => []
                 end in
  let spilled := match sup with
                 | Some (s, ks) => (if super_depth ks <? limit then [] else [s])
                                     ++ secondary_supers ks
                 | None => []
                 end in
  let eligible := negb (d_is_interface d) && (depth <? limit) in
  mk (d_name d) (d_layout_helper d) (d_modifier_flags d) (d_access_flags d)
     (d_is_interface d) (d_super d) (d_interfaces d)
     depth primary
     (spilled ++ d_interfaces d ++ flat_map (secondary_of h) (d_interfaces d))
     eligible
     (if eligible then depth else limit).

(** Modelled from the spec: the checks of class definition (class loading is
    not part of the sources at hand). The hierarchy is single-rooted and
    single-inheritance (4.2): the first class defined is the root and has no
    superclass, every other type names a loaded class as its superclass, an
    interface the root; declared interfaces are loaded interfaces. *)
Definition super_ok (h : heap) (d : class_decl) : bool :=
  match d_super d with
  | None => match h with [] => negb (d_is_interface d) | _ :: _ => false end
  | Some s => match nth_error h s with
              | Some ks => negb (is_interface ks)
                           && (if d_is_interface d then s =? 0 else true)
              | None => false
              end
  end.

Definition interfaces_ok (h : heap) (d : class_decl) : bool :=
  forallb (fun i => match nth_error h i with
                    | Some ki => is_interface ki
                    | None => false
                    end) (d_interfaces d).

Definition define_class (limit : nat) (h : heap) (d : class_decl) : option heap :=
  if super_ok h d && interfaces_ok h d
  then Some (h ++ [create limit h d])
  else None.

Fixpoint load (limit : nat) (h : heap) (ds : list class_decl) : option heap :=
  match ds with
  | [] => Some h
  | d :: ds' => match define_class limit h d with
                | Some h' => load limit h' ds'
                | None => None
                end
  end.

(** [k->super()] for a pointer that may be null. *)
Definition super_of (h : heap) (k : option id) : option id :=
  match k with
  | Some x => match nth_error h x with
              | Some kx => super kx
              | None => None
              end
  | None => None
  end.

(** The walk [for (t = k; t != NULL; t = t->super())], nearest first. *)
Fixpoint supers_from (h : heap) (fuel : nat) (k : option id) : list id :=
  match fuel, k with
  | S f, Some x => x :: supers_from h f (super_of h (Some x))
  | _, _ => []
  end.

(** The ordered class ancestors of [k], root first, [k] itself excluded. *)
Definition hierarchy (h : heap) (k : id) : list id :=
  rev (supers_from h (List.length h) (super_of h (Some k))).

Definition holds (o : option id) (k : id) : bool :=
  match o with
  | Some x => x =? k
  | None => false
  end.

(** Modelled from the spec: [Klass::is_subtype_of] (4.2, after the identity
    short-circuit of the handle): compare the ancestor at the check slot of
    [that] in the display of [this]; a miss is conclusive for an eligible
    [that], otherwise the secondary set is scanned. *)
Definition is_subtype_of (this that : t) (that_id : id) : bool :=
  if holds (nth_error (primary_supers this) (super_check_offset that)) that_id
  then true
  else if can_be_primary_super that
       then false
       else existsb (Nat.eqb that_id) (secondary_supers this).

(** Modelled from the spec: [Klass::is_subclass_of] walks the chain of class
    ancestors comparing identities. *)
Definition is_subclass_of (h : heap) (this that : id) : bool :=
  existsb (Nat.eqb that) (supers_from h (List.length h) (Some this)).

(** Modelled from the spec: [Klass::primary_super_of_depth], the ancestor at
    position [i] of the display, null when there is none. *)
Definition primary_super_of_depth (this : t) (i : nat) : option id :=
  nth_error (primary_supers this) i.

(** The walk of two ancestor lists from the root: the last position at which
    they agree. *)
Fixpoint last_agreed (l1 l2 : list id) (acc : option id) : option id :=
  match l1, l2 with
  | x :: l1', y :: l2' => if x =? y then last_agreed l1' l2' (Some x) else acc
  | _, _ => acc
  end.

(** Modelled from the spec: [Klass::LCA] (4.2). When one type is a class
    ancestor of the other it is the result; otherwise both ordered ancestor
    lists are walked from the root until they diverge. The ancestor lists are
    the full class chains: the contract is the nearest common class ancestor,
    interfaces take no part. *)
Definition LCA (h : heap) (this that : id) : option id :=
  if is_subclass_of h this that then Some that
  else if is_subclass_of h that this then Some this
  else last_agreed (hierarchy h this) (hierarchy h that) None.

(** The reference of the subtype test, in the words of the spec a
    brute-force check against the full ancestor set: every type reachable
    from [k] over superclass and declared-interface links, [k] included (a
    type is a subtype of itself). *)
Fixpoint ancestor_set (h : heap) (fuel : nat) (k : id) : list id :=
  match fuel with
  | O => []
  | S f =>
      match nth_error h k with
      | None => []
      | Some kk =>
          k :: (match super kk with
                | Some s => ancestor_set h f s
                | None => []
                end)
            ++ flat_map (ancestor_set h f) (local_interfaces kk)
      end
  end.

Definition brute_force_subtype (h : heap) (this that : id) : bool :=
  existsb (Nat.eqb that) (ancestor_set h (List.length h) this).

(** Heaps that class definition can produce. *)
Inductive loaded (limit : nat) : heap -> Prop :=
| loaded_nil : loaded limit []
| loaded_snoc h d h' :
    loaded limit h -> define_class limit h d = Some h' -> loaded limit h'.

(** The declaration a class was defined from. *)
Definition decl_of (a : t) : class_decl :=
  mk_decl (name a) (layout_helper a) (modifier_flags a) (access_flags a)
          (is_interface a) (super a) (local_interfaces a).

(** The links of a declaration point below [k], at types of the right kind. *)
Definition links_below (h : heap) (k : id) (d : class_decl) : Prop :=
  match d_super d with
  | None => k = O /\ d_interfaces d = [] /\ d_is_interface d = false
  | Some s => s < k /\ exists ks, nth_error h s = Some ks
                                  /\ is_interface ks = false
                                  /\ (d_is_interface d = true -> s = O)
  end
  /\ Forall (fun i => i < k /\ exists ki, nth_error h i = Some ki
                                          /\ is_interface ki = true)
            (d_interfaces d).

(** What class definition establishes for the class at [k]. *)
Definition defined_at (limit : nat) (h : heap) (k : id) (a : t) : Prop :=
  k < List.length h
  /\ links_below h k (decl_of a)
  /\ a = create limit h (decl_of a).

End Klass.

(* ================================================================== *)
(** * ciKlass.cpp *)

Module ciKlass.

Local Open Scope vm_scope.

Inductive BasicType := T_OBJECT | T_ARRAY.

(** A [ciKlass] object: the [_metadata] of [ciMetadata] (the [Klass*], null
    for an unloaded klass), the basic type of [ciType], and the two fields
    [ciKlass] adds. *)
Record t := mk {
  _metadata : option Klass.id;
  _basic_type : BasicType;
  _name : string;                     (* ciSymbol* *)
  _layout_helper : Z
}.

(** Modelled from the spec: [Klass::_lh_neutral_value], the neutral layout
    descriptor of a type whose layout is not known. *)
Definition _lh_neutral_value : Z := 0.

(** A [ciKlass*]: the position of the object in the arena of its [ciEnv]. *)
Abbreviation ptr := nat (only parsing).

(** What a compilation task sees: the class metadata of the VM, the arena of
    [ciKlass] objects its [ciEnv] has created, how many heap-entry scopes the
    thread holds, and how many times it has crossed into the VM so far. *)
Record world := mk_world {
  vm_heap : Klass.heap;
  objects : list t;
  vm_entries : nat;
  crossings : nat
}.

(** The world after [n] more crossings that changed nothing else. *)
Definition crossed (n : nat) (w : world) : world :=
  mk_world (vm_heap w) (objects w) (vm_entries w) (n + crossings w).

(** Computations over the world that may fail. *)
Definition M (A : Type) : Type := world -> outcome (A * world).

Definition ret {A : Type} (a : A) : M A := fun w => Returned (a, w).

Definition bindM {A B : Type} (m : M A) (f : A -> M B) : M B :=
  fun w => match m w with
           | Returned (a, w') => f a w'
           | AssertFailed msg => AssertFailed msg
           | Undefined => Undefined
           end.

Notation "x <- m ;; k" := (bindM m (fun x => k))
  (at level 61, m at next level, right associativity) : vm_scope.
Notation "m ;;; k" := (bindM m (fun _ => k))
  (at level 61, right associativity) : vm_scope.

Definition undefined {A : Type} : M A := fun _ => Undefined.

Definition get_world : M world := fun w => Returned (w, w).

(** Reading through a [ciKlass*] and through a [Klass*]. *)
Definition deref (p : ptr) : M t :=
  fun w => match nth_error (objects w) p with
           | Some o => Returned (o, w)
           | None => Undefined
           end.

Definition klass_at (k : Klass.id) : M Klass.t :=
  fun w => match nth_error (vm_heap w) k with
           | Some a => Returned (a, w)
           | None => Undefined
           end.

(** The three constructors. A loaded class always has a name, so the
    [assert(klass_name != NULL, "wrong ciKlass constructor")] of the first
    one holds. *)
Definition new_ciKlass (k : Klass.id) : M t :=
  klass <- klass_at k ;;
  ret (mk (Some k) T_OBJECT (Klass.name klass) (Klass.layout_helper klass)).

Definition new_nameless (k : Klass.id) (name : string) : t :=
  mk (Some k) T_OBJECT name _lh_neutral_value.

Definition new_unloaded (name : string) (bt : BasicType) : t :=
  mk None bt name _lh_neutral_value.

Definition loaded (o : t) : bool :=
  match _metadata o with
  | Some _ => true
  | None => false
  end.

(** Modelled from the spec: [p->is_loaded()] ([ciKlass.hpp] is not part of
    the sources at hand): the load state fixed at construction. *)
Definition is_loaded (p : ptr) : M bool :=
  o <- deref p ;; ret (loaded o).

(** Modelled from the spec: [p->get_Klass()] and the use of what it
    returns ([ciKlass.hpp] is not part of the sources at hand): the identity
    of the class; that of an unloaded klass is null and has no members. *)
Definition get_Klass (p : ptr) : M Klass.id :=
  o <- deref p ;;
  match _metadata o with
  | Some k => ret k
  | None => undefined
  end.

(** Modelled from the spec: the heap-entry scope behind [VM_ENTRY_MARK] and
    [GUARDED_VM_ENTRY] ([ciUtilities.inline.hpp], not part of the sources at
    hand). The scope is taken where the mark stands and released when the
    function is left; the guarded form takes it only when the thread is not
    inside one already. *)
Definition enter_vm : M unit :=
  fun w => Returned (tt, mk_world (vm_heap w) (objects w) (S (vm_entries w))
                                  (S (crossings w))).

Definition leave_vm : M unit :=
  fun w => Returned (tt, mk_world (vm_heap w) (objects w) (pred (vm_entries w))
                                  (crossings w)).

Definition VM_ENTRY_MARK {A : Type} (rest : M A) : M A :=
  enter_vm ;;; r <- rest ;; leave_vm ;;; ret r.

Definition IS_IN_VM : M bool :=
  fun w => Returned (0 <? vm_entries w, w).

Definition GUARDED_VM_ENTRY {A : Type} (action : M A) : M A :=
  in_vm <- IS_IN_VM ;;
  if in_vm then action else VM_ENTRY_MARK action.

Fixpoint find_object (objs : list t) (k : Klass.id) (at_ : ptr) : option ptr :=
  match objs with
  | [] => None
  | o :: objs' => if Klass.holds (_metadata o) k then Some at_
                  else find_object objs' k (S at_)
  end.

Definition allocate (o : t) : M ptr :=
  fun w => Returned (List.length (objects w),
                     mk_world (vm_heap w) (objects w ++ [o]) (vm_entries w)
                              (crossings w)).

(** Modelled from the spec: [ciEnv::get_klass] (the oracle's [resolve]):
    the cached object of this identity if there is one, otherwise a new
    object built from the live class and entered into the cache. *)
Definition get_klass (k : Klass.id) : M ptr :=
  w <- get_world ;;
  match find_object (objects w) k 0 with
  | Some p => ret p
  | None => GUARDED_VM_ENTRY (o <- new_ciKlass k ;; allocate o)
  end.

(** Modelled from the spec: [ciEnv::get_unloaded_klass] (the oracle's
    [resolveUnloaded]): a placeholder with no identity. *)
Definition get_unloaded_klass (name : string) : M ptr :=
  allocate (new_unloaded name T_OBJECT).

Fixpoint find_named (h : Klass.heap) (name : string) (at_ : Klass.id) : option Klass.id :=
  match h with
  | [] => None
  | k :: h' => if String.eqb (Klass.name k) name then Some at_
               else find_named h' name (S at_)
  end.

(** Modelled from the spec: [ciEnv::get_klass_by_name] (the oracle's
    [findByName]): the type of that name as the accessing klass sees it, or
    nothing (NotFound). All classes of the model share one loader. *)
Definition get_klass_by_name (accessing_klass : ptr) (klass_name : string)
           (require_local : bool) : M (option ptr) :=
  w <- get_world ;;
  match find_named (vm_heap w) klass_name 0 with
  | Some k => p <- get_klass k ;; ret (Some p)
  | None => ret None
  end.

Section Build.

(** [true] for a debug build, where [assert] is checked. *)
Variable debug_build : bool.

(** [assert(cond, msg)]: the condition is evaluated in debug builds only. *)
Definition assert_ (cond : M bool) (msg : string) : M unit :=
  if debug_build
  then c <- cond ;; (if c then ret tt else (fun _ => AssertFailed msg))
  else ret tt.

(** [ciKlass::is_subtype_of] *)
Definition is_subtype_of (this that : ptr) : M bool :=
  assert_ (is_loaded this) "must be loaded: %s" ;;;
  assert_ (is_loaded that) "must be loaded: %s" ;;;
  (* Check to see if the klasses are identical. *)
  if this =? that then ret true
  else VM_ENTRY_MARK (
    this_klass <- get_Klass this ;;
    that_klass <- get_Klass that ;;
    a <- klass_at this_klass ;;
    b <- klass_at that_klass ;;
    ret (Klass.is_subtype_of a b that_klass)).

(** [ciKlass::is_subclass_of] *)
Definition is_subclass_of (this that : ptr) : M bool :=
  assert_ (is_loaded this) "must be loaded: %s" ;;;
  assert_ (is_loaded that) "must be loaded: %s" ;;;
  GUARDED_VM_ENTRY (
    this_klass <- get_Klass this ;;
    that_klass <- get_Klass that ;;
    klass_at this_klass ;;;
    klass_at that_klass ;;;
    w <- get_world ;;
    ret (Klass.is_subclass_of (vm_heap w) this_klass that_klass)).

(** [ciKlass::super_depth] *)
Definition super_depth (this : ptr) : M nat :=
  assert_ (is_loaded this) "must be loaded" ;;;
  VM_ENTRY_MARK (
    this_klass <- get_Klass this ;;
    a <- klass_at this_klass ;;
    ret (Klass.super_depth a)).

(** [ciKlass::super_check_offset] *)
Definition super_check_offset (this : ptr) : M nat :=
  assert_ (is_loaded this) "must be loaded" ;;;
  VM_ENTRY_MARK (
    this_klass <- get_Klass this ;;
    a <- klass_at this_klass ;;
    ret (Klass.super_check_offset a)).

(** [ciKlass::super_of_depth] *)
Definition super_of_depth (this : ptr) (i : nat) : M (option ptr) :=
  assert_ (is_loaded this) "must be loaded" ;;;
  VM_ENTRY_MARK (
    this_klass <- get_Klass this ;;
    a <- klass_at this_klass ;;
    match Klass.primary_super_of_depth a i with
    | Some super => p <- get_klass super ;; ret (Some p)
    | None => ret None
    end).

(** [ciKlass::can_be_primary_super] *)
Definition can_be_primary_super (this : ptr) : M bool :=
  assert_ (is_loaded this) "must be loaded" ;;;
  VM_ENTRY_MARK (
    this_klass <- get_Klass this ;;
    a <- klass_at this_klass ;;
    ret (Klass.can_be_primary_super a)).

(** [ciKlass::least_common_ancestor] *)
Definition least_common_ancestor (this that : ptr) : M ptr :=
  assert_ (l1 <- is_loaded this ;; if l1 then is_loaded that else ret false)
          "must be loaded" ;;;
  (* Check to see if the klasses are identical. *)
  if this =? that then ret this
  else VM_ENTRY_MARK (
    this_klass <- get_Klass this ;;
    that_klass <- get_Klass that ;;
    klass_at this_klass ;;;
    klass_at that_klass ;;;
    w <- get_world ;;
    match Klass.LCA (vm_heap w) this_klass that_klass with
    | None => undefined
    | Some lca =>
        (* Many times the LCA will be either this_klass or that_klass.
           Treat these as special cases. *)
        if lca =? that_klass then ret that
        else if this_klass =? lca then ret this
        else (* Create the ciInstanceKlass for the lca. *)
          get_klass lca
    end).

(** [ciKlass::find_klass] *)
Definition find_klass (this : ptr) (klass_name : string) : M (option ptr) :=
  assert_ (is_loaded this) "cannot find_klass through an unloaded klass" ;;;
  get_klass_by_name this klass_name false.

(** [ciKlass::modifier_flags] *)
Definition modifier_flags (this : ptr) : M Z :=
  assert_ (is_loaded this) "not loaded" ;;;
  GUARDED_VM_ENTRY (
    this_klass <- get_Klass this ;;
    a <- klass_at this_klass ;;
    ret (Klass.modifier_flags a)).

(** [ciKlass::access_flags] *)
Definition access_flags (this : ptr) : M Z :=
  assert_ (is_loaded this) "not loaded" ;;;
  GUARDED_VM_ENTRY (
    this_klass <- get_Klass this ;;
    a <- klass_at this_klass ;;
    ret (Klass.access_flags a)).

End Build.

(** Modelled from the spec: the accessors [name()] and [layout_helper()] of
    the two cached fields ([ciKlass.hpp] is not part of the sources at
    hand). *)
Definition name (this : ptr) : M string :=
  o <- deref this ;; ret (_name o).

Definition layout_helper (this : ptr) : M Z :=
  o <- deref this ;; ret (_layout_helper o).

(** The arena of a [ciEnv]: every loaded object points at a class of the
    heap, and no two objects stand for the same class. *)
Fixpoint distinct (objs : list t) : bool :=
  match objs with
  | [] => true
  | o :: objs' =>
      match _metadata o with
      | Some k => negb (existsb (fun o' => Klass.holds (_metadata o') k) objs')
      | None => true
      end && distinct objs'
  end.

Definition objects_ok (w : world) : bool :=
  forallb (fun o => match _metadata o with
                    | Some k => k <? List.length (vm_heap w)
                    | None => true
                    end) (objects w)
  && distinct (objects w).

(** The class a handle stands for. *)
Definition klass_of (w : world) (p : ptr) : option Klass.id :=
  match nth_error (objects w) p with
  | Some o => _metadata o
  | None => None
  end.

(** The world inside a heap-entry scope taken in [w]. *)
Definition inside (w : world) : world :=
  mk_world (vm_heap w) (objects w) (S (vm_entries w)) (S (crossings w)).

(** A handle of an unloaded klass. *)
Definition unloaded_at (w : world) (p : ptr) : Prop :=
  exists o, nth_error (objects w) p = Some o /\ _metadata o = None.

(** The value a call returned, if it returned. *)
Definition value {A : Type} (r : outcome (A * world)) : option A :=
  match r with
  | Returned (a, _) => Some a
  | _ => None
  end.




(** ** The rest of [ciKlass.cpp]

    [java_mirror], [external_name], the two prototype-header accessors and
    the printing functions call into code that is not part of the sources at
    hand ([ciEnv], [Klass], [ciSymbol]); what they call is a parameter of the
    definitions below. *)

(** The conversion of an [int] to [juint]. *)
Definition to_juint (x : Z) : Z := (x mod 2 ^ 32)%Z.

(** An [outputStream]: the text printed to it so far. *)
Abbreviation outputStream := string (only parsing).


Section Rest.

Variable debug_build : bool.

(** [ciInstance] objects and heap references ([oop]). *)
Variable ciInstance : Type.
Variable oop : Type.

(** [Klass::java_mirror], [ciEnv::get_unloaded_klass_mirror] and
    [ciEnv::get_instance]. *)
Variable Klass_java_mirror : Klass.t -> oop.
Variable get_unloaded_klass_mirror : ptr -> M ciInstance.
Variable get_instance : oop -> M ciInstance.

(** [Klass::external_name], [in_bytes(Klass::prototype_header_offset())] and
    [Klass::prototype_header()->value()]. *)
Variable Klass_external_name : Klass.t -> string.
Variable Klass_prototype_header_offset : Klass.t -> Z.
Variable Klass_prototype_header : Klass.t -> Z.

(** [ciSymbol::print_symbol_on] *)
Variable print_symbol_on : string -> outputStream -> M outputStream.




(** [ciKlass::external_name] *)
Definition external_name (this : ptr) : M string :=
  GUARDED_VM_ENTRY (
    this_klass <- get_Klass this ;;
    a <- klass_at this_klass ;;
    ret (Klass_external_name a)).

(** [ciKlass::prototype_header_offset] *)
Definition prototype_header_offset (this : ptr) : M Z :=
  assert_ debug_build (is_loaded this) "must be loaded" ;;;
  VM_ENTRY_MARK (
    this_klass <- get_Klass this ;;
    a <- klass_at this_klass ;;
    ret (to_juint (Klass_prototype_header_offset a))).

(** [ciKlass::prototype_header] *)
Definition prototype_header (this : ptr) : M Z :=
  assert_ debug_build (is_loaded this) "must be loaded" ;;;
  VM_ENTRY_MARK (
    this_klass <- get_Klass this ;;
    a <- klass_at this_klass ;;
    ret (Klass_prototype_header a)).

End Rest.

(** The two fields a loaded object caches are those of its class. *)
Definition coherent (w : world) : Prop :=
  forall p o k K,
    nth_error (objects w) p = Some o -> _metadata o = Some k ->
    nth_error (vm_heap w) k = Some K ->
    _name o = Klass.name K /\ _layout_helper o = Klass.layout_helper K.

(** A computation that leaves the class metadata as it is, adds at most [n]
    objects to the arena and changes none, and keeps the arena well formed
    and its cached fields those of the classes. *)
Definition extends (n : nat) {A : Type} (m : M A) : Prop :=
  forall w r w', m w = Returned (r, w') ->
    vm_heap w' = vm_heap w
    /\ (exists more, objects w' = objects w ++ more /\ List.length more <= n)
    /\ (objects_ok w = true -> objects_ok w' = true)
    /\ (coherent w -> coherent w').

End ciKlass.

(* ================================================================== *)
(** * A class hierarchy to run the queries on *)

Module Scenario.

Definition class (name : string) (super : option Klass.id) (ifs : list Klass.id)
  : Klass.class_decl :=
  Klass.mk_decl name 8 1 1 false super ifs.

Definition interface (name : string) (ifs : list Klass.id) : Klass.class_decl :=
  Klass.mk_decl name 0 1537 1537 true (Some 0) ifs.

(** [Object <- A <- B <- C <- F <- G], [D] and [E] extending [A], the
    interface [J] extending [I], [D] implementing [J]. *)
Definition decls : list Klass.class_decl :=
  [ class "Object" None [];          (* 0 *)
    class "A" (Some 0) [];           (* 1 *)
    class "B" (Some 1) [];           (* 2 *)
    class "C" (Some 2) [];           (* 3 *)
    interface "I" [];                (* 4 *)
    interface "J" [4];               (* 5 *)
    class "D" (Some 1) [5];          (* 6 *)
    class "E" (Some 1) [];           (* 7 *)
    class "F" (Some 3) [];           (* 8 *)
    class "G" (Some 8) [] ].         (* 9 *)

(** A display of three entries: [C], [F] and [G] do not fit. *)
Definition limit : nat := 3.

Definition heap : Klass.heap :=
  match Klass.load limit [] decls with
  | Some h => h
  | None => []
  end.

Definition klass (k : Klass.id) : Klass.t :=
  nth k heap (Klass.create limit [] (class "" None [])).

(** The [ciEnv] after a handle was asked for every class, in order, and
    for the unloaded [com/example/Foo]: handle [k] stands for class [k],
    handle 10 is the unloaded one. *)
Definition world : ciKlass.world :=
  let resolve w k := match ciKlass.get_klass k w with
                     | Returned (_, w') => w'
                     | _ => w
                     end in
  let w := fold_left resolve (seq 0 10) (ciKlass.mk_world heap [] 0 0) in
  match ciKlass.get_unloaded_klass "com/example/Foo" w with
  | Returned (_, w') => w'
  | _ => w
  end.

End Scenario.

(* ================================================================== *)
(** * vm_version_riscv.cpp *)

Module VM_Version.

Local Open Scope Z_scope.

(** The boolean VM flags [initialize] and [c2_initialize] read or write. *)
Inductive bool_flag :=
| UseFMA | UseAES | UseAESIntrinsics | UseAESCTRIntrinsics
| UseSHA | UseSHA1Intrinsics | UseSHA256Intrinsics | UseSHA512Intrinsics
| UseCRC32Intrinsics | UseCRC32CIntrinsics
| UseRVV | UseRVV071 | UseRVB | UseRVC
| AvoidUnalignedAccesses | UsePopCountInstruction
| CriticalJNINatives | UseMembar
| UseCMoveUnconditionally | SpecialEncodeISOArray
| UseMulAddIntrinsic | UseMultiplyToLenIntrinsic | UseSquareToLenIntrinsic
| UseMontgomeryMultiplyIntrinsic | UseMontgomerySquareIntrinsic.

(** The [intx] flags. *)
Inductive intx_flag :=
| AllocatePrefetchDistance | ConditionalMoveLimit | MaxVectorSize
| AllocatePrefetchStyle.

Definition bool_flag_eq_dec (a b : bool_flag) : {a = b} + {a <> b}.
Proof. decide equality. Defined.

Definition intx_flag_eq_dec (a b : intx_flag) : {a = b} + {a <> b}.
Proof. decide equality. Defined.

(** A call of [warning(format, ...)]. *)
Record message := warning_call { format : string; arguments : list Z }.

(** The flags with their origin, the static members of [VM_Version] and the
    warnings given so far. The origin of a flag is what [FLAG_IS_DEFAULT] and
    [FLAG_IS_CMDLINE] ask for; an assignment to a flag does not change it. *)
Record t := mk {
  bool_value : bool_flag -> bool;
  intx_value : intx_flag -> Z;
  bool_is_default : bool_flag -> bool;
  intx_is_default : intx_flag -> bool;
  bool_is_cmdline : bool_flag -> bool;
  _features : Z;                       (* uint64_t *)
  _uarch : option string;              (* const char*, may be NULL *)
  _initial_vector_length : Z;          (* uint32_t *)
  _features_string : option string;
  warnings : list message
}.

Definition set_bool (f : bool_flag) (v : bool) (st : t) : t :=
  mk (fun g => if bool_flag_eq_dec f g then v else bool_value st g)
     (intx_value st) (bool_is_default st) (intx_is_default st) (bool_is_cmdline st)
     (_features st) (_uarch st) (_initial_vector_length st) (_features_string st)
     (warnings st).

Definition set_intx (f : intx_flag) (v : Z) (st : t) : t :=
  mk (bool_value st)
     (fun g => if intx_flag_eq_dec f g then v else intx_value st g)
     (bool_is_default st) (intx_is_default st) (bool_is_cmdline st)
     (_features st) (_uarch st) (_initial_vector_length st) (_features_string st)
     (warnings st).

(** How a statement ends: it falls through, the VM exits
    ([vm_exit_during_initialization]), or [strcat] writes past the end of
    its buffer. *)
Inductive result :=
| Done (st : t)
| Exit (error : string) (arguments : list Z)
| Overrun.

Definition stmt := t -> result.
Definition cond := t -> bool.

Definition skip : stmt := fun st => Done st.

Definition seq (s1 s2 : stmt) : stmt :=
  fun st => match s1 st with
            | Done st' => s2 st'
            | Exit e a => Exit e a
            | Overrun => Overrun
            end.

Definition If (c : cond) (s1 s2 : stmt) : stmt :=
  fun st => if c st then s1 st else s2 st.

Definition when (c : cond) (s : stmt) : stmt := If c s skip.

Declare Scope init_scope.
Delimit Scope init_scope with init.

Notation "s1 ;; s2" := (seq s1 s2)
  (at level 61, right associativity) : init_scope.
Notation "c1 &&& c2" := (fun st => c1 st && c2 st)
  (at level 40, left associativity) : init_scope.
Notation "c1 ||| c2" := (fun st => c1 st || c2 st)
  (at level 50, left associativity) : init_scope.
Notation "! c" := (fun st => negb (c st)) (at level 35, right associativity) : init_scope.

Local Open Scope init_scope.

(** Reading a flag. *)
Definition flag (f : bool_flag) : cond := fun st => bool_value st f.
Definition intx (f : intx_flag) (st : t) : Z := intx_value st f.

(** Modelled from the HotSpot macros, which are not part of the sources at
    hand: [FLAG_IS_DEFAULT] and [FLAG_IS_CMDLINE] ask for the origin of a
    flag, [FLAG_SET_DEFAULT(name, value)] is the assignment [name = value]. *)
Definition FLAG_IS_DEFAULT (f : bool_flag) : cond := fun st => bool_is_default st f.
Definition FLAG_IS_CMDLINE (f : bool_flag) : cond := fun st => bool_is_cmdline st f.
Definition FLAG_SET_DEFAULT (f : bool_flag) (v : bool) : stmt :=
  fun st => Done (set_bool f v st).

Definition FLAG_IS_DEFAULT_intx (f : intx_flag) : cond :=
  fun st => intx_is_default st f.
Definition FLAG_SET_DEFAULT_intx (f : intx_flag) (v : t -> Z) : stmt :=
  fun st => Done (set_intx f (v st) st).

(** [warning(format, ...)] *)
Definition warning (fmt : string) (args : t -> list Z) : stmt :=
  fun st => Done (mk (bool_value st) (intx_value st) (bool_is_default st)
                     (intx_is_default st) (bool_is_cmdline st) (_features st)
                     (_uarch st) (_initial_vector_length st) (_features_string st)
                     (warnings st ++ [warning_call fmt (args st)])).

Definition no_arguments : t -> list Z := fun _ => [].

(** [vm_exit_during_initialization(error)] *)
Definition vm_exit_during_initialization (fmt : string) (args : t -> list Z) : stmt :=
  fun st => Exit fmt (args st).

(** Modelled from the HotSpot macro [UNSUPPORTED_OPTION], which is not part
    of the sources at hand: an option that is on is switched off, with a
    warning when it was given on the command line. *)
Definition UNSUPPORTED_OPTION (opt : bool_flag) (name : string) : stmt :=
  when (flag opt) (
    when (FLAG_IS_CMDLINE opt)
      (warning ("-XX:+" ++ name ++ " not supported in this VM") no_arguments) ;;
    FLAG_SET_DEFAULT opt false).

(** [is_power_of_2(intptr_t x)]: [x != 0 && (x & (x - 1)) == 0]. *)
Definition is_power_of_2 (x : Z) : bool :=
  negb (x =? 0) && (Z.land x (x - 1) =? 0).

(** The conversion [(int)x] of an [intx]. *)
Definition to_int (x : Z) : Z := (x + 2 ^ 31) mod 2 ^ 32 - 2 ^ 31.

(** [strcat(buf, s)] on [char buf[512]]: [None] when the result with its
    terminator does not fit. *)
Definition strcat (buf s : string) : option string :=
  if (String.length buf + String.length s <? 512)%nat
  then Some (buf ++ s)%string
  else None.

(** [VM_Version::c2_initialize] *)
Definition c2_initialize : stmt :=
  when (flag UseCMoveUnconditionally)
    (FLAG_SET_DEFAULT UseCMoveUnconditionally false) ;;
  when (fun st => 0 <? intx ConditionalMoveLimit st)
    (FLAG_SET_DEFAULT_intx ConditionalMoveLimit (fun _ => 0)) ;;
  when (! flag UseRVV)
    (FLAG_SET_DEFAULT SpecialEncodeISOArray false) ;;
  when (! flag UseRVV &&& (fun st => negb (intx MaxVectorSize st =? 0)))
    (FLAG_SET_DEFAULT_intx MaxVectorSize (fun _ => 0)) ;;
  when (flag UseRVV) (
    If (FLAG_IS_DEFAULT_intx MaxVectorSize)
      (FLAG_SET_DEFAULT_intx MaxVectorSize _initial_vector_length)
      (If (fun st => intx MaxVectorSize st <? 16) (
         warning "RVV does not support vector length less than 16 bytes. Disabling RVV."
                 no_arguments ;;
         FLAG_SET_DEFAULT UseRVV false)
         (If (fun st => is_power_of_2 (intx MaxVectorSize st)) (
            when (fun st => _initial_vector_length st <? intx MaxVectorSize st)
              (warning "Current system only supports max RVV vector length %d. Set MaxVectorSize to %d"
                       (fun st => [_initial_vector_length st; _initial_vector_length st])) ;;
            FLAG_SET_DEFAULT_intx MaxVectorSize _initial_vector_length)
            (vm_exit_during_initialization "Unsupported MaxVectorSize: %d"
               (fun st => [to_int (intx MaxVectorSize st)]))))) ;;
  when (flag UseRVV) (
    warning "Support RVV 16-byte vector only: MaxVectorSize = 16" no_arguments ;;
    FLAG_SET_DEFAULT_intx MaxVectorSize (fun _ => 16)) ;;
  (* disable prefetch *)
  when (FLAG_IS_DEFAULT_intx AllocatePrefetchStyle)
    (FLAG_SET_DEFAULT_intx AllocatePrefetchStyle (fun _ => 0)) ;;
  when (FLAG_IS_DEFAULT UseMulAddIntrinsic)
    (FLAG_SET_DEFAULT UseMulAddIntrinsic true) ;;
  when (FLAG_IS_DEFAULT UseMultiplyToLenIntrinsic)
    (FLAG_SET_DEFAULT UseMultiplyToLenIntrinsic true) ;;
  when (FLAG_IS_DEFAULT UseSquareToLenIntrinsic)
    (FLAG_SET_DEFAULT UseSquareToLenIntrinsic true) ;;
  when (FLAG_IS_DEFAULT UseMontgomeryMultiplyIntrinsic)
    (FLAG_SET_DEFAULT UseMontgomeryMultiplyIntrinsic true) ;;
  when (FLAG_IS_DEFAULT UseMontgomerySquareIntrinsic)
    (FLAG_SET_DEFAULT UseMontgomerySquareIntrinsic true).

(** [features & bit], as a condition. *)
Definition supported (features bit : Z) : bool := negb (Z.land features bit =? 0).

(** [snprintf(buf, sizeof(buf), "%s,", uarch)] on an empty [buf], when there
    is a micro-architecture to print: the text is cut to the size of the
    buffer. *)
Definition uarch_prefix (uarch : option string) : string :=
  match uarch with
  | Some u => if negb (String.eqb u "")
              then substring 0 511 (u ++ ",")
              else EmptyString
  | None => EmptyString
  end.

(** The building of the features string in [char buf[512]]: the
    micro-architecture, then "rv64", then, by [ADD_FEATURE_IF_SUPPORTED], the
    name of every supported feature in the order of the table. [None] when
    a [strcat] runs over the buffer. *)
Definition build_features_string (table : list (Z * string)) (features : Z)
           (uarch : option string) : option string :=
  fold_left (fun buf '(bit, name) =>
               match buf with
               | Some b => if supported features bit then strcat b name else Some b
               | None => None
               end)
            table (strcat (uarch_prefix uarch) "rv64").

(** The same text put together at once. *)
Definition features_text (table : list (Z * string)) (features : Z)
           (uarch : option string) : string :=
  (uarch_prefix uarch ++ "rv64"
     ++ fold_right append EmptyString
          (map snd (filter (fun entry => supported features (fst entry)) table)))%string.

Section Platform.

(** What [vm_version_riscv.hpp] and the operating system contribute and the
    sources at hand do not show: the feature bits [CPU_V], [CPU_B] and
    [CPU_C], the table [CPU_FEATURE_FLAGS] as pairs of bit and name, whether
    [COMPILER2] is defined, what [get_os_cpu_info] finds, whether
    [BufferBlob::create] gives a blob, and the vector length the CPU
    reports. *)
Variable CPU_V : Z.
Variable CPU_B : Z.
Variable CPU_C : Z.
Variable CPU_FEATURE_FLAGS : list (Z * string).
Variable COMPILER2 : bool.
Variable os_features : Z.
Variable os_uarch : option string.
Variable blob_created : bool.
Variable current_vector_length : Z.

(** [_features & bit] *)
Definition has (bit : Z) : cond := fun st => supported (_features st) bit.

(** [get_os_cpu_info]: fills in [_features] and [_uarch]. *)
Definition get_os_cpu_info : stmt :=
  fun st => Done (mk (bool_value st) (intx_value st) (bool_is_default st)
                     (intx_is_default st) (bool_is_cmdline st) os_features
                     os_uarch (_initial_vector_length st) (_features_string st)
                     (warnings st)).

(** [_initial_vector_length = get_current_vector_length()] *)
Definition read_vector_length : stmt :=
  fun st => Done (mk (bool_value st) (intx_value st) (bool_is_default st)
                     (intx_is_default st) (bool_is_cmdline st) (_features st)
                     (_uarch st) current_vector_length (_features_string st)
                     (warnings st)).

(** The creation of [stub_blob] and of the stub that reads [CSR_VL], and the
    call of the stub, whose result is not used. *)
Definition getPsrInfo_stub : stmt :=
  if blob_created then skip
  else vm_exit_during_initialization "Unable to allocate getPsrInfo_stub" no_arguments.

(** The text built in [buf]. *)
Definition features_buf (st : t) : option string :=
  build_features_string CPU_FEATURE_FLAGS (_features st) (_uarch st).

(** [_features_string = os::strdup(buf)] *)
Definition set_features_string : stmt :=
  fun st => match features_buf st with
            | Some buf =>
                Done (mk (bool_value st) (intx_value st) (bool_is_default st)
                         (intx_is_default st) (bool_is_cmdline st) (_features st)
                         (_uarch st) (_initial_vector_length st) (Some buf)
                         (warnings st))
            | None => Overrun
            end.

(** [VM_Version::initialize] *)
Definition initialize : stmt :=
  get_os_cpu_info ;;
  when (FLAG_IS_DEFAULT UseFMA) (FLAG_SET_DEFAULT UseFMA true) ;;
  when (FLAG_IS_DEFAULT_intx AllocatePrefetchDistance)
    (FLAG_SET_DEFAULT_intx AllocatePrefetchDistance (fun _ => 0)) ;;
  when (flag UseAES ||| flag UseAESIntrinsics) (
    when (flag UseAES &&& ! FLAG_IS_DEFAULT UseAES) (
      warning "AES instructions are not available on this CPU" no_arguments ;;
      FLAG_SET_DEFAULT UseAES false) ;;
    when (flag UseAESIntrinsics &&& ! FLAG_IS_DEFAULT UseAESIntrinsics) (
      warning "AES intrinsics are not available on this CPU" no_arguments ;;
      FLAG_SET_DEFAULT UseAESIntrinsics false)) ;;
  when (flag UseAESCTRIntrinsics) (
    warning "AES/CTR intrinsics are not available on this CPU" no_arguments ;;
    FLAG_SET_DEFAULT UseAESCTRIntrinsics false) ;;
  when (flag UseSHA) (
    warning "SHA instructions are not available on this CPU" no_arguments ;;
    FLAG_SET_DEFAULT UseSHA false) ;;
  when (flag UseSHA1Intrinsics) (
    warning "Intrinsics for SHA-1 crypto hash functions not available on this CPU."
            no_arguments ;;
    FLAG_SET_DEFAULT UseSHA1Intrinsics false) ;;
  when (flag UseSHA256Intrinsics) (
    warning "Intrinsics for SHA-224 and SHA-256 crypto hash functions not available on this CPU."
            no_arguments ;;
    FLAG_SET_DEFAULT UseSHA256Intrinsics false) ;;
  when (flag UseSHA512Intrinsics) (
    warning "Intrinsics for SHA-384 and SHA-512 crypto hash functions not available on this CPU."
            no_arguments ;;
    FLAG_SET_DEFAULT UseSHA512Intrinsics false) ;;
  when (flag UseCRC32Intrinsics) (
    warning "CRC32 intrinsics are not available on this CPU." no_arguments ;;
    FLAG_SET_DEFAULT UseCRC32Intrinsics false) ;;
  when (flag UseCRC32CIntrinsics) (
    warning "CRC32C intrinsics are not available on this CPU." no_arguments ;;
    FLAG_SET_DEFAULT UseCRC32CIntrinsics false) ;;
  when (flag UseRVV) (
    If (! has CPU_V) (
      (* test if it has RVV 0.7.1 here: *)
      FLAG_SET_DEFAULT UseRVV071 true ;;
      getPsrInfo_stub ;;
      when (flag UseRVV071) (warning "RVV 0.7.1 is enabled" no_arguments))
      (* read vector length from vector CSR vlenb *)
      read_vector_length) ;;
  when (flag UseRVB &&& ! has CPU_B) (
    warning "RVB is not supported on this CPU" no_arguments ;;
    FLAG_SET_DEFAULT UseRVB false) ;;
  when (flag UseRVC &&& ! has CPU_C) (
    warning "RVC is not supported on this CPU" no_arguments ;;
    FLAG_SET_DEFAULT UseRVC false) ;;
  when (FLAG_IS_DEFAULT AvoidUnalignedAccesses)
    (FLAG_SET_DEFAULT AvoidUnalignedAccesses true) ;;
  If (flag UseRVB)
    (when (FLAG_IS_DEFAULT UsePopCountInstruction)
       (FLAG_SET_DEFAULT UsePopCountInstruction true))
    (FLAG_SET_DEFAULT UsePopCountInstruction false) ;;
  set_features_string ;;
  (if COMPILER2 then c2_initialize else skip) ;;
  UNSUPPORTED_OPTION CriticalJNINatives "CriticalJNINatives" ;;
  FLAG_SET_DEFAULT UseMembar true.

End Platform.

(** A statement that leaves a part of the state as it finds it. *)
Definition keeps {A : Type} (part : t -> A) (s : stmt) : Prop :=
  forall st st', s st = Done st' -> part st' = part st.

(** A statement that always falls through. *)
Definition falls_through (s : stmt) : Prop :=
  forall st, exists st', s st = Done st'.

(** A statement that does not switch on a flag that was set to off by
    the user: the flag is not at its default and off before, and so it is
    after. *)
Definition respects_off (f : bool_flag) (s : stmt) : Prop :=
  forall st st', s st = Done st' ->
    bool_is_default st f = false -> bool_value st f = false ->
    bool_is_default st' f = false /\ bool_value st' f = false.

(** A statement that only adds to the warnings given. *)
Definition logs (s : stmt) : Prop :=
  forall st st', s st = Done st' -> exists more, warnings st' = warnings st ++ more.

End VM_Version.

(* ================================================================== *)
(** * A start of the VM to run the initialization on *)

Module Boot.

Local Open Scope Z_scope.

(** A CPU with the extensions I, M, A, F, D, C and V. The bit of an
    extension in the feature word is the position of its letter in the
    alphabet. *)
Definition CPU_FEATURE_FLAGS : list (Z * string) :=
  [ (2 ^ 8, "i"); (2 ^ 12, "m"); (2 ^ 0, "a"); (2 ^ 5, "f");
    (2 ^ 3, "d"); (2 ^ 2, "c"); (2 ^ 21, "v"); (2 ^ 1, "b") ]%string.

Definition CPU_V : Z := 2 ^ 21.
Definition CPU_B : Z := 2 ^ 1.
Definition CPU_C : Z := 2 ^ 2.

Definition features : Z := 2 ^ 8 + 2 ^ 12 + 2 ^ 0 + 2 ^ 5 + 2 ^ 3 + 2 ^ 2 + 2 ^ 21.

(** The command line:
    [-XX:+UseSHA -XX:+UseRVV -XX:+UseRVB -XX:-UseFMA -XX:MaxVectorSize=8]. *)
Definition given (f : VM_Version.bool_flag) : bool :=
  match f with
  | VM_Version.UseSHA | VM_Version.UseRVV | VM_Version.UseRVB
  | VM_Version.UseFMA => true
  | _ => false
  end.

Definition on_command_line (f : VM_Version.bool_flag) : bool :=
  match f with
  | VM_Version.UseSHA | VM_Version.UseRVV | VM_Version.UseRVB => true
  | _ => false
  end.

(** The state [initialize] starts in: what the command line says, every
    other flag at its default, taken to be off or zero. *)
Definition flags : VM_Version.t :=
  VM_Version.mk
    on_command_line
    (fun g => match g with VM_Version.MaxVectorSize => 8 | _ => 0 end)
    (fun f => negb (given f))
    (fun g => match g with VM_Version.MaxVectorSize => false | _ => true end)
    given
    0 (Some EmptyString) 0 None [].

(** [initialize] on this CPU, with the second compiler, a blob for the stub
    and a vector length of 16 bytes. *)
Definition initialize : VM_Version.stmt :=
  VM_Version.initialize CPU_V CPU_B CPU_C CPU_FEATURE_FLAGS true
    features (Some "sifive,u74-mc"%string) true 16.

Definition started : VM_Version.t :=
  match initialize flags with
  | VM_Version.Done st => st
  | _ => flags
  end.

Definition compiled : VM_Version.t :=
  match VM_Version.c2_initialize flags with
  | VM_Version.Done st => st
  | _ => flags
  end.

End Boot.

(* ================================================================== *)
(** * Properties of the locks *)

Local Open Scope Z_scope.

Lemma wrap64_small (x : Z) : 0 <= x < 2 ^ 64 -> wrap64 x = x.
Proof. intros H. unfold wrap64. now apply Z.mod_small. Qed.

Lemma to_jlong_small (x : Z) : 0 <= x < 2 ^ 63 -> to_jlong x = x.
Proof.
  intros H. unfold to_jlong.
  rewrite Z.mod_small; lia.
Qed.

Lemma same_thread_refl (o : option Thread) : same_thread o o = true.
Proof. destruct o as [x|]; simpl; [apply Nat.eqb_refl | reflexivity]. Qed.

Lemma same_thread_eq (a b : option Thread) : same_thread a b = true <-> a = b.
Proof.
  destruct a as [x|], b as [y|]; simpl; split; intros H;
    try discriminate; try reflexivity.
  - apply Nat.eqb_eq in H. now subst.
  - injection H as ->. apply Nat.eqb_refl.
Qed.

(** A lock already held by [cur] is re-entered without a look at the mutex. *)
Lemma lock_reentry (cur : Thread) (l : ZReentrantLock.t) :
  ZReentrantLock._owner l = Some cur ->
  ZReentrantLock.lock cur l =
  Some (ZReentrantLock.mk (ZReentrantLock._lock l) (ZReentrantLock._owner l)
                          (wrap64 (ZReentrantLock._count l + 1))).
Proof.
  intros H. unfold ZReentrantLock.lock.
  rewrite H, same_thread_refl. reflexivity.
Qed.

(** [lock] on a free lock takes the mutex and becomes the owner. *)
Lemma lock_unheld (cur : Thread) (l : ZReentrantLock.t) :
  ZReentrantLock.unheld l ->
  exists l', ZReentrantLock.lock cur l = Some l' /\ ZReentrantLock.held_by cur 1 l'.
Proof.
  intros (Hm & Ho & Hc). unfold ZReentrantLock.lock.
  rewrite Ho, Hm, Hc. simpl.
  eexists. split; [reflexivity|]. repeat split.
Qed.

Lemma lock_held (cur : Thread) (c : Z) (l : ZReentrantLock.t) :
  0 <= c -> c + 1 < 2 ^ 64 ->
  ZReentrantLock.held_by cur c l ->
  exists l', ZReentrantLock.lock cur l = Some l' /\ ZReentrantLock.held_by cur (c + 1) l'.
Proof.
  intros H0 H1 (Hm & Ho & Hc).
  rewrite (lock_reentry _ Ho). eexists. split; [reflexivity|].
  unfold ZReentrantLock.held_by. simpl. rewrite Hm, Ho, Hc.
  rewrite wrap64_small by lia. repeat split.
Qed.

Lemma lock_n_held (cur : Thread) (n : nat) :
  forall (c : Z) (l : ZReentrantLock.t),
    0 <= c -> c + Z.of_nat n < 2 ^ 64 ->
    ZReentrantLock.held_by cur c l ->
    exists l', ZReentrantLock.lock_n cur n l = Some l'
               /\ ZReentrantLock.held_by cur (c + Z.of_nat n) l'.
Proof.
  induction n as [|n IH]; intros c l H0 H1 H.
  - exists l. split; [reflexivity|]. now rewrite Z.add_0_r.
  - destruct (@lock_held cur c l) as (l1 & E1 & H1'); try lia; trivial.
    destruct (IH (c + 1) l1) as (l2 & E2 & H2); try lia; trivial.
    exists l2. cbn [ZReentrantLock.lock_n]. rewrite E1. split; [exact E2|].
    replace (c + Z.of_nat (S n)) with (c + 1 + Z.of_nat n) by lia. exact H2.
Qed.

(** [unlock] by the owner: the count goes down by one; the lock is given up,
    owner cleared and mutex released, exactly when it reaches zero. *)
Lemma unlock_held (dbg : bool) (cur : Thread) (c : Z) (l : ZReentrantLock.t) :
  0 < c < 2 ^ 64 ->
  ZReentrantLock.held_by cur c l ->
  exists l', ZReentrantLock.unlock dbg cur l = Returned l'
             /\ (c = 1 -> ZReentrantLock.unheld l')
             /\ (1 < c -> ZReentrantLock.held_by cur (c - 1) l').
Proof.
  intros Hc (Hm & Ho & Hn). unfold ZReentrantLock.unlock, ZReentrantLock.is_owned.
  rewrite Ho, same_thread_refl, Hn.
  assert (E : (0 <? c) = true) by (apply Z.ltb_lt; lia). rewrite E.
  rewrite wrap64_small by lia.
  destruct dbg; simpl; destruct (Z.eqb_spec (c - 1) 0) as [Hz|Hz];
    eexists; (split; [reflexivity|]); split; intros H; try lia;
    unfold ZReentrantLock.unheld, ZReentrantLock.held_by; simpl; auto.
Qed.

Lemma unlock_n_held (dbg : bool) (cur : Thread) (k : nat) :
  forall (c : Z) (l : ZReentrantLock.t),
    Z.of_nat k < c < 2 ^ 64 ->
    ZReentrantLock.held_by cur c l ->
    exists l', ZReentrantLock.unlock_n dbg cur k l = Returned l'
               /\ ZReentrantLock.held_by cur (c - Z.of_nat k) l'.
Proof.
  induction k as [|k IH]; intros c l Hc H.
  - exists l. split; [reflexivity|]. now rewrite Z.sub_0_r.
  - destruct (@unlock_held dbg cur c l) as (l1 & E1 & _ & H1); try lia; trivial.
    destruct (IH (c - 1) l1) as (l2 & E2 & H2); try lia.
    { apply H1. lia. }
    exists l2. cbn [ZReentrantLock.unlock_n]. rewrite E1. cbn [bind].
    split; [exact E2|].
    replace (c - Z.of_nat (S k)) with (c - 1 - Z.of_nat k) by lia. exact H2.
Qed.

(** C9. The reentrant lock: [lock] by the owner only increments the hold
    count and leaves the mutex alone; [unlock] decrements it and, exactly when
    it is back at zero, clears the owner and releases the mutex; so after [n]
    nested [lock]s ([n] within the range of the 64-bit counter) the thread
    holds the mutex through its first [n - 1] [unlock]s and gives it up at the
    [n]-th; [unlock] by a thread that is not the owner, or at count zero,
    trips an assert. *)
Theorem reentrant_lock_invariant (cur : Thread) :
  (* lock by the owner *)
  (forall l, ZReentrantLock._owner l = Some cur ->
     ZReentrantLock.lock cur l =
     Some (ZReentrantLock.mk (ZReentrantLock._lock l) (ZReentrantLock._owner l)
                             (wrap64 (ZReentrantLock._count l + 1))))
  (* unlock by the owner *)
  /\ (forall dbg c l, 0 < c < 2 ^ 64 -> ZReentrantLock.held_by cur c l ->
        exists l', ZReentrantLock.unlock dbg cur l = Returned l'
                   /\ ZReentrantLock._count l' = c - 1
                   /\ (c = 1 -> ZReentrantLock._owner l' = None
                                /\ ZReentrantLock._lock l' = None)
                   /\ (1 < c -> ZReentrantLock._owner l' = Some cur
                                /\ ZReentrantLock._lock l' = Some cur))
  (* n nested locks, then unlocks *)
  /\ (forall dbg (n k : nat) l,
        (0 < n)%nat -> Z.of_nat n < 2 ^ 64 -> ZReentrantLock.unheld l ->
        exists ln, ZReentrantLock.lock_n cur n l = Some ln
          /\ ZReentrantLock.held_by cur (Z.of_nat n) ln
          /\ ((k < n)%nat ->
                exists lk, ZReentrantLock.unlock_n dbg cur k ln = Returned lk
                           /\ ZReentrantLock.held_by cur (Z.of_nat n - Z.of_nat k) lk)
          /\ exists l0, ZReentrantLock.unlock_n dbg cur n ln = Returned l0
                        /\ ZReentrantLock.unheld l0)
  (* contract violations *)
  /\ (forall l, ZReentrantLock._owner l <> Some cur ->
        ZReentrantLock.unlock true cur l = AssertFailed "Invalid owner")
  /\ (forall l, ZReentrantLock._owner l = Some cur -> ZReentrantLock._count l = 0 ->
        ZReentrantLock.unlock true cur l = AssertFailed "Invalid count").
Proof.
  split; [|split; [|split; [|split]]].
  - intros l H. now apply lock_reentry.
  - intros dbg c l Hc H.
    destruct (unlock_held dbg Hc H) as (l' & E & H1 & H2).
    exists l'. split; [exact E|].
    assert (c = 1 \/ 1 < c) as [C|C] by lia.
    + destruct (H1 C) as (A & B & D). rewrite D. repeat split; auto; lia.
    + destruct (H2 C) as (A & B & D). repeat split; auto; lia.
  - intros dbg n k l Hn Hb Hu.
    destruct n as [|n]; [lia|].
    destruct (lock_unheld cur Hu) as (l1 & E1 & H1).
    destruct (@lock_n_held cur n 1 l1) as (ln & En & Hln); try lia; trivial.
    replace (1 + Z.of_nat n) with (Z.of_nat (S n)) in Hln by lia.
    exists ln. split; [cbn [ZReentrantLock.lock_n]; rewrite E1; exact En|].
    split; [exact Hln|]. split.
    + intros Hk. apply unlock_n_held; [lia | exact Hln].
    + destruct (@unlock_n_held dbg cur n (Z.of_nat (S n)) ln) as (lk & Ek & Hlk);
        try lia; trivial.
      replace (Z.of_nat (S n) - Z.of_nat n) with 1 in Hlk by lia.
      destruct (@unlock_held dbg cur 1 lk) as (l0 & E0 & H0 & _); try lia; trivial.
      exists l0. split; [|now apply H0].
      clear - Ek E0. revert ln Ek. induction n as [|n IH]; intros ln Ek.
      * cbn [ZReentrantLock.unlock_n] in *. injection Ek as ->.
        rewrite E0. reflexivity.
      * cbn [ZReentrantLock.unlock_n] in Ek |- *.
        destruct (ZReentrantLock.unlock dbg cur ln) as [l2| |]; cbn [bind] in *;
          try discriminate.
        apply (IH l2 Ek).
  - intros l H. unfold ZReentrantLock.unlock, ZReentrantLock.is_owned.
    destruct (same_thread (ZReentrantLock._owner l) (Some cur)) eqn:E.
    + apply same_thread_eq in E. contradiction.
    + reflexivity.
  - intros l Ho Hc. unfold ZReentrantLock.unlock, ZReentrantLock.is_owned.
    rewrite Ho, same_thread_refl, Hc. reflexivity.
Qed.

Lemma reentrant_lock_invariant_witness :
  exists ln,
    ZReentrantLock.lock_n 7%nat 3 ZReentrantLock.init = Some ln
    /\ ZReentrantLock.held_by 7%nat 3 ln
    /\ (exists lk, ZReentrantLock.unlock_n true 7%nat 2 ln = Returned lk
                   /\ ZReentrantLock.held_by 7%nat 1 lk)
    /\ (exists l0, ZReentrantLock.unlock_n true 7%nat 3 ln = Returned l0
                   /\ ZReentrantLock.unheld l0).
Proof.
  destruct (reentrant_lock_invariant 7%nat) as (_ & _ & H & _).
  destruct (H true 3%nat 2%nat ZReentrantLock.init) as (ln & A & B & C & D).
  - lia.
  - reflexivity.
  - repeat split.
  - exists ln. split; [exact A|]. split; [exact B|]. split; [|exact D].
    apply C. lia.
Defined.

(** The nanoseconds added to [tv_nsec] stay within a 32-bit [long]. *)
Lemma wait_nanos_fit_long (millis nsec : Z) :
  0 < millis -> millis * 1000000 <= 2 ^ 63 - 1 -> 0 <= nsec < 1000000000 ->
  0 <= nsec + Z.rem (to_jlong (wrap64 (millis * 1000000))) ZConditionLock.NANOUNITS
  < 2 ^ 31.
Proof.
  intros Hm Hfit Hn.
  rewrite wrap64_small by lia. rewrite to_jlong_small by lia.
  pose proof (Z.rem_bound_pos (millis * 1000000) ZConditionLock.NANOUNITS) as B.
  unfold ZConditionLock.NANOUNITS in *. lia.
Qed.

(** C10. [ZConditionLock::wait] with [millis > 0], [millis * 10^6] within a
    signed 64-bit integer and a starting time whose [tv_nsec] is in
    [0, 10^9): the thread waits until the starting time plus exactly [millis]
    milliseconds, and the deadline's [tv_nsec] is in [0, 10^9); the value
    returned says whether the timed wait returned 0. With [millis = 0] the
    thread waits without a deadline and [true] is returned. *)
Theorem wait_deadline (millis : Z) (now : ZConditionLock.timespec) (status : Z) :
  (0 < millis -> millis * 10 ^ 6 <= 2 ^ 63 - 1 ->
   0 <= ZConditionLock.tv_nsec now < 10 ^ 9 ->
   exists deadline,
     ZConditionLock.wait millis now status
     = (ZConditionLock.pthread_cond_timedwait deadline, status =? 0)
     /\ ZConditionLock.nanos_of deadline
        = ZConditionLock.nanos_of now + millis * 10 ^ 6
     /\ 0 <= ZConditionLock.tv_nsec deadline < 10 ^ 9)
  /\ (millis = 0 ->
      ZConditionLock.wait millis now status = (ZConditionLock.pthread_cond_wait, true)).
Proof.
  split.
  - intros Hm Hfit Hn.
    change (10 ^ 6) with 1000000 in *. change (10 ^ 9) with 1000000000 in *.
    exists (ZConditionLock.abstime millis now).
    unfold ZConditionLock.wait.
    assert (E : (0 <? millis) = true) by (apply Z.ltb_lt; lia). rewrite E.
    split; [reflexivity|].
    unfold ZConditionLock.abstime.
    change (ZConditionLock.NANOUNITS / ZConditionLock.MILLIUNITS) with 1000000.
    rewrite wrap64_small by lia. rewrite to_jlong_small by lia.
    pose proof (Z.rem_bound_pos (millis * 1000000) ZConditionLock.NANOUNITS) as B.
    pose proof (Z.quot_rem' (millis * 1000000) ZConditionLock.NANOUNITS) as Q.
    unfold ZConditionLock.nanos_of.
    set (q := Z.quot (millis * 1000000) ZConditionLock.NANOUNITS) in *.
    set (r := Z.rem (millis * 1000000) ZConditionLock.NANOUNITS) in *.
    unfold ZConditionLock.NANOUNITS in *.
    destruct (Z.leb_spec 1000000000 (ZConditionLock.tv_nsec now + r)); simpl; lia.
  - intros ->. reflexivity.
Qed.

Lemma wait_deadline_witness :
  exists deadline,
    ZConditionLock.wait 2500 (ZConditionLock.mk_timespec 100 999999999) 0
    = (ZConditionLock.pthread_cond_timedwait deadline, 0 =? 0)
    /\ ZConditionLock.nanos_of deadline
       = ZConditionLock.nanos_of (ZConditionLock.mk_timespec 100 999999999)
         + 2500 * 10 ^ 6
    /\ 0 <= ZConditionLock.tv_nsec deadline < 10 ^ 9.
Proof.
  apply (proj1 (wait_deadline 2500 (ZConditionLock.mk_timespec 100 999999999) 0)).
  - lia.
  - vm_compute. discriminate.
  - simpl. lia.
Defined.

(* ================================================================== *)
(** * Properties of the loaded class hierarchy *)

Local Open Scope nat_scope.

Section Hierarchy.

Variable limit : nat.

Lemma secondary_of_app (h x : Klass.heap) (i : Klass.id) :
  i < List.length h -> Klass.secondary_of (h ++ x) i = Klass.secondary_of h i.
Proof.
  intros H. unfold Klass.secondary_of. now rewrite nth_error_app1.
Qed.

Lemma links_below_app (h x : Klass.heap) (k : Klass.id) (d : Klass.class_decl) :
  Klass.links_below h k d -> k <= List.length h -> Klass.links_below (h ++ x) k d.
Proof.
  unfold Klass.links_below. intros [Hs Hi] Hk. split.
  - destruct (Klass.d_super d) as [s|]; [|exact Hs].
    destruct Hs as (Hlt & ks & E & R). split; [exact Hlt|].
    exists ks. rewrite nth_error_app1 by lia. now split.
  - eapply Forall_impl; [|exact Hi].
    intros i (Hlt & ki & E & R). split; [exact Hlt|].
    exists ki. rewrite nth_error_app1 by lia. now split.
Qed.

Lemma create_app (h x : Klass.heap) (k : Klass.id) (d : Klass.class_decl) :
  Klass.links_below h k d -> k <= List.length h ->
  Klass.create limit (h ++ x) d = Klass.create limit h d.
Proof.
  intros [Hs Hi] Hk. unfold Klass.create.
  assert (F : flat_map (Klass.secondary_of (h ++ x)) (Klass.d_interfaces d)
              = flat_map (Klass.secondary_of h) (Klass.d_interfaces d)).
  { clear Hs. induction Hi as [|i l (Hlt & _) _ IH]; [reflexivity|].
    simpl. rewrite IH, secondary_of_app by lia. reflexivity. }
  rewrite F.
  destruct (Klass.d_super d) as [s|]; [|reflexivity].
  destruct Hs as (Hlt & _). rewrite nth_error_app1 by lia. reflexivity.
Qed.

Lemma decl_of_create (h : Klass.heap) (d : Klass.class_decl) :
  Klass.decl_of (Klass.create limit h d) = d.
Proof. destruct d; reflexivity. Qed.

Lemma define_class_links (h h' : Klass.heap) (d : Klass.class_decl) :
  Klass.define_class limit h d = Some h' ->
  h' = h ++ [Klass.create limit h d] /\ Klass.links_below h (List.length h) d.
Proof.
  unfold Klass.define_class.
  destruct (Klass.super_ok h d) eqn:Es; [|discriminate].
  destruct (Klass.interfaces_ok h d) eqn:Ei; [|discriminate].
  simpl. intros E. injection E as <-. split; [reflexivity|].
  unfold Klass.interfaces_ok in Ei. rewrite forallb_forall in Ei.
  assert (Hi : Forall (fun i => i < List.length h
                                /\ exists ki, nth_error h i = Some ki
                                              /\ Klass.is_interface ki = true)
                      (Klass.d_interfaces d)).
  { apply Forall_forall. intros i Hin. specialize (Ei i Hin).
    destruct (nth_error h i) as [ki|] eqn:E; [|discriminate].
    split; [apply nth_error_Some; congruence|]. now exists ki. }
  split; [|exact Hi].
  unfold Klass.super_ok in Es.
  destruct (Klass.d_super d) as [s|].
  - destruct (nth_error h s) as [ks|] eqn:E; [|discriminate].
    apply andb_true_iff in Es. destruct Es as [E1 E2].
    split; [apply nth_error_Some; congruence|].
    exists ks. split; [reflexivity|]. split.
    + now apply negb_true_iff in E1.
    + intros Hd. rewrite Hd in E2. now apply Nat.eqb_eq in E2.
  - destruct h; [|discriminate]. split; [reflexivity|]. split.
    + destruct (Klass.d_interfaces d) as [|i l]; [reflexivity|].
      inversion Hi as [|? ? (Hlt & _)]. simpl in Hlt. lia.
    + now apply negb_true_iff in Es.
Qed.

Lemma loaded_defined_at (h : Klass.heap) :
  Klass.loaded limit h ->
  forall k a, nth_error h k = Some a -> Klass.defined_at limit h k a.
Proof.
  induction 1 as [|h d h' Hl IH Hd]; intros k a E.
  - destruct k; discriminate.
  - apply define_class_links in Hd. destruct Hd as [-> Hlinks].
    assert (Hk : k < List.length h \/ k = List.length h).
    { assert (Hlt : k < List.length (h ++ [Klass.create limit h d]))
        by (apply nth_error_Some; congruence).
      rewrite length_app in Hlt. simpl in Hlt. lia. }
    destruct Hk as [Hk| ->].
    + rewrite nth_error_app1 in E by exact Hk.
      destruct (IH k a E) as (_ & L & C).
      split; [rewrite length_app; simpl; lia|]. split.
      * apply links_below_app; [exact L | lia].
      * rewrite (@create_app h _ k) by (trivial; lia). exact C.
    + rewrite nth_error_app2, Nat.sub_diag in E by lia.
      simpl in E. injection E as E. subst a.
      unfold Klass.defined_at. rewrite decl_of_create.
      split; [rewrite length_app; simpl; lia|]. split.
      * apply links_below_app; [exact Hlinks | lia].
      * rewrite (@create_app h _ (List.length h)) by (trivial; lia). reflexivity.
Qed.

Lemma load_loaded (ds : list Klass.class_decl) :
  forall h h', Klass.loaded limit h -> Klass.load limit h ds = Some h' ->
               Klass.loaded limit h'.
Proof.
  induction ds as [|d ds IH]; intros h h' Hl E; simpl in E.
  - now injection E as <-.
  - destruct (Klass.define_class limit h d) as [h1|] eqn:E1; [|discriminate].
    apply (IH h1); [|exact E].
    now apply Klass.loaded_snoc with (h := h) (d := d).
Qed.


Variable h : Klass.heap.
Hypothesis Hloaded : Klass.loaded limit h.

Lemma klass_created (k : Klass.id) (a : Klass.t) :
  nth_error h k = Some a ->
  exists d, a = Klass.create limit h d /\ Klass.links_below h k d.
Proof.
  intros E. destruct (loaded_defined_at Hloaded _ E) as (_ & L & C).
  now exists (Klass.decl_of a).
Qed.

Lemma klass_flags (k : Klass.id) (a : Klass.t) :
  nth_error h k = Some a ->
  Klass.can_be_primary_super a
  = negb (Klass.is_interface a) && (Klass.super_depth a <? limit)
  /\ Klass.super_check_offset a
     = if Klass.can_be_primary_super a then Klass.super_depth a else limit.
Proof.
  intros E. destruct (klass_created _ E) as (d & -> & _). split; reflexivity.
Qed.

Lemma klass_root (a : Klass.t) :
  nth_error h 0 = Some a ->
  Klass.super a = None /\ Klass.super_depth a = 0
  /\ Klass.primary_supers a = [] /\ Klass.secondary_supers a = []
  /\ Klass.local_interfaces a = [] /\ Klass.is_interface a = false.
Proof.
  intros E. destruct (klass_created _ E) as (d & -> & Hs & _).
  unfold Klass.create. simpl.
  destruct (Klass.d_super d) as [s|] eqn:Es.
  - destruct Hs as (Hlt & _). lia.
  - destruct Hs as (_ & -> & ->). simpl. repeat split.
Qed.

Lemma klass_super (k s : Klass.id) (a : Klass.t) :
  nth_error h k = Some a -> Klass.super a = Some s ->
  s < k
  /\ exists ks,
      nth_error h s = Some ks
      /\ Klass.is_interface ks = false
      /\ (Klass.is_interface a = true -> s = 0)
      /\ Klass.super_depth a = S (Klass.super_depth ks)
      /\ Klass.primary_supers a
         = (if Klass.super_depth ks <? limit
            then Klass.primary_supers ks ++ [s] else Klass.primary_supers ks)
      /\ Klass.secondary_supers a
         = ((if Klass.super_depth ks <? limit then [] else [s])
              ++ Klass.secondary_supers ks)
             ++ Klass.local_interfaces a
             ++ flat_map (Klass.secondary_of h) (Klass.local_interfaces a).
Proof.
  intros E. destruct (klass_created _ E) as (d & -> & Hs & _).
  unfold Klass.create. simpl. intros Es. rewrite Es in Hs |- *.
  destruct Hs as (Hlt & ks & Eks & Hi & Hr).
  split; [exact Hlt|]. exists ks. rewrite Eks. repeat split; trivial.
Qed.

Lemma klass_no_super (k : Klass.id) (a : Klass.t) :
  nth_error h k = Some a -> Klass.super a = None -> k = 0.
Proof.
  intros E. destruct (klass_created _ E) as (d & -> & Hs & _).
  simpl. intros Es. rewrite Es in Hs. tauto.
Qed.

Lemma klass_interfaces (k : Klass.id) (a : Klass.t) :
  nth_error h k = Some a ->
  Forall (fun i => i < k /\ exists ki, nth_error h i = Some ki
                                       /\ Klass.is_interface ki = true)
         (Klass.local_interfaces a).
Proof.
  intros E. destruct (klass_created _ E) as (d & -> & _ & Hi). exact Hi.
Qed.

(** The display and the secondary set of a loaded class: the display has
    [min depth limit] entries, the entry at position [i] is an eligible class
    of depth [i]; the members of the secondary set are not eligible; the
    display of every type but the root starts at the root. *)
Lemma display_facts :
  forall k a, nth_error h k = Some a ->
    List.length (Klass.primary_supers a) = Nat.min (Klass.super_depth a) limit
    /\ (forall i x, nth_error (Klass.primary_supers a) i = Some x ->
          x < k /\ exists kx, nth_error h x = Some kx
                              /\ Klass.super_depth kx = i
                              /\ Klass.can_be_primary_super kx = true)
    /\ (forall x, In x (Klass.secondary_supers a) ->
          x < k /\ exists kx, nth_error h x = Some kx
                              /\ Klass.can_be_primary_super kx = false)
    /\ (k <> 0 -> 0 < limit -> nth_error (Klass.primary_supers a) 0 = Some 0).
Proof.
  induction k as [k IH] using lt_wf_ind. intros a E.
  destruct (Klass.super a) as [s|] eqn:Es.
  - destruct (klass_super _ E Es) as (Hlt & ks & Eks & Hcls & _ & Hd & Hp & Hsec).
    destruct (IH s Hlt ks Eks) as (Ls & Ps & Ss & Rs).
    destruct (klass_flags _ Eks) as (Fs & _). rewrite Hcls in Fs. simpl in Fs.
    pose proof (klass_interfaces _ E) as Hifs. rewrite Forall_forall in Hifs.
    rewrite Hp, Hsec, Hd. clear Hp Hsec Hd.
    destruct (Nat.ltb_spec (Klass.super_depth ks) limit) as [Hin|Hout].
    + (* the superclass has a slot in the display *)
      split; [rewrite length_app, Ls; cbn [List.length]; lia|]. split; [|split].
      * intros i x Hi.
        destruct (Nat.lt_ge_cases i (List.length (Klass.primary_supers ks))) as [Hi'|Hi'].
        -- rewrite nth_error_app1 in Hi by exact Hi'.
           destruct (Ps i x Hi) as (Hx & R). split; [lia | exact R].
        -- rewrite nth_error_app2 in Hi by exact Hi'.
           destruct (i - List.length (Klass.primary_supers ks)) as [|j] eqn:Ej;
             [|destruct j; discriminate].
           simpl in Hi. injection Hi as <-. split; [exact Hlt|].
           exists ks. repeat split; trivial. lia.
      * intros x Hx. simpl in Hx. rewrite !in_app_iff in Hx.
        destruct Hx as [Hx|[Hx|Hx]].
        -- destruct (Ss x Hx) as (Hx' & R). split; [lia | exact R].
        -- destruct (Hifs x Hx) as (Hx' & ki & Eki & Hki). split; [exact Hx'|].
           exists ki. split; [exact Eki|].
           destruct (klass_flags _ Eki) as (F & _). rewrite F, Hki. reflexivity.
        -- apply in_flat_map in Hx. destruct Hx as (i & Hi & Hx).
           destruct (Hifs i Hi) as (Hi' & ki & Eki & Hki).
           unfold Klass.secondary_of in Hx. rewrite Eki in Hx.
           destruct (IH i Hi' ki Eki) as (_ & _ & Si & _).
           destruct (Si x Hx) as (Hx' & R). split; [lia | exact R].
      * intros _ Hlim. destruct (Nat.eq_dec s 0) as [->|Hs0].
        -- destruct (klass_root Eks) as (_ & _ & -> & _). reflexivity.
        -- rewrite nth_error_app1; [apply Rs; trivial|].
           apply nth_error_Some. rewrite (Rs Hs0 Hlim). discriminate.
    + (* the superclass is past the display *)
      split; [rewrite Ls; lia|]. split; [|split].
      * intros i x Hi. destruct (Ps i x Hi) as (Hx & R). split; [lia | exact R].
      * intros x Hx. simpl in Hx. rewrite !in_app_iff in Hx.
        destruct Hx as [<-|[Hx|[Hx|Hx]]].
        -- split; [exact Hlt|]. exists ks. split; [exact Eks | exact Fs].
        -- destruct (Ss x Hx) as (Hx' & R). split; [lia | exact R].
        -- destruct (Hifs x Hx) as (Hx' & ki & Eki & Hki). split; [exact Hx'|].
           exists ki. split; [exact Eki|].
           destruct (klass_flags _ Eki) as (F & _). rewrite F, Hki. reflexivity.
        -- apply in_flat_map in Hx. destruct Hx as (i & Hi & Hx).
           destruct (Hifs i Hi) as (Hi' & ki & Eki & Hki).
           unfold Klass.secondary_of in Hx. rewrite Eki in Hx.
           destruct (IH i Hi' ki Eki) as (_ & _ & Si & _).
           destruct (Si x Hx) as (Hx' & R). split; [lia | exact R].
      * intros _ Hlim. destruct (Nat.eq_dec s 0) as [->|Hs0].
        -- destruct (klass_root Eks) as (_ & D & _). lia.
        -- apply Rs; trivial.
  - pose proof (klass_no_super _ E Es) as ->.
    destruct (klass_root E) as (_ & -> & -> & -> & _). simpl.
    split; [reflexivity|]. split; [|split].
    + intros [|i] x Hi; discriminate.
    + intros x [].
    + intros H0. contradiction.
Qed.

Lemma flat_map_ext_in {A B : Type} (f g : A -> list B) (l : list A) :
  (forall x, In x l -> f x = g x) -> flat_map f l = flat_map g l.
Proof.
  induction l as [|x l IH]; intros H; [reflexivity|].
  simpl. rewrite (H x), IH; [reflexivity| |now left].
  intros y Hy. apply H. now right.
Qed.

Lemma existsb_eqb_In (k : nat) (l : list nat) :
  existsb (Nat.eqb k) l = true <-> In k l.
Proof.
  rewrite existsb_exists. split.
  - intros (x & Hx & E). apply Nat.eqb_eq in E. now subst.
  - intros H. exists k. split; [exact H | apply Nat.eqb_refl].
Qed.

(** More fuel than the identity of a class does not change its ancestor set. *)
Lemma ancestor_set_fuel :
  forall k f, k < f -> Klass.ancestor_set h f k = Klass.ancestor_set h (S k) k.
Proof.
  induction k as [k IH] using lt_wf_ind. intros f Hf.
  destruct f as [|f]; [lia|]. cbn [Klass.ancestor_set].
  destruct (nth_error h k) as [a|] eqn:E; [|reflexivity].
  pose proof (klass_interfaces _ E) as Hifs. rewrite Forall_forall in Hifs.
  f_equal. f_equal.
  - destruct (Klass.super a) as [s|] eqn:Es; [|reflexivity].
    destruct (klass_super _ E Es) as (Hlt & _).
    rewrite (IH s Hlt f), (IH s Hlt k); trivial; lia.
  - apply flat_map_ext_in. intros i Hi. destruct (Hifs i Hi) as (Hlt & _).
    rewrite (IH i Hlt f), (IH i Hlt k); trivial; lia.
Qed.

(** The ancestor set of a class is the class, its display and its secondary
    set. *)
Lemma ancestor_set_spec :
  forall k a, nth_error h k = Some a ->
    forall x, In x (Klass.ancestor_set h (S k) k)
              <-> x = k \/ In x (Klass.primary_supers a)
                  \/ In x (Klass.secondary_supers a).
Proof.
  induction k as [k IH] using lt_wf_ind. intros a E x.
  cbn [Klass.ancestor_set]. rewrite E.
  pose proof (klass_interfaces _ E) as Hifs. rewrite Forall_forall in Hifs.
  assert (Hflat : In x (flat_map (Klass.ancestor_set h k) (Klass.local_interfaces a))
                  <-> exists i ki, In i (Klass.local_interfaces a)
                                   /\ nth_error h i = Some ki
                                   /\ (x = i \/ In x (Klass.primary_supers ki)
                                       \/ In x (Klass.secondary_supers ki))).
  { rewrite in_flat_map. split.
    - intros (i & Hi & Hx). destruct (Hifs i Hi) as (Hlt & ki & Eki & _).
      rewrite ancestor_set_fuel in Hx by exact Hlt.
      exists i, ki. split; [exact Hi|]. split; [exact Eki|].
      now apply (IH i Hlt ki Eki).
    - intros (i & ki & Hi & Eki & Hx). destruct (Hifs i Hi) as (Hlt & _).
      exists i. split; [exact Hi|].
      rewrite ancestor_set_fuel by exact Hlt. now apply (IH i Hlt ki Eki). }
  destruct (Klass.super a) as [s|] eqn:Es.
  - destruct (klass_super _ E Es) as (Hlt & ks & Eks & Hcls & _ & _ & Hp & Hsec).
    rewrite ancestor_set_fuel by exact Hlt.
    pose proof (IH s Hlt ks Eks x) as Hs.
    destruct (display_facts _ E) as (_ & _ & _ & Hroot).
    assert (HPI : forall i ki, In i (Klass.local_interfaces a) ->
                               nth_error h i = Some ki ->
                               In x (Klass.primary_supers ki) ->
                               In x (Klass.primary_supers a)).
    { intros i ki Hi Eki Hx. destruct (Hifs i Hi) as (_ & ki' & Eki' & Hint).
      rewrite Eki in Eki'. injection Eki' as <-.
      destruct (Klass.super ki) as [si|] eqn:Esi.
      - destruct (klass_super _ Eki Esi) as (_ & k0 & Ek0 & _ & Hz & _ & Hpi & _).
        specialize (Hz Hint). subst si.
        destruct (klass_root Ek0) as (_ & D0 & P0 & _).
        rewrite Hpi, D0, P0 in Hx.
        destruct (Nat.ltb_spec 0 limit) as [Hl|Hl]; simpl in Hx; [|contradiction].
        destruct Hx as [<-|[]].
        apply nth_error_In with (n := 0). apply Hroot; [lia | exact Hl].
      - pose proof (klass_no_super _ Eki Esi) as ->.
        destruct (klass_root Eki) as (_ & _ & _ & _ & _ & C). congruence. }
    assert (HP : In x (Klass.primary_supers a)
                 <-> In x (Klass.primary_supers ks)
                     \/ (Klass.super_depth ks < limit /\ x = s)).
    { rewrite Hp. destruct (Nat.ltb_spec (Klass.super_depth ks) limit) as [Hin|Hout].
      - rewrite in_app_iff. simpl. intuition (auto; congruence).
      - intuition (auto; lia). }
    assert (HS : In x (Klass.secondary_supers a)
                 <-> (limit <= Klass.super_depth ks /\ x = s)
                     \/ In x (Klass.secondary_supers ks)
                     \/ In x (Klass.local_interfaces a)
                     \/ exists i ki, In i (Klass.local_interfaces a)
                                     /\ nth_error h i = Some ki
                                     /\ In x (Klass.secondary_supers ki)).
    { rewrite Hsec, !in_app_iff, in_flat_map.
      assert (HF : (exists i, In i (Klass.local_interfaces a)
                              /\ In x (Klass.secondary_of h i))
                   <-> exists i ki, In i (Klass.local_interfaces a)
                                    /\ nth_error h i = Some ki
                                    /\ In x (Klass.secondary_supers ki)).
      { split.
        - intros (i & Hi & Hx). destruct (Hifs i Hi) as (_ & ki & Eki & _).
          unfold Klass.secondary_of in Hx. rewrite Eki in Hx. now exists i, ki.
        - intros (i & ki & Hi & Eki & Hx). exists i. split; [exact Hi|].
          unfold Klass.secondary_of. now rewrite Eki. }
      rewrite HF.
      destruct (Nat.ltb_spec (Klass.super_depth ks) limit) as [Hin|Hout]; simpl.
      - intuition (auto; lia).
      - intuition (auto; congruence). }
    assert (HD : Klass.super_depth ks < limit \/ limit <= Klass.super_depth ks) by lia.
    assert (HPI' : forall i ki, In i (Klass.local_interfaces a) ->
                                nth_error h i = Some ki ->
                                In x (Klass.primary_supers ki) ->
                                In x (Klass.primary_supers ks)
                                \/ (Klass.super_depth ks < limit /\ x = s)).
    { intros i ki Hi Eki Hx. apply HP. eapply HPI; eauto. }
    cbn [In]. rewrite in_app_iff, Hflat, Hs, HP, HS. clear Hs Hflat HP HS Hp Hsec.
    split.
    + intros [->|[[->|[H|H]]|(i & ki & Hi & Eki & [->|[H|H]])]];
        try tauto; try (now left).
      * pose proof (HPI' i ki Hi Eki H). tauto.
      * do 2 right. do 3 right. now exists i, ki.
    + intros [->|[[H|[_ ->]]|[[_ ->]|[H|[H|(i & ki & Hi & Eki & H)]]]]];
        try tauto; try (now left); try (right; left; now left).
      * destruct (Hifs x H) as (_ & ki & Eki & _).
        do 2 right. exists x, ki. auto.
      * do 2 right. exists i, ki. auto.
  - pose proof (klass_no_super _ E Es) as ->.
    destruct (klass_root E) as (_ & _ & -> & -> & -> & _). simpl.
    split; [intros [<-|[]]; auto | intros [->|[[]|[]]]; auto].
Qed.

Lemma brute_force_subtype_spec (ka kb : Klass.id) (a : Klass.t) :
  nth_error h ka = Some a ->
  Klass.brute_force_subtype h ka kb = true
  <-> kb = ka \/ In kb (Klass.primary_supers a) \/ In kb (Klass.secondary_supers a).
Proof.
  intros Ea. unfold Klass.brute_force_subtype.
  rewrite ancestor_set_fuel by (apply nth_error_Some; congruence).
  rewrite existsb_eqb_In. now apply ancestor_set_spec.
Qed.

(** The display check with its fallback decides membership in the display
    and the secondary set. *)
Lemma is_subtype_of_spec (ka kb : Klass.id) (a b : Klass.t) :
  nth_error h ka = Some a -> nth_error h kb = Some b ->
  Klass.is_subtype_of a b kb = true
  <-> In kb (Klass.primary_supers a) \/ In kb (Klass.secondary_supers a).
Proof.
  intros Ea Eb. unfold Klass.is_subtype_of.
  destruct (display_facts _ Ea) as (La & Pa & Sa & _).
  destruct (klass_flags _ Eb) as (_ & Ob). rewrite Ob.
  destruct (Klass.can_be_primary_super b) eqn:Cb.
  - (* eligible: the slot decides *)
    destruct (nth_error (Klass.primary_supers a) (Klass.super_depth b)) as [x|] eqn:Ex;
      simpl.
    + destruct (Nat.eqb_spec x kb) as [->|Hne].
      * split; [intros _|reflexivity]. left. eapply nth_error_In; eauto.
      * split; [discriminate|]. intros [Hin|Hin].
        -- apply In_nth_error in Hin. destruct Hin as (i & Hi).
           destruct (Pa i kb Hi) as (_ & kx & Ekx & Hd & _).
           rewrite Eb in Ekx. injection Ekx as <-. congruence.
        -- destruct (Sa kb Hin) as (_ & kx & Ekx & Hc).
           rewrite Eb in Ekx. injection Ekx as <-. congruence.
    + split; [discriminate|]. intros [Hin|Hin].
      * apply In_nth_error in Hin. destruct Hin as (i & Hi).
        destruct (Pa i kb Hi) as (_ & kx & Ekx & Hd & _).
        rewrite Eb in Ekx. injection Ekx as <-. congruence.
      * destruct (Sa kb Hin) as (_ & kx & Ekx & Hc).
        rewrite Eb in Ekx. injection Ekx as <-. congruence.
  - (* not eligible: the slot is past the display, the secondary set decides *)
    assert (Ex : nth_error (Klass.primary_supers a) limit = None)
      by (apply nth_error_None; lia).
    rewrite Ex. simpl. rewrite existsb_eqb_In. split; [now right|].
    intros [Hin|Hin]; [|exact Hin].
    apply In_nth_error in Hin. destruct Hin as (i & Hi).
    destruct (Pa i kb Hi) as (_ & kx & Ekx & _ & Hc).
    rewrite Eb in Ekx. injection Ekx as <-. congruence.
Qed.

Lemma is_subtype_of_brute_force (ka kb : Klass.id) (a b : Klass.t) :
  nth_error h ka = Some a -> nth_error h kb = Some b -> ka <> kb ->
  Klass.is_subtype_of a b kb = Klass.brute_force_subtype h ka kb.
Proof.
  intros Ea Eb Hne. apply eq_true_iff_eq.
  rewrite (is_subtype_of_spec _ _ Ea Eb), (brute_force_subtype_spec _ kb Ea).
  split; [tauto|]. intros [->|H]; [contradiction | exact H].
Qed.

End Hierarchy.

Section Chains.

Variable limit : nat.
Variable h : Klass.heap.
Hypothesis Hloaded : Klass.loaded limit h.











End Chains.

(* ================================================================== *)
(** * Properties of the [ciKlass] queries *)

Unset Implicit Arguments.

Section Queries.

Variable debug_build : bool.

Lemma bindM_run {A B : Type} {m : ciKlass.M A} (f : A -> ciKlass.M B)
      {w w' : ciKlass.world} {a : A} :
  m w = Returned (a, w') -> ciKlass.bindM m f w = f a w'.
Proof. intros H. unfold ciKlass.bindM. now rewrite H. Qed.

Lemma klass_of_inv (w : ciKlass.world) (p : ciKlass.ptr) (k : Klass.id) :
  ciKlass.klass_of w p = Some k ->
  exists o, nth_error (ciKlass.objects w) p = Some o /\ ciKlass._metadata o = Some k.
Proof.
  unfold ciKlass.klass_of.
  destruct (nth_error (ciKlass.objects w) p) as [o|]; [|discriminate].
  intros H. now exists o.
Qed.

Lemma is_loaded_run (w : ciKlass.world) (p : ciKlass.ptr) (o : ciKlass.t) :
  nth_error (ciKlass.objects w) p = Some o ->
  ciKlass.is_loaded p w = Returned (ciKlass.loaded o, w).
Proof.
  intros H. unfold ciKlass.is_loaded, ciKlass.bindM, ciKlass.deref.
  now rewrite H.
Qed.

Lemma assert_loaded_run (w : ciKlass.world) (p : ciKlass.ptr) (k : Klass.id)
      (msg : string) :
  ciKlass.klass_of w p = Some k ->
  ciKlass.assert_ debug_build (ciKlass.is_loaded p) msg w = Returned (tt, w).
Proof.
  intros H. destruct (klass_of_inv _ _ _ H) as (o & Eo & Em).
  unfold ciKlass.assert_. destruct debug_build; [|reflexivity].
  rewrite (bindM_run _ (is_loaded_run _ _ _ Eo)).
  unfold ciKlass.loaded. now rewrite Em.
Qed.

Lemma get_Klass_run (w : ciKlass.world) (p : ciKlass.ptr) (k : Klass.id) :
  ciKlass.klass_of w p = Some k -> ciKlass.get_Klass p w = Returned (k, w).
Proof.
  intros H. destruct (klass_of_inv _ _ _ H) as (o & Eo & Em).
  unfold ciKlass.get_Klass, ciKlass.bindM, ciKlass.deref.
  now rewrite Eo, Em.
Qed.

Lemma klass_at_run (w : ciKlass.world) (k : Klass.id) (a : Klass.t) :
  nth_error (ciKlass.vm_heap w) k = Some a -> ciKlass.klass_at k w = Returned (a, w).
Proof. intros H. unfold ciKlass.klass_at. now rewrite H. Qed.

Lemma VM_ENTRY_MARK_run {A : Type} {rest : ciKlass.M A} {w w1 : ciKlass.world} {r : A} :
  rest (ciKlass.inside w) = Returned (r, w1) ->
  ciKlass.VM_ENTRY_MARK rest w
  = Returned (r, ciKlass.mk_world (ciKlass.vm_heap w1) (ciKlass.objects w1)
                                  (pred (ciKlass.vm_entries w1)) (ciKlass.crossings w1)).
Proof.
  intros H. unfold ciKlass.VM_ENTRY_MARK, ciKlass.bindM, ciKlass.enter_vm.
  fold (ciKlass.inside w). rewrite H. reflexivity.
Qed.

Lemma klass_of_inside (w : ciKlass.world) (p : ciKlass.ptr) :
  ciKlass.klass_of (ciKlass.inside w) p = ciKlass.klass_of w p.
Proof. reflexivity. Qed.

Lemma objects_ok_inv (w : ciKlass.world) :
  ciKlass.objects_ok w = true ->
  ciKlass.distinct (ciKlass.objects w) = true
  /\ forall p k, ciKlass.klass_of w p = Some k -> k < List.length (ciKlass.vm_heap w).
Proof.
  unfold ciKlass.objects_ok. intros H. apply andb_true_iff in H.
  destruct H as [Hv Hd]. split; [exact Hd|].
  intros p k Hk. destruct (klass_of_inv _ _ _ Hk) as (o & Eo & Em).
  rewrite forallb_forall in Hv. specialize (Hv o (nth_error_In _ _ Eo)).
  rewrite Em in Hv. now apply Nat.ltb_lt.
Qed.

Lemma holds_eq (o : option Klass.id) (k : Klass.id) :
  Klass.holds o k = true <-> o = Some k.
Proof.
  destruct o as [x|]; simpl; [|split; discriminate].
  rewrite Nat.eqb_eq. split; congruence.
Qed.

(** No two objects of the arena stand for the same class. *)
Lemma distinct_inj (objs : list ciKlass.t) :
  ciKlass.distinct objs = true ->
  forall p q o o' k,
    nth_error objs p = Some o -> nth_error objs q = Some o' ->
    ciKlass._metadata o = Some k -> ciKlass._metadata o' = Some k -> p = q.
Proof.
  induction objs as [|x objs IH]; intros Hd p q o o' k Hp Hq Ho Ho'.
  - destruct p; discriminate.
  - simpl in Hd. apply andb_true_iff in Hd. destruct Hd as [Hx Hd].
    assert (Hfresh : forall n o1, nth_error objs n = Some o1 ->
                                  ciKlass._metadata x = Some k ->
                                  ciKlass._metadata o1 = Some k -> False).
    { intros n o1 Hn Hxk Ho1. rewrite Hxk in Hx. apply negb_true_iff in Hx.
      assert (E : existsb (fun o' => Klass.holds (ciKlass._metadata o') k) objs = true).
      { apply existsb_exists. exists o1. split; [eapply nth_error_In; eauto|].
        now apply holds_eq. }
      congruence. }
    destruct p as [|p], q as [|q]; simpl in Hp, Hq.
    + reflexivity.
    + injection Hp as ->. exfalso. eauto.
    + injection Hq as ->. exfalso. eauto.
    + f_equal. eapply IH; eauto.
Qed.

Lemma distinct_klasses (w : ciKlass.world) (a b : ciKlass.ptr) (ka kb : Klass.id) :
  ciKlass.objects_ok w = true ->
  ciKlass.klass_of w a = Some ka -> ciKlass.klass_of w b = Some kb ->
  a <> b -> ka <> kb.
Proof.
  intros Hok Ha Hb Hne ->. apply Hne.
  destruct (objects_ok_inv _ Hok) as (Hd & _).
  destruct (klass_of_inv _ _ _ Ha) as (oa & Ea & Ma).
  destruct (klass_of_inv _ _ _ Hb) as (ob & Eb & Mb).
  eapply distinct_inj; eauto.
Qed.

Lemma heap_lookup (w : ciKlass.world) (p : ciKlass.ptr) (k : Klass.id) :
  ciKlass.objects_ok w = true -> ciKlass.klass_of w p = Some k ->
  exists K, nth_error (ciKlass.vm_heap w) k = Some K.
Proof.
  intros Hok Hk. destruct (objects_ok_inv _ Hok) as (_ & Hv).
  specialize (Hv p k Hk).
  destruct (nth_error (ciKlass.vm_heap w) k) as [K|] eqn:E; [now exists K|].
  apply nth_error_None in E. lia.
Qed.

(** The subtype query on two different loaded handles crosses into the VM
    once and returns what [Klass::is_subtype_of] says. *)
Lemma is_subtype_of_run (w : ciKlass.world) (a b : ciKlass.ptr)
      (ka kb : Klass.id) (A B : Klass.t) :
  ciKlass.klass_of w a = Some ka -> ciKlass.klass_of w b = Some kb ->
  nth_error (ciKlass.vm_heap w) ka = Some A ->
  nth_error (ciKlass.vm_heap w) kb = Some B ->
  a <> b ->
  ciKlass.is_subtype_of debug_build a b w
  = Returned (Klass.is_subtype_of A B kb, ciKlass.crossed 1 w).
Proof.
  intros Ha Hb EA EB Hne. unfold ciKlass.is_subtype_of.
  rewrite (bindM_run _ (assert_loaded_run _ _ _ _ Ha)).
  rewrite (bindM_run _ (assert_loaded_run _ _ _ _ Hb)).
  apply Nat.eqb_neq in Hne. rewrite Hne.
  erewrite VM_ENTRY_MARK_run; cycle 1.
  - rewrite (bindM_run _ (get_Klass_run (ciKlass.inside w) _ _ Ha)).
    rewrite (bindM_run _ (get_Klass_run (ciKlass.inside w) _ _ Hb)).
    rewrite (bindM_run _ (klass_at_run (ciKlass.inside w) _ _ EA)).
    rewrite (bindM_run _ (klass_at_run (ciKlass.inside w) _ _ EB)).
    reflexivity.
  - reflexivity.
Qed.

Lemma assert_both_loaded_run (w : ciKlass.world) (a b : ciKlass.ptr)
      (ka kb : Klass.id) (msg : string) :
  ciKlass.klass_of w a = Some ka -> ciKlass.klass_of w b = Some kb ->
  ciKlass.assert_ debug_build
    (ciKlass.bindM (ciKlass.is_loaded a)
       (fun l1 => if l1 then ciKlass.is_loaded b else ciKlass.ret false)) msg w
  = Returned (tt, w).
Proof.
  intros Ha Hb.
  destruct (klass_of_inv _ _ _ Ha) as (oa & Ea & Ma).
  destruct (klass_of_inv _ _ _ Hb) as (ob & Eb & Mb).
  unfold ciKlass.assert_. destruct debug_build; [|reflexivity].
  unfold ciKlass.bindM. rewrite (is_loaded_run _ _ _ Ea).
  unfold ciKlass.loaded. rewrite Ma. cbv beta iota.
  rewrite (is_loaded_run _ _ _ Eb). unfold ciKlass.loaded.
  rewrite Mb. reflexivity.
Qed.

(** The identity check of [is_subtype_of]: no crossing, the world is as
    it was. *)
Lemma is_subtype_of_same_run (w : ciKlass.world) (a : ciKlass.ptr) (ka : Klass.id) :
  ciKlass.klass_of w a = Some ka ->
  ciKlass.is_subtype_of debug_build a a w = Returned (true, w).
Proof.
  intros H. unfold ciKlass.is_subtype_of.
  rewrite !(bindM_run _ (assert_loaded_run _ _ _ _ H)).
  now rewrite Nat.eqb_refl.
Qed.


(** C8. For a loaded [A], [is_subtype_of(A, A)] is [true] and
    [least_common_ancestor(A, A)] is [A] itself, the same handle; both are
    answered by the identity check, without a crossing into the VM: the world,
    its count of crossings included, is as before. *)
Theorem reflexivity_short_circuit (w : ciKlass.world) (a : ciKlass.ptr) (ka : Klass.id) :
  ciKlass.klass_of w a = Some ka ->
  ciKlass.is_subtype_of debug_build a a w = Returned (true, w)
  /\ ciKlass.least_common_ancestor debug_build a a w = Returned (a, w).
Proof.
  intros H. split.
  - (* both asserts hold, then [this == that] *)
    unfold ciKlass.is_subtype_of.
    rewrite (bindM_run _ (assert_loaded_run w a ka _ H)).
    rewrite (bindM_run _ (assert_loaded_run w a ka _ H)).
    rewrite Nat.eqb_refl. reflexivity.
  - (* the assert holds, then [this == that] *)
    unfold ciKlass.least_common_ancestor.
    rewrite (bindM_run _ (assert_both_loaded_run w a a ka ka _ H H)).
    rewrite Nat.eqb_refl. reflexivity.
Qed.

(** C1. For loaded [A] and [B], [is_subtype_of(A, B)] returns what the
    brute-force membership test of [B] in the ancestor set of [A] returns,
    whatever the display capacity and the depth of the types. On a miss in
    the display slot the answer is [false] for a [B] that is eligible as
    primary super, and the result of scanning the secondary set of [A] for a
    [B] that is not. *)
Theorem is_subtype_of_agrees (limit : nat) (ds : list Klass.class_decl)
        (w : ciKlass.world) (a b : ciKlass.ptr) (ka kb : Klass.id) :
  Klass.load limit [] ds = Some (ciKlass.vm_heap w) ->
  ciKlass.objects_ok w = true ->
  ciKlass.klass_of w a = Some ka -> ciKlass.klass_of w b = Some kb ->
  ciKlass.is_subtype_of debug_build a b w
  = Returned (Klass.brute_force_subtype (ciKlass.vm_heap w) ka kb,
              if a =? b then w else ciKlass.crossed 1 w)
  /\ forall A B,
       nth_error (ciKlass.vm_heap w) ka = Some A ->
       nth_error (ciKlass.vm_heap w) kb = Some B ->
       a <> b ->
       Klass.holds (nth_error (Klass.primary_supers A) (Klass.super_check_offset B)) kb
       = false ->
       (Klass.can_be_primary_super B = true ->
        ciKlass.is_subtype_of debug_build a b w = Returned (false, ciKlass.crossed 1 w)
        /\ Klass.brute_force_subtype (ciKlass.vm_heap w) ka kb = false)
       /\ (Klass.can_be_primary_super B = false ->
           ciKlass.is_subtype_of debug_build a b w
           = Returned (existsb (Nat.eqb kb) (Klass.secondary_supers A),
                       ciKlass.crossed 1 w)).
Proof.
  intros Hload Hok Ha Hb.
  assert (Hl : Klass.loaded limit (ciKlass.vm_heap w))
    by (eapply load_loaded; [apply Klass.loaded_nil | exact Hload]).
  destruct (heap_lookup _ _ _ Hok Ha) as (A & EA).
  destruct (heap_lookup _ _ _ Hok Hb) as (B & EB).
  split.
  - destruct (Nat.eqb_spec a b) as [->|Hne].
    + rewrite (is_subtype_of_same_run w b ka Ha).
      rewrite Ha in Hb. injection Hb as ->.
      f_equal. f_equal. symmetry.
      apply (@brute_force_subtype_spec limit _ Hl kb kb A EA). now left.
    + rewrite (is_subtype_of_run w a b ka kb A B Ha Hb EA EB Hne).
      f_equal. f_equal.
      apply (@is_subtype_of_brute_force limit _ Hl ka kb A B EA EB).
      eapply distinct_klasses; eauto.
  - intros A' B' EA' EB' Hne Hmiss.
    rewrite EA in EA'. injection EA' as <-. rewrite EB in EB'. injection EB' as <-.
    rewrite (is_subtype_of_run w a b ka kb A B Ha Hb EA EB Hne).
    assert (Hk : ka <> kb) by (eapply distinct_klasses; eauto).
    pose proof (@is_subtype_of_brute_force limit _ Hl ka kb A B EA EB Hk) as Hbf.
    unfold Klass.is_subtype_of in *. rewrite Hmiss in *.
    split; intros Hc; rewrite Hc in *; [split|]; congruence.
Qed.

Lemma assert_unloaded_run (w : ciKlass.world) (p : ciKlass.ptr) (msg : string) :
  ciKlass.unloaded_at w p ->
  ciKlass.assert_ true (ciKlass.is_loaded p) msg w = AssertFailed msg.
Proof.
  intros (o & Eo & Em). unfold ciKlass.assert_.
  rewrite (bindM_run _ (is_loaded_run _ _ _ Eo)).
  unfold ciKlass.loaded. now rewrite Em.
Qed.

Lemma assert_run_cases (w : ciKlass.world) (p : ciKlass.ptr) (o : ciKlass.t) (msg : string) :
  nth_error (ciKlass.objects w) p = Some o ->
  ciKlass.assert_ true (ciKlass.is_loaded p) msg w = Returned (tt, w)
  \/ ciKlass.assert_ true (ciKlass.is_loaded p) msg w = AssertFailed msg.
Proof.
  intros Eo. unfold ciKlass.assert_.
  rewrite (bindM_run _ (is_loaded_run _ _ _ Eo)).
  destruct (ciKlass.loaded o); [now left | now right].
Qed.

Lemma bindM_failed {A B : Type} {m : ciKlass.M A} (f : A -> ciKlass.M B)
      {w : ciKlass.world} {msg : string} :
  m w = AssertFailed msg -> ciKlass.bindM m f w = AssertFailed msg.
Proof. intros H. unfold ciKlass.bindM. now rewrite H. Qed.

(** C5. In a debug build every loaded-only operation called on an unloaded
    handle, as receiver or as the argument that must be loaded, trips its
    assert (the precondition violation) and returns no result; a handle made
    by [get_unloaded_klass] is not loaded, and [is_subtype_of] on it fails
    that way. *)
Theorem unloaded_precondition_violated
        (w : ciKlass.world) (u x : ciKlass.ptr) (i : nat) (name : string) :
  ciKlass.unloaded_at w u ->
  (exists o, nth_error (ciKlass.objects w) x = Some o) ->
  ciKlass.is_subtype_of true u x w = AssertFailed "must be loaded: %s"
  /\ ciKlass.is_subtype_of true x u w = AssertFailed "must be loaded: %s"
  /\ ciKlass.is_subclass_of true u x w = AssertFailed "must be loaded: %s"
  /\ ciKlass.is_subclass_of true x u w = AssertFailed "must be loaded: %s"
  /\ ciKlass.super_of_depth true u i w = AssertFailed "must be loaded"
  /\ ciKlass.least_common_ancestor true u x w = AssertFailed "must be loaded"
  /\ ciKlass.least_common_ancestor true x u w = AssertFailed "must be loaded"
  /\ ciKlass.find_klass true u name w
     = AssertFailed "cannot find_klass through an unloaded klass"
  /\ ciKlass.modifier_flags true u w = AssertFailed "not loaded"
  /\ ciKlass.access_flags true u w = AssertFailed "not loaded"
  /\ (exists p w',
        ciKlass.get_unloaded_klass name w = Returned (p, w')
        /\ ciKlass.is_loaded p w' = Returned (false, w')
        /\ ciKlass.is_subtype_of true p x w' = AssertFailed "must be loaded: %s"
        /\ ciKlass.is_subtype_of true x p w' = AssertFailed "must be loaded: %s").
Proof.
  intros Hu (ox & Ex).
  assert (Two : forall (w0 : ciKlass.world) (p q : ciKlass.ptr) (oq : ciKlass.t)
                       (B : Type) (k : ciKlass.M B) (msg : string),
             ciKlass.unloaded_at w0 p -> nth_error (ciKlass.objects w0) q = Some oq ->
             ciKlass.bindM (ciKlass.assert_ true (ciKlass.is_loaded q) msg)
               (fun _ => ciKlass.bindM (ciKlass.assert_ true (ciKlass.is_loaded p) msg)
                           (fun _ => k)) w0
             = AssertFailed msg).
  { intros w0 p q oq B k msg Hp Eq.
    destruct (assert_run_cases w0 q oq msg Eq) as [E|E].
    - rewrite (bindM_run _ E). apply bindM_failed. now apply assert_unloaded_run.
    - now apply bindM_failed. }
  assert (Lca : forall (p q : ciKlass.ptr) (op oq : ciKlass.t),
             nth_error (ciKlass.objects w) p = Some op ->
             nth_error (ciKlass.objects w) q = Some oq ->
             ciKlass.loaded op && ciKlass.loaded oq = false ->
             ciKlass.least_common_ancestor true p q w = AssertFailed "must be loaded").
  { intros p q op oq Ep Eq Hl. unfold ciKlass.least_common_ancestor.
    apply bindM_failed. unfold ciKlass.assert_, ciKlass.bindM.
    rewrite (is_loaded_run _ _ _ Ep). cbv beta iota.
    destruct (ciKlass.loaded op); [|reflexivity].
    rewrite (is_loaded_run _ _ _ Eq). simpl in Hl. now rewrite Hl. }
  pose proof Hu as (ou & Eu & Mu).
  assert (Lu : ciKlass.loaded ou = false) by (unfold ciKlass.loaded; now rewrite Mu).
  repeat split.
  - apply bindM_failed. now apply assert_unloaded_run.
  - unfold ciKlass.is_subtype_of. now apply (Two w u x ox).
  - apply bindM_failed. now apply assert_unloaded_run.
  - unfold ciKlass.is_subclass_of. now apply (Two w u x ox).
  - apply bindM_failed. now apply assert_unloaded_run.
  - apply (Lca u x ou ox Eu Ex). now rewrite Lu.
  - apply (Lca x u ox ou Ex Eu). rewrite Lu. apply andb_false_r.
  - apply bindM_failed. now apply assert_unloaded_run.
  - apply bindM_failed. now apply assert_unloaded_run.
  - apply bindM_failed. now apply assert_unloaded_run.
  - exists (List.length (ciKlass.objects w)).
    eexists. split; [reflexivity|].
    set (w' := ciKlass.mk_world _ _ _ _).
    assert (Ep : nth_error (ciKlass.objects w') (List.length (ciKlass.objects w))
                 = Some (ciKlass.new_unloaded name ciKlass.T_OBJECT)).
    { unfold w'. simpl. rewrite nth_error_app2, Nat.sub_diag by lia. reflexivity. }
    assert (Ex' : nth_error (ciKlass.objects w') x = Some ox).
    { unfold w'. simpl. rewrite nth_error_app1; [exact Ex|].
      apply nth_error_Some. congruence. }
    assert (Hp : ciKlass.unloaded_at w' (List.length (ciKlass.objects w))).
    { eexists. split; [exact Ep | reflexivity]. }
    split; [|split].
    + rewrite (is_loaded_run _ _ _ Ep). reflexivity.
    + apply bindM_failed. now apply assert_unloaded_run.
    + unfold ciKlass.is_subtype_of. now apply (Two w' _ x ox).
Qed.

Lemma unloaded_precondition_violated_witness :
  let w := ciKlass.mk_world
             [] [ciKlass.new_unloaded "com/example/Foo" ciKlass.T_OBJECT] 0 0 in
  ciKlass.is_subtype_of true 0 0 w = AssertFailed "must be loaded: %s"
  /\ ciKlass.find_klass true 0 "java/lang/Object" w
     = AssertFailed "cannot find_klass through an unloaded klass".
Proof.
  intros w.
  assert (Hu : ciKlass.unloaded_at w 0) by (eexists; split; reflexivity).
  assert (Hx : exists o, nth_error (ciKlass.objects w) 0 = Some o)
    by (eexists; reflexivity).
  pose proof (unloaded_precondition_violated w 0 0 0 "java/lang/Object" Hu Hx) as H.
  split; [apply H | apply H].
Defined.

(** ** Heap-entry scopes *)


















(** ** The object factory *)

Lemma find_object_some (objs : list ciKlass.t) (k : Klass.id) :
  forall n p, ciKlass.find_object objs k n = Some p ->
              exists o, n <= p /\ nth_error objs (p - n) = Some o
                        /\ ciKlass._metadata o = Some k.
Proof.
  induction objs as [|x objs IH]; intros n p H; simpl in H; [discriminate|].
  destruct (Klass.holds (ciKlass._metadata x) k) eqn:Hx.
  - injection H as <-. exists x. rewrite Nat.sub_diag.
    split; [lia|]. split; [reflexivity | now apply holds_eq].
  - destruct (IH (S n) p H) as (o & Hle & Eo & Mo).
    exists o. split; [lia|]. split; [|exact Mo].
    replace (p - n) with (S (p - S n)) by lia. exact Eo.
Qed.

Lemma find_object_none (objs : list ciKlass.t) (k : Klass.id) :
  forall n, ciKlass.find_object objs k n = None ->
            existsb (fun o => Klass.holds (ciKlass._metadata o) k) objs = false.
Proof.
  induction objs as [|x objs IH]; intros n H; simpl in *; [reflexivity|].
  destruct (Klass.holds (ciKlass._metadata x) k) eqn:Hx; [discriminate|].
  simpl. now apply (IH (S n)).
Qed.

Lemma distinct_snoc (objs : list ciKlass.t) (o : ciKlass.t) :
  ciKlass.distinct objs = true ->
  (forall k, ciKlass._metadata o = Some k ->
             existsb (fun o' => Klass.holds (ciKlass._metadata o') k) objs = false) ->
  ciKlass.distinct (objs ++ [o]) = true.
Proof.
  induction objs as [|x objs IH]; intros Hd Hf; simpl.
  - destruct (ciKlass._metadata o); reflexivity.
  - simpl in Hd. apply andb_true_iff in Hd. destruct Hd as [Hx Hd].
    apply andb_true_iff. split.
    + destruct (ciKlass._metadata x) as [kx|] eqn:Mx; [|reflexivity].
      rewrite existsb_app. apply negb_true_iff in Hx. rewrite Hx. simpl.
      rewrite orb_false_r. apply negb_true_iff.
      destruct (Klass.holds (ciKlass._metadata o) kx) eqn:Ho; [|reflexivity].
      apply holds_eq in Ho. specialize (Hf kx Ho). simpl in Hf.
      rewrite Mx in Hf. simpl in Hf. rewrite Nat.eqb_refl in Hf. discriminate.
    + apply IH; [exact Hd|]. intros k Hk. specialize (Hf k Hk). simpl in Hf.
      apply orb_false_iff in Hf. tauto.
Qed.


(** [get_klass] returns a loaded handle of the class, the one the arena
    has or a new one; the arena only grows and stays well formed; the heap and
    the scopes held are as before, and inside a scope nothing is crossed. *)
Lemma get_klass_run (w : ciKlass.world) (k : Klass.id) (K : Klass.t) :
  ciKlass.objects_ok w = true ->
  nth_error (ciKlass.vm_heap w) k = Some K ->
  exists p w',
    ciKlass.get_klass k w = Returned (p, w')
    /\ ciKlass.klass_of w' p = Some k
    /\ ciKlass.vm_heap w' = ciKlass.vm_heap w
    /\ ciKlass.vm_entries w' = ciKlass.vm_entries w
    /\ ciKlass.objects_ok w' = true
    /\ (exists more, ciKlass.objects w' = ciKlass.objects w ++ more)
    /\ (0 < ciKlass.vm_entries w -> ciKlass.crossings w' = ciKlass.crossings w).
Proof.
  intros Hok EK. unfold ciKlass.get_klass, ciKlass.bindM, ciKlass.get_world.
  destruct (ciKlass.find_object (ciKlass.objects w) k 0) as [p|] eqn:Ef.
  - destruct (find_object_some _ _ _ _ Ef) as (o & _ & Eo & Mo).
    rewrite Nat.sub_0_r in Eo.
    exists p, w. split; [reflexivity|]. split.
    { unfold ciKlass.klass_of. now rewrite Eo. }
    repeat split; trivial. exists []. now rewrite app_nil_r.
  - pose proof (find_object_none _ _ _ Ef) as Hnone.
    set (o := ciKlass.mk (Some k) ciKlass.T_OBJECT (Klass.name K) (Klass.layout_helper K)).
    assert (Hok' : forall n c,
               ciKlass.objects_ok (ciKlass.mk_world (ciKlass.vm_heap w)
                                     (ciKlass.objects w ++ [o]) n c) = true).
    { intros n c. unfold ciKlass.objects_ok in *. simpl.
      apply andb_true_iff in Hok. destruct Hok as [Hv Hd].
      apply andb_true_iff. split.
      - rewrite forallb_app, Hv. simpl. rewrite andb_true_r.
        apply Nat.ltb_lt. apply nth_error_Some. congruence.
      - apply distinct_snoc; [exact Hd|]. intros k' Hk'. simpl in Hk'.
        injection Hk' as <-. exact Hnone. }
    assert (Hp : forall n c,
               ciKlass.klass_of (ciKlass.mk_world (ciKlass.vm_heap w)
                                   (ciKlass.objects w ++ [o]) n c)
                                (List.length (ciKlass.objects w)) = Some k).
    { intros n c. unfold ciKlass.klass_of. simpl.
      rewrite nth_error_app2, Nat.sub_diag by lia. reflexivity. }
    unfold ciKlass.GUARDED_VM_ENTRY, ciKlass.bindM, ciKlass.IS_IN_VM.
    destruct (Nat.ltb_spec 0 (ciKlass.vm_entries w)) as [Hin|Hout].
    + unfold ciKlass.new_ciKlass, ciKlass.bindM, ciKlass.klass_at. rewrite EK.
      unfold ciKlass.ret, ciKlass.allocate. simpl. fold o.
      eexists. eexists. split; [reflexivity|].
      repeat split; trivial. now exists [o].
    + unfold ciKlass.VM_ENTRY_MARK, ciKlass.bindM, ciKlass.enter_vm,
        ciKlass.new_ciKlass, ciKlass.bindM, ciKlass.klass_at. simpl. rewrite EK.
      unfold ciKlass.ret, ciKlass.allocate, ciKlass.leave_vm. simpl. fold o.
      eexists. eexists. split; [reflexivity|].
      repeat split; trivial; try (now exists [o]). lia.
Qed.

Lemma VM_ENTRY_MARK_bind {A B : Type} (m : ciKlass.M A) (f : A -> ciKlass.M B)
      (w : ciKlass.world) (x : A) :
  m (ciKlass.inside w) = Returned (x, ciKlass.inside w) ->
  ciKlass.VM_ENTRY_MARK (ciKlass.bindM m f) w = ciKlass.VM_ENTRY_MARK (f x) w.
Proof.
  intros H. unfold ciKlass.VM_ENTRY_MARK, ciKlass.bindM, ciKlass.enter_vm.
  fold (ciKlass.inside w). rewrite H. reflexivity.
Qed.

Lemma VM_ENTRY_MARK_ret {A : Type} (x : A) (w : ciKlass.world) :
  ciKlass.VM_ENTRY_MARK (ciKlass.ret x) w = Returned (x, ciKlass.crossed 1 w).
Proof. reflexivity. Qed.



(** ** Stability of what a handle answers *)

Lemma load_extends (limit : nat) (ds : list Klass.class_decl) :
  forall h h', Klass.load limit h ds = Some h' -> exists more, h' = h ++ more.
Proof.
  induction ds as [|d ds IH]; intros h h' E; simpl in E.
  - injection E as <-. exists []. now rewrite app_nil_r.
  - unfold Klass.define_class in E.
    destruct (Klass.super_ok h d && Klass.interfaces_ok h d); [|discriminate].
    destruct (IH _ _ E) as (more & ->).
    exists (Klass.create limit h d :: more). now rewrite <- app_assoc.
Qed.




(** ** The least common ancestor *)





(** ** The arena invariant

    [objects_ok] holds of a fresh [ciEnv] and is kept by everything that
    changes the world: asking for a handle, making a placeholder, defining
    more classes. *)

Lemma objects_ok_fresh (h : Klass.heap) (n c : nat) :
  ciKlass.objects_ok (ciKlass.mk_world h [] n c) = true.
Proof. reflexivity. Qed.

Lemma objects_ok_get_klass (w w' : ciKlass.world) (k : Klass.id) (p : ciKlass.ptr) :
  ciKlass.objects_ok w = true ->
  ciKlass.get_klass k w = Returned (p, w') ->
  ciKlass.objects_ok w' = true.
Proof.
  intros Hok E.
  destruct (nth_error (ciKlass.vm_heap w) k) as [K|] eqn:EK.
  - destruct (get_klass_run w k K Hok EK) as (p' & w1 & E1 & _ & _ & _ & Hok1 & _).
    rewrite E in E1. now injection E1 as _ <-.
  - unfold ciKlass.get_klass, ciKlass.bindM, ciKlass.get_world in E.
    destruct (ciKlass.find_object (ciKlass.objects w) k 0) as [q|].
    + now injection E as _ <-.
    + unfold ciKlass.GUARDED_VM_ENTRY, ciKlass.bindM, ciKlass.IS_IN_VM in E.
      destruct (0 <? ciKlass.vm_entries w);
        unfold ciKlass.VM_ENTRY_MARK, ciKlass.new_ciKlass, ciKlass.bindM,
          ciKlass.enter_vm, ciKlass.klass_at in E;
        simpl in E; rewrite EK in E; discriminate.
Qed.

Lemma objects_ok_get_unloaded_klass (w : ciKlass.world) (name : string) :
  ciKlass.objects_ok w = true ->
  exists p w',
    ciKlass.get_unloaded_klass name w = Returned (p, w')
    /\ ciKlass.unloaded_at w' p
    /\ ciKlass.objects_ok w' = true.
Proof.
  intros Hok. eexists. eexists. split; [reflexivity|]. split.
  - eexists. simpl. rewrite nth_error_app2, Nat.sub_diag by lia.
    split; reflexivity.
  - unfold ciKlass.objects_ok in *. simpl.
    apply andb_true_iff in Hok. destruct Hok as [Hv Hd].
    apply andb_true_iff. split.
    + rewrite forallb_app, Hv. reflexivity.
    + apply distinct_snoc; [exact Hd|]. intros k Hk. discriminate.
Qed.

Lemma objects_ok_classes_defined (limit : nat) (ds : list Klass.class_decl)
      (w : ciKlass.world) (h' : Klass.heap) (n c : nat) :
  ciKlass.objects_ok w = true ->
  Klass.load limit (ciKlass.vm_heap w) ds = Some h' ->
  ciKlass.objects_ok (ciKlass.mk_world h' (ciKlass.objects w) n c) = true.
Proof.
  intros Hok Hds. destruct (load_extends _ _ _ _ Hds) as (more & ->).
  unfold ciKlass.objects_ok in *. simpl.
  apply andb_true_iff in Hok. destruct Hok as [Hv Hd].
  apply andb_true_iff. split; [|exact Hd].
  rewrite forallb_forall in *. intros o Ho. specialize (Hv o Ho).
  destruct (ciKlass._metadata o) as [k|]; [|reflexivity].
  apply Nat.ltb_lt in Hv. apply Nat.ltb_lt. rewrite length_app. lia.
Qed.

End Queries.

(* ================================================================== *)
(** * The queries on the scenario *)

Lemma scenario_loaded :
  Klass.load Scenario.limit [] Scenario.decls = Some (ciKlass.vm_heap Scenario.world).
Proof. vm_compute. reflexivity. Qed.

Lemma scenario_objects_ok : ciKlass.objects_ok Scenario.world = true.
Proof. vm_compute. reflexivity. Qed.

(** [G], deeper than the display, against [F], and [B], inside the display,
    against the interface [J]. *)
Lemma is_subtype_of_agrees_witness :
  ciKlass.is_subtype_of true 9 8 Scenario.world
  = Returned (Klass.brute_force_subtype (ciKlass.vm_heap Scenario.world) 9 8,
              ciKlass.crossed 1 Scenario.world)
  /\ ciKlass.is_subtype_of true 2 5 Scenario.world
     = Returned (Klass.brute_force_subtype (ciKlass.vm_heap Scenario.world) 2 5,
                 ciKlass.crossed 1 Scenario.world).
Proof.
  split.
  - refine (proj1 (is_subtype_of_agrees true Scenario.limit Scenario.decls
                     Scenario.world 9 8 9 8 _ _ _ _)); vm_compute; reflexivity.
  - refine (proj1 (is_subtype_of_agrees true Scenario.limit Scenario.decls
                     Scenario.world 2 5 2 5 _ _ _ _)); vm_compute; reflexivity.
Defined.





Lemma reflexivity_short_circuit_witness :
  ciKlass.is_subtype_of true 9 9 Scenario.world = Returned (true, Scenario.world)
  /\ ciKlass.least_common_ancestor true 9 9 Scenario.world
     = Returned (9, Scenario.world).
Proof.
  refine (reflexivity_short_circuit true Scenario.world 9 9 _).
  vm_compute. reflexivity.
Defined.


(** The scenario of the specification, run. *)
Example scenario_answers :
  ciKlass.value (ciKlass.is_subtype_of true 3 0 Scenario.world) = Some true
  /\ ciKlass.value (ciKlass.is_subtype_of true 0 3 Scenario.world) = Some false
  /\ ciKlass.value (ciKlass.least_common_ancestor true 2 3 Scenario.world) = Some 2
  /\ ciKlass.value (ciKlass.least_common_ancestor true 6 7 Scenario.world) = Some 1
  /\ ciKlass.value (ciKlass.super_of_depth true 3 0 Scenario.world) = Some (Some 0)
  /\ ciKlass.value (ciKlass.super_of_depth true 3 3 Scenario.world) = Some None
  /\ ciKlass.value (ciKlass.is_loaded 10 Scenario.world) = Some false
  /\ ciKlass.is_subtype_of true 10 0 Scenario.world = AssertFailed "must be loaded: %s".
Proof. vm_compute. repeat split. Qed.

(* ================================================================== *)
(** * Further properties of the locks *)

Local Open Scope Z_scope.

Lemma consistent_init : ZReentrantLock.consistent ZReentrantLock.init.
Proof. repeat split; simpl; try lia. Qed.

(** [lock] returns exactly when nobody or the caller owns the lock. *)
Lemma lock_returns_iff (cur : Thread) (l : ZReentrantLock.t) :
  ZReentrantLock.consistent l ->
  (exists l', ZReentrantLock.lock cur l = Some l')
  <-> ZReentrantLock._owner l = None \/ ZReentrantLock._owner l = Some cur.
Proof.
  intros (Hm & _ & _). unfold ZReentrantLock.lock.
  destruct (same_thread (ZReentrantLock._owner l) (Some cur)) eqn:E; simpl.
  - apply same_thread_eq in E. split; [now right | intros _; eexists; reflexivity].
  - rewrite Hm. destruct (ZReentrantLock._owner l) as [t|] eqn:Ho; simpl.
    + split; [intros (l' & H); discriminate|].
      intros [H|H]; [discriminate|]. injection H as ->.
      simpl in E. rewrite Nat.eqb_refl in E. discriminate.
    + split; [now left | intros _; eexists; reflexivity].
Qed.

Lemma lock_consistent (cur : Thread) (l l' : ZReentrantLock.t) :
  ZReentrantLock.consistent l ->
  ZReentrantLock._count l + 1 < 2 ^ 64 ->
  ZReentrantLock.lock cur l = Some l' ->
  ZReentrantLock.consistent l'
  /\ ZReentrantLock._owner l' = Some cur
  /\ ZReentrantLock._count l' = ZReentrantLock._count l + 1.
Proof.
  intros (Hm & Hz & Hr) Hb. unfold ZReentrantLock.lock.
  destruct (same_thread (ZReentrantLock._owner l) (Some cur)) eqn:E; simpl.
  - apply same_thread_eq in E. intros H. injection H as <-.
    unfold ZReentrantLock.consistent. simpl. rewrite wrap64_small by lia.
    rewrite E in *. repeat split; trivial; try lia; try discriminate.
  - rewrite Hm. destruct (ZReentrantLock._owner l) as [t|] eqn:Ho; simpl;
      [discriminate|].
    intros H. injection H as <-.
    unfold ZReentrantLock.consistent. simpl. rewrite wrap64_small by lia.
    repeat split; trivial; try lia; try discriminate.
Qed.

Lemma unlock_consistent (dbg : bool) (cur : Thread) (l l' : ZReentrantLock.t) :
  ZReentrantLock.consistent l ->
  dbg = true \/ ZReentrantLock.is_owned cur l = true ->
  ZReentrantLock.unlock dbg cur l = Returned l' ->
  ZReentrantLock.consistent l'
  /\ ZReentrantLock._owner l = Some cur
  /\ ZReentrantLock._count l' = ZReentrantLock._count l - 1.
Proof.
  intros (Hm & Hz & Hr) Hd. unfold ZReentrantLock.unlock.
  assert (Ho : ZReentrantLock.is_owned cur l = true ->
               ZReentrantLock._owner l = Some cur /\ 0 < ZReentrantLock._count l).
  { intros E. apply same_thread_eq in E. split; [exact E|].
    destruct (Z.eq_dec (ZReentrantLock._count l) 0) as [C|C]; [|lia].
    apply Hz in C. congruence. }
  assert (Own : ZReentrantLock.is_owned cur l = true
                \/ (dbg = true /\ ZReentrantLock.is_owned cur l = false)).
  { destruct (ZReentrantLock.is_owned cur l); [now left|].
    destruct Hd as [->|Hd]; [now right | discriminate]. }
  destruct Own as [E|(-> & E)].
  2:{ rewrite E. simpl. discriminate. }
  destruct (Ho E) as (Hown & Hpos). rewrite E.
  assert (P : (0 <? ZReentrantLock._count l) = true) by (apply Z.ltb_lt; lia).
  rewrite P. rewrite wrap64_small by lia.
  assert (R : bind (assert dbg true "Invalid owner")
                (fun _ => bind (assert dbg true "Invalid count")
                            (fun _ => if ZReentrantLock._count l - 1 =? 0
                                      then Returned (ZReentrantLock.mk (ZLock.unlock (ZReentrantLock._lock l)) None (ZReentrantLock._count l - 1))
                                      else Returned (ZReentrantLock.mk (ZReentrantLock._lock l) (ZReentrantLock._owner l) (ZReentrantLock._count l - 1))))
              = if ZReentrantLock._count l - 1 =? 0
                then Returned (ZReentrantLock.mk (ZLock.unlock (ZReentrantLock._lock l)) None (ZReentrantLock._count l - 1))
                else Returned (ZReentrantLock.mk (ZReentrantLock._lock l) (ZReentrantLock._owner l) (ZReentrantLock._count l - 1)))
    by (destruct dbg; reflexivity).
  rewrite R. clear R.
  destruct (Z.eqb_spec (ZReentrantLock._count l - 1) 0) as [C|C]; intros H;
    injection H as <-; unfold ZReentrantLock.consistent; simpl.
  - repeat split; trivial; lia.
  - rewrite Hown in *. repeat split; trivial; try lia; try discriminate.
Qed.

(** X1. The state of a [ZReentrantLock] stays consistent: a new lock is
    consistent; [lock], when it returns and the count has room, leaves a
    consistent lock owned by the caller with the count one higher; [unlock],
    checked or called by the owner, leaves a consistent lock with the count
    one lower, and the caller owns it afterwards exactly when the count has
    not reached zero. *)
Theorem reentrant_lock_consistent (dbg : bool) (cur : Thread) :
  ZReentrantLock.consistent ZReentrantLock.init
  /\ (forall l l',
        ZReentrantLock.consistent l ->
        ZReentrantLock._count l + 1 < 2 ^ 64 ->
        ZReentrantLock.lock cur l = Some l' ->
        ZReentrantLock.consistent l'
        /\ ZReentrantLock.is_owned cur l' = true
        /\ ZReentrantLock._count l' = ZReentrantLock._count l + 1)
  /\ (forall l l',
        ZReentrantLock.consistent l ->
        dbg = true \/ ZReentrantLock.is_owned cur l = true ->
        ZReentrantLock.unlock dbg cur l = Returned l' ->
        ZReentrantLock.consistent l'
        /\ ZReentrantLock.is_owned cur l = true
        /\ ZReentrantLock._count l' = ZReentrantLock._count l - 1
        /\ (ZReentrantLock.is_owned cur l' = false <-> ZReentrantLock._count l' = 0)).
Proof.
  split; [exact consistent_init|]. split.
  - intros l l' Hc Hb E.
    destruct (lock_consistent cur l l' Hc Hb E) as (Hc' & Ho & Hn).
    split; [exact Hc'|]. split; [|exact Hn].
    unfold ZReentrantLock.is_owned. rewrite Ho. apply same_thread_refl.
  - intros l l' Hc Hd E.
    destruct (unlock_consistent dbg cur l l' Hc Hd E) as (Hc' & Ho & Hn).
    split; [exact Hc'|]. split.
    { unfold ZReentrantLock.is_owned. rewrite Ho. apply same_thread_refl. }
    split; [exact Hn|].
    (* the owner after [unlock] is the caller or nobody *)
    assert (Hown : ZReentrantLock._owner l' = None
                   \/ ZReentrantLock._owner l' = Some cur).
    { revert E. unfold ZReentrantLock.unlock.
      destruct (assert dbg (ZReentrantLock.is_owned cur l) "Invalid owner");
        simpl; try discriminate.
      destruct (assert dbg (0 <? ZReentrantLock._count l) "Invalid count");
        simpl; try discriminate.
      destruct (wrap64 (ZReentrantLock._count l - 1) =? 0);
        intros E; injection E as <-; simpl; [now left | now right]. }
    destruct Hc' as (_ & Hz & _). unfold ZReentrantLock.is_owned.
    destruct Hown as [N|S]; rewrite ?N, ?S in *.
    + simpl. split; [intros _; now apply Hz | reflexivity].
    + rewrite same_thread_refl. split; [discriminate|].
      intros Z0. apply Hz in Z0. discriminate.
Qed.

Lemma reentrant_lock_consistent_witness :
  ZReentrantLock.consistent
    (ZReentrantLock.mk (Some 7%nat) (Some 7%nat) 1)
  /\ ZReentrantLock.consistent (ZReentrantLock.mk None None 0).
Proof.
  destruct (reentrant_lock_consistent true 7%nat) as (Hi & Hl & Hu).
  assert (L : ZReentrantLock.lock 7%nat ZReentrantLock.init
              = Some (ZReentrantLock.mk (Some 7%nat) (Some 7%nat) 1))
    by reflexivity.
  destruct (Hl _ _ Hi ltac:(simpl; lia) L) as (H1 & _).
  split; [exact H1|].
  assert (U : ZReentrantLock.unlock true 7%nat
                (ZReentrantLock.mk (Some 7%nat) (Some 7%nat) 1)
              = Returned (ZReentrantLock.mk None None 0)) by reflexivity.
  exact (proj1 (Hu _ _ H1 (or_introl eq_refl) U)).
Defined.

(** X2. Mutual exclusion: on a consistent lock [lock] returns exactly when
    nobody or the caller owns it; once it has returned the caller is the
    owner, no other thread is, and [lock] by another thread blocks, as
    [try_lock] on the mutex fails. *)
Theorem reentrant_lock_excludes (cur other : Thread) (l : ZReentrantLock.t) :
  ZReentrantLock.consistent l ->
  other <> cur ->
  ((exists l', ZReentrantLock.lock cur l = Some l')
   <-> ZReentrantLock._owner l = None \/ ZReentrantLock._owner l = Some cur)
  /\ forall l', ZReentrantLock.lock cur l = Some l' ->
       ZReentrantLock.is_owned cur l' = true
       /\ ZReentrantLock.is_owned other l' = false
       /\ ZReentrantLock.lock other l' = None
       /\ ZLock.try_lock other (ZReentrantLock._lock l')
          = (false, ZReentrantLock._lock l').
Proof.
  intros Hc Hne. split; [now apply lock_returns_iff|].
  intros l' E.
  (* whichever branch [lock] took, the caller is the owner and holds the mutex *)
  assert (H : ZReentrantLock._owner l' = Some cur
              /\ ZReentrantLock._lock l' = Some cur).
  { destruct Hc as (Hm & _ & _). revert E. unfold ZReentrantLock.lock.
    destruct (same_thread (ZReentrantLock._owner l) (Some cur)) eqn:S; simpl.
    - apply same_thread_eq in S. intros E. injection E as <-. simpl.
      split; congruence.
    - destruct (ZLock.lock cur (ZReentrantLock._lock l)) as [m|] eqn:M;
        [|discriminate].
      intros E. injection E as <-. simpl. split; [reflexivity|].
      unfold ZLock.lock in M. destruct (ZReentrantLock._lock l); congruence. }
  destruct H as (Ho & Hm).
  assert (Hoth : same_thread (Some cur) (Some other) = false).
  { simpl. apply Nat.eqb_neq. congruence. }
  unfold ZReentrantLock.is_owned, ZReentrantLock.lock.
  rewrite Ho, Hm, same_thread_refl, Hoth. simpl. repeat split.
Qed.

Lemma reentrant_lock_excludes_witness :
  ZReentrantLock.lock 8%nat (ZReentrantLock.mk (Some 7%nat) (Some 7%nat) 2) = None.
Proof.
  assert (C : ZReentrantLock.consistent (ZReentrantLock.mk (Some 7%nat) (Some 7%nat) 1))
    by (repeat split; simpl; try lia; discriminate).
  assert (N : 8%nat <> 7%nat) by discriminate.
  destruct (reentrant_lock_excludes 7%nat 8%nat _ C N) as (_ & H).
  exact (proj1 (proj2 (proj2 (H _ eq_refl)))).
Defined.

(** X3. The hold count is a 64-bit counter: the [lock] that follows
    [2^64 - 1] nested ones wraps it to zero while the caller still owns the
    lock and the mutex. The next [unlock] trips "Invalid count" in a debug
    build; in a product build it wraps the count back and releases
    nothing. *)
Theorem reentrant_lock_count_wraps (cur : Thread) (l : ZReentrantLock.t) :
  ZReentrantLock.held_by cur (2 ^ 64 - 1) l ->
  exists l0,
    ZReentrantLock.lock cur l = Some l0
    /\ ZReentrantLock.held_by cur 0 l0
    /\ ~ ZReentrantLock.consistent l0
    /\ ZReentrantLock.unlock true cur l0 = AssertFailed "Invalid count"
    /\ exists l1,
         ZReentrantLock.unlock false cur l0 = Returned l1
         /\ ZReentrantLock.held_by cur (2 ^ 64 - 1) l1.
Proof.
  intros (Hm & Ho & Hn).
  rewrite (@lock_reentry cur l Ho). eexists. split; [reflexivity|].
  assert (W : wrap64 (ZReentrantLock._count l + 1) = 0)
    by (rewrite Hn; reflexivity).
  rewrite W. split; [|split; [|split]].
  - repeat split; assumption.
  - intros (_ & Hz & _). simpl in Hz. rewrite Ho in Hz.
    destruct Hz as (_ & Hz). specialize (Hz eq_refl). discriminate.
  - unfold ZReentrantLock.unlock, ZReentrantLock.is_owned. simpl.
    rewrite Ho, same_thread_refl. reflexivity.
  - unfold ZReentrantLock.unlock. simpl.
    eexists. split; [reflexivity|].
    repeat split; assumption.
Qed.

Lemma reentrant_lock_count_wraps_witness :
  exists l0,
    ZReentrantLock.lock 7%nat
      (ZReentrantLock.mk (Some 7%nat) (Some 7%nat) (2 ^ 64 - 1)) = Some l0
    /\ ZReentrantLock._count l0 = 0.
Proof.
  destruct (reentrant_lock_count_wraps 7%nat
              (ZReentrantLock.mk (Some 7%nat) (Some 7%nat) (2 ^ 64 - 1)))
    as (l0 & E & (_ & _ & C) & _).
  - repeat split.
  - exists l0. split; [exact E | exact C].
Defined.

(** X4. [unlock] by a thread that does not own the lock: a debug build
    stops at "Invalid owner"; a product build decrements the count of the
    owner and, when that was its last hold, clears the owner and releases the
    mutex the other thread holds. On a lock nobody holds a product build
    wraps the count to [2^64 - 1] and leaves the lock without owner. *)
Theorem reentrant_unlock_unchecked (cur owner : Thread) (c : Z) (l : ZReentrantLock.t) :
  cur <> owner ->
  0 < c < 2 ^ 64 ->
  ZReentrantLock.held_by owner c l ->
  ZReentrantLock.unlock true cur l = AssertFailed "Invalid owner"
  /\ (exists l',
        ZReentrantLock.unlock false cur l = Returned l'
        /\ (c = 1 -> ZReentrantLock.unheld l')
        /\ (1 < c -> ZReentrantLock.held_by owner (c - 1) l'))
  /\ (exists l',
        ZReentrantLock.unlock false cur ZReentrantLock.init = Returned l'
        /\ ZReentrantLock._owner l' = None
        /\ ZReentrantLock._lock l' = None
        /\ ZReentrantLock._count l' = 2 ^ 64 - 1).
Proof.
  intros Hne Hc (Hm & Ho & Hn). split; [|split].
  - unfold ZReentrantLock.unlock, ZReentrantLock.is_owned. rewrite Ho.
    assert (E : same_thread (Some owner) (Some cur) = false)
      by (simpl; apply Nat.eqb_neq; congruence).
    rewrite E. reflexivity.
  - unfold ZReentrantLock.unlock. simpl. rewrite Hn.
    rewrite wrap64_small by lia.
    destruct (Z.eqb_spec (c - 1) 0) as [Z0|Z0]; eexists;
      (split; [reflexivity|]); split; intros H; try lia.
    + repeat split. simpl. lia.
    + repeat split; simpl; assumption.
  - eexists. split; [reflexivity|]. repeat split.
Qed.

Lemma reentrant_unlock_unchecked_witness :
  exists l',
    ZReentrantLock.unlock false 8%nat (ZReentrantLock.mk (Some 7%nat) (Some 7%nat) 1)
    = Returned l'
    /\ ZReentrantLock.unheld l'.
Proof.
  destruct (reentrant_unlock_unchecked 8%nat 7%nat 1
              (ZReentrantLock.mk (Some 7%nat) (Some 7%nat) 1))
    as (_ & (l' & E & H1 & _) & _).
  - discriminate.
  - lia.
  - repeat split.
  - exists l'. split; [exact E | exact (H1 eq_refl)].
Defined.

Lemma held_by_eq (cur : Thread) (c : Z) (l l' : ZReentrantLock.t) :
  ZReentrantLock.held_by cur c l -> ZReentrantLock.held_by cur c l' -> l = l'.
Proof.
  intros (A1 & A2 & A3) (B1 & B2 & B3).
  destruct l, l'; simpl in *. congruence.
Qed.

Lemma unheld_eq (l l' : ZReentrantLock.t) :
  ZReentrantLock.unheld l -> ZReentrantLock.unheld l' -> l = l'.
Proof.
  intros (A1 & A2 & A3) (B1 & B2 & B3).
  destruct l, l'; simpl in *. congruence.
Qed.

(** X5. A [ZLocker] inside the block of another [ZLocker] on the same
    lock: with a [ZReentrantLock] the inner block runs with the count two
    above what it was, and when both blocks are left the lock is as before;
    with a [ZLock] or a [ZConditionLock] the inner constructor never
    returns. *)
Theorem ZLocker_nests (dbg : bool) (cur : Thread) (A : Type)
        (body : ZReentrantLock.t -> outcome (A * ZReentrantLock.t))
        (c : Z) (l : ZReentrantLock.t) :
  c + 2 < 2 ^ 64 ->
  (c = 0 /\ ZReentrantLock.unheld l) \/ (0 < c /\ ZReentrantLock.held_by cur c l) ->
  (exists l2,
      ZReentrantLock.held_by cur (c + 2) l2
      /\ forall r, body l2 = Returned (r, l2) ->
                   ZLocker.nested dbg cur body l = Some (Returned (r, l)))
  /\ (forall (B : Type) (b : ZLock.t -> outcome (B * ZLock.t)) (m : ZLock.t),
         ZLocker.nested dbg cur b m = None)
  /\ (forall (B : Type) (b : ZConditionLock.t -> outcome (B * ZConditionLock.t))
             (m : ZConditionLock.t),
         ZLocker.nested dbg cur b m = None).
Proof.
  intros Hb Hl. split; [|split].
  - assert (Hc0 : 0 <= c) by (destruct Hl as [(-> & _)|(Hc & _)]; lia).
    (* the outer constructor *)
    assert (H1 : exists l1, ZReentrantLock.lock cur l = Some l1
                            /\ ZReentrantLock.held_by cur (c + 1) l1).
    { destruct Hl as [(-> & Hu)|(Hc & Hh)].
      - now apply lock_unheld.
      - apply lock_held; trivial; lia. }
    destruct H1 as (l1 & E1 & Hh1).
    (* the inner constructor re-enters *)
    destruct (@lock_held cur (c + 1) l1) as (l2 & E2 & Hh2); trivial; try lia.
    replace (c + 1 + 1) with (c + 2) in Hh2 by lia.
    exists l2. split; [exact Hh2|]. intros r Hr.
    (* the inner destructor *)
    destruct (@unlock_held dbg cur (c + 2) l2) as (l3 & E3 & _ & Hh3);
      trivial; try lia.
    assert (l3 = l1) as ->.
    { apply (held_by_eq cur (c + 1)); [|exact Hh1].
      replace (c + 1) with (c + 2 - 1) by lia. apply Hh3. lia. }
    (* the outer destructor *)
    destruct (@unlock_held dbg cur (c + 1) l1) as (l4 & E4 & Hu4 & Hh4);
      trivial; try lia.
    assert (l4 = l) as ->.
    { destruct Hl as [(-> & Hu)|(Hc & Hh)].
      - apply unheld_eq; [|exact Hu]. now apply Hu4.
      - apply (held_by_eq cur c); [|exact Hh].
        replace c with (c + 1 - 1) at 1 by lia. apply Hh4. lia. }
    unfold ZLocker.nested, ZLocker.scoped.
    cbn [ZLocker.lock ZLocker.unlock ZLocker.ZReentrantLock_Lockable].
    rewrite E1, E2, Hr. cbn [bind snd fst]. rewrite E3. cbn [bind snd fst].
    rewrite E4. reflexivity.
  - intros B b m. unfold ZLocker.nested, ZLocker.scoped.
    cbn [ZLocker.lock ZLocker.ZLock_Lockable].
    destruct m as [t|]; reflexivity.
  - intros B b m. unfold ZLocker.nested, ZLocker.scoped.
    cbn [ZLocker.lock ZLocker.ZConditionLock_Lockable].
    destruct m as [[t|]]; reflexivity.
Qed.

Lemma ZLocker_nests_witness :
  ZLocker.nested true 7%nat (fun l2 => Returned (5%nat, l2)) ZReentrantLock.init
  = Some (Returned (5%nat, ZReentrantLock.init))
  /\ ZLocker.nested true 7%nat (fun m => Returned (5%nat, m)) ZLock.init = None.
Proof.
  destruct (ZLocker_nests true 7%nat nat (fun l2 => Returned (5%nat, l2)) 0
              ZReentrantLock.init) as ((l2 & _ & H) & HZ & _).
  - lia.
  - left. repeat split.
  - split; [apply H; reflexivity | apply HZ].
Defined.



(** X7. [try_lock] of [ZLock] and of [ZConditionLock] takes the mutex
    exactly when [lock] would return, with the same effect, and otherwise
    returns [false] and changes nothing; while a thread holds the mutex
    [try_lock] fails and [lock] blocks for every thread, the holder included,
    and after [unlock] the next [try_lock] succeeds. *)
Theorem mutex_try_lock (cur other : Thread) :
  (forall m : ZLock.t,
      (forall m', ZLock.try_lock cur m = (true, m') <-> ZLock.lock cur m = Some m')
      /\ (forall m', ZLock.try_lock cur m = (false, m') ->
                     m' = m /\ ZLock.lock cur m = None)
      /\ (forall m', ZLock.lock cur m = Some m' ->
                     ZLock.try_lock other m' = (false, m')
                     /\ ZLock.lock other m' = None
                     /\ ZLock.try_lock other (ZLock.unlock m') = (true, Some other)))
  /\ (forall l : ZConditionLock.t,
         (forall l', ZConditionLock.try_lock cur l = (true, l')
                     <-> ZConditionLock.lock cur l = Some l')
         /\ (forall l', ZConditionLock.try_lock cur l = (false, l') ->
                        l' = l /\ ZConditionLock.lock cur l = None)
         /\ (forall l', ZConditionLock.lock cur l = Some l' ->
                        ZConditionLock.try_lock other l' = (false, l')
                        /\ ZConditionLock.lock other l' = None
                        /\ ZConditionLock.try_lock other (ZConditionLock.unlock l')
                           = (true, ZConditionLock.mk (Some other)))).
Proof.
  split.
  - intros [t|]; (split; [|split]); intros m'; simpl.
    + split; discriminate.
    + intros E. injection E as <-. split; reflexivity.
    + discriminate.
    + split; intros E; injection E as <-; reflexivity.
    + discriminate.
    + intros E. injection E as <-. repeat split.
  - intros [[t|]]; (split; [|split]); intros l';
      unfold ZConditionLock.try_lock, ZConditionLock.lock; simpl.
    + split; discriminate.
    + intros E. injection E as <-. split; reflexivity.
    + discriminate.
    + split; intros E; injection E as <-; reflexivity.
    + discriminate.
    + intros E. injection E as <-. repeat split.
Qed.

(* ================================================================== *)
(** * Further properties of the queries *)

Local Open Scope nat_scope.

Section MoreQueries.

Variable debug_build : bool.

(** A loaded-only accessor under [VM_ENTRY_MARK]: one crossing, the field of
    the live class. *)
Lemma marked_read_run {A : Type} (f : Klass.t -> A) (msg : string)
      (w : ciKlass.world) (a : ciKlass.ptr) (ka : Klass.id) (K : Klass.t) :
  ciKlass.klass_of w a = Some ka -> nth_error (ciKlass.vm_heap w) ka = Some K ->
  ciKlass.bindM (ciKlass.assert_ debug_build (ciKlass.is_loaded a) msg)
    (fun _ => ciKlass.VM_ENTRY_MARK
                (ciKlass.bindM (ciKlass.get_Klass a)
                   (fun this_klass =>
                      ciKlass.bindM (ciKlass.klass_at this_klass)
                        (fun k => ciKlass.ret (f k))))) w
  = Returned (f K, ciKlass.crossed 1 w).
Proof.
  intros Ha EK.
  rewrite (bindM_run _ (assert_loaded_run debug_build _ _ _ _ Ha)).
  rewrite (VM_ENTRY_MARK_bind _ _ _ _ (get_Klass_run (ciKlass.inside w) _ _ Ha)).
  rewrite (VM_ENTRY_MARK_bind _ _ _ _ (klass_at_run (ciKlass.inside w) _ _ EK)).
  apply VM_ENTRY_MARK_ret.
Qed.

(** The world a guarded entry leaves: as it was when the thread is in the
    VM already, one crossing later otherwise. *)
Lemma GUARDED_VM_ENTRY_run {A : Type} (action : ciKlass.M A) (w : ciKlass.world) (r : A) :
  action w = Returned (r, w) ->
  action (ciKlass.inside w) = Returned (r, ciKlass.inside w) ->
  ciKlass.GUARDED_VM_ENTRY action w
  = Returned (r, if 0 <? ciKlass.vm_entries w then w else ciKlass.crossed 1 w).
Proof.
  intros Hin Hout. unfold ciKlass.GUARDED_VM_ENTRY, ciKlass.IS_IN_VM.
  unfold ciKlass.bindM at 1.
  destruct (0 <? ciKlass.vm_entries w); [exact Hin|].
  rewrite (VM_ENTRY_MARK_run Hout). reflexivity.
Qed.

Lemma guarded_read_run {A : Type} (f : Klass.t -> A)
      (w : ciKlass.world) (a : ciKlass.ptr) (ka : Klass.id) (K : Klass.t) :
  ciKlass.klass_of w a = Some ka -> nth_error (ciKlass.vm_heap w) ka = Some K ->
  ciKlass.GUARDED_VM_ENTRY
    (ciKlass.bindM (ciKlass.get_Klass a)
       (fun this_klass =>
          ciKlass.bindM (ciKlass.klass_at this_klass)
            (fun k => ciKlass.ret (f k)))) w
  = Returned (f K, if 0 <? ciKlass.vm_entries w then w else ciKlass.crossed 1 w).
Proof.
  intros Ha EK. apply GUARDED_VM_ENTRY_run.
  - rewrite (bindM_run _ (get_Klass_run w _ _ Ha)).
    rewrite (bindM_run _ (klass_at_run w _ _ EK)). reflexivity.
  - rewrite (bindM_run _ (get_Klass_run (ciKlass.inside w) _ _ Ha)).
    rewrite (bindM_run _ (klass_at_run (ciKlass.inside w) _ _ EK)). reflexivity.
Qed.

(** X8. On a loaded handle [super_depth], [super_check_offset],
    [can_be_primary_super], [prototype_header_offset] and [prototype_header]
    return the value of the live class, in debug and product builds, at the
    price of exactly one crossing into the VM; nothing else in the world
    changes. *)
Theorem marked_accessors_read_through
        (offset header : Klass.t -> Z)
        (w : ciKlass.world) (a : ciKlass.ptr) (ka : Klass.id) (K : Klass.t) :
  ciKlass.klass_of w a = Some ka -> nth_error (ciKlass.vm_heap w) ka = Some K ->
  ciKlass.super_depth debug_build a w
  = Returned (Klass.super_depth K, ciKlass.crossed 1 w)
  /\ ciKlass.super_check_offset debug_build a w
     = Returned (Klass.super_check_offset K, ciKlass.crossed 1 w)
  /\ ciKlass.can_be_primary_super debug_build a w
     = Returned (Klass.can_be_primary_super K, ciKlass.crossed 1 w)
  /\ ciKlass.prototype_header_offset debug_build offset a w
     = Returned (ciKlass.to_juint (offset K), ciKlass.crossed 1 w)
  /\ ciKlass.prototype_header debug_build header a w
     = Returned (header K, ciKlass.crossed 1 w).
Proof.
  intros Ha EK. repeat split.
  - unfold ciKlass.super_depth.
    exact (marked_read_run Klass.super_depth _ w a ka K Ha EK).
  - unfold ciKlass.super_check_offset.
    exact (marked_read_run Klass.super_check_offset _ w a ka K Ha EK).
  - unfold ciKlass.can_be_primary_super.
    exact (marked_read_run Klass.can_be_primary_super _ w a ka K Ha EK).
  - unfold ciKlass.prototype_header_offset.
    exact (marked_read_run (fun k => ciKlass.to_juint (offset k)) _ w a ka K Ha EK).
  - unfold ciKlass.prototype_header.
    exact (marked_read_run header _ w a ka K Ha EK).
Qed.

(** X9. [is_subclass_of], [modifier_flags], [access_flags] and
    [external_name] on loaded handles return what the live class says. They
    enter the VM only when the thread is not in it already: called inside a
    heap-entry scope they leave the world as it is, outside they cost one
    crossing. [is_subclass_of] has no identity check: also for [a = b] the
    answer is computed on the VM side. *)
Theorem guarded_queries_enter_when_outside
        (ext_name : Klass.t -> string)
        (w : ciKlass.world) (a b : ciKlass.ptr) (ka kb : Klass.id) (K KB : Klass.t) :
  ciKlass.klass_of w a = Some ka -> ciKlass.klass_of w b = Some kb ->
  nth_error (ciKlass.vm_heap w) ka = Some K ->
  nth_error (ciKlass.vm_heap w) kb = Some KB ->
  let w' := if 0 <? ciKlass.vm_entries w then w else ciKlass.crossed 1 w in
  ciKlass.is_subclass_of debug_build a b w
  = Returned (Klass.is_subclass_of (ciKlass.vm_heap w) ka kb, w')
  /\ ciKlass.modifier_flags debug_build a w = Returned (Klass.modifier_flags K, w')
  /\ ciKlass.access_flags debug_build a w = Returned (Klass.access_flags K, w')
  /\ ciKlass.external_name ext_name a w = Returned (ext_name K, w').
Proof.
  intros Ha Hb EK EKB w'. repeat split.
  - unfold ciKlass.is_subclass_of.
    rewrite (bindM_run _ (assert_loaded_run debug_build _ _ _ _ Ha)).
    rewrite (bindM_run _ (assert_loaded_run debug_build _ _ _ _ Hb)).
    apply GUARDED_VM_ENTRY_run.
    + rewrite (bindM_run _ (get_Klass_run w _ _ Ha)).
      rewrite (bindM_run _ (get_Klass_run w _ _ Hb)).
      rewrite (bindM_run _ (klass_at_run w _ _ EK)).
      rewrite (bindM_run _ (klass_at_run w _ _ EKB)). reflexivity.
    + rewrite (bindM_run _ (get_Klass_run (ciKlass.inside w) _ _ Ha)).
      rewrite (bindM_run _ (get_Klass_run (ciKlass.inside w) _ _ Hb)).
      rewrite (bindM_run _ (klass_at_run (ciKlass.inside w) _ _ EK)).
      rewrite (bindM_run _ (klass_at_run (ciKlass.inside w) _ _ EKB)). reflexivity.
  - unfold ciKlass.modifier_flags.
    rewrite (bindM_run _ (assert_loaded_run debug_build _ _ _ _ Ha)).
    exact (guarded_read_run Klass.modifier_flags w a ka K Ha EK).
  - unfold ciKlass.access_flags.
    rewrite (bindM_run _ (assert_loaded_run debug_build _ _ _ _ Ha)).
    exact (guarded_read_run Klass.access_flags w a ka K Ha EK).
  - unfold ciKlass.external_name.
    exact (guarded_read_run ext_name w a ka K Ha EK).
Qed.










(** X10. In a debug build [super_depth], [super_check_offset],
    [can_be_primary_super], [prototype_header_offset] and [prototype_header]
    on an unloaded handle trip the assert "must be loaded" before the VM is
    entered. *)
Theorem accessors_require_loaded (offset header : Klass.t -> Z)
        (w : ciKlass.world) (u : ciKlass.ptr) :
  ciKlass.unloaded_at w u ->
  ciKlass.super_depth true u w = AssertFailed "must be loaded"
  /\ ciKlass.super_check_offset true u w = AssertFailed "must be loaded"
  /\ ciKlass.can_be_primary_super true u w = AssertFailed "must be loaded"
  /\ ciKlass.prototype_header_offset true offset u w = AssertFailed "must be loaded"
  /\ ciKlass.prototype_header true header u w = AssertFailed "must be loaded".
Proof.
  intros Hu.
  pose proof (assert_unloaded_run w u "must be loaded" Hu) as Fails.
  repeat split.
  - unfold ciKlass.super_depth. now apply bindM_failed.
  - unfold ciKlass.super_check_offset. now apply bindM_failed.
  - unfold ciKlass.can_be_primary_super. now apply bindM_failed.
  - unfold ciKlass.prototype_header_offset. now apply bindM_failed.
  - unfold ciKlass.prototype_header. now apply bindM_failed.
Qed.

Lemma accessors_require_loaded_witness :
  let w := ciKlass.mk_world
             [] [ciKlass.new_unloaded "com/example/Foo" ciKlass.T_OBJECT] 0 0 in
  ciKlass.super_depth true 0 w = AssertFailed "must be loaded"
  /\ ciKlass.prototype_header true (fun _ => 1%Z) 0 w = AssertFailed "must be loaded".
Proof.
  intros w.
  assert (Hu : ciKlass.unloaded_at w 0) by (eexists; split; reflexivity).
  pose proof (accessors_require_loaded (fun _ => 0%Z) (fun _ => 1%Z) w 0 Hu) as H.
  split; [exact (proj1 H) | exact (proj2 (proj2 (proj2 (proj2 H))))].
Defined.




Lemma GUARDED_VM_ENTRY_eq {A : Type} (action : ciKlass.M A) (w : ciKlass.world) :
  ciKlass.GUARDED_VM_ENTRY action w
  = if 0 <? ciKlass.vm_entries w then action w else ciKlass.VM_ENTRY_MARK action w.
Proof.
  unfold ciKlass.GUARDED_VM_ENTRY, ciKlass.IS_IN_VM, ciKlass.bindM.
  destruct (0 <? ciKlass.vm_entries w); reflexivity.
Qed.




(** ** What the queries leave alone *)

Lemma objects_ok_store (w w' : ciKlass.world) :
  ciKlass.vm_heap w' = ciKlass.vm_heap w -> ciKlass.objects w' = ciKlass.objects w ->
  ciKlass.objects_ok w' = ciKlass.objects_ok w.
Proof. intros Hh Ho. unfold ciKlass.objects_ok. now rewrite Hh, Ho. Qed.

Lemma coherent_store (w w' : ciKlass.world) :
  ciKlass.vm_heap w' = ciKlass.vm_heap w -> ciKlass.objects w' = ciKlass.objects w ->
  ciKlass.coherent w -> ciKlass.coherent w'.
Proof.
  intros Hh Ho Hc p o k K. rewrite Hh, Ho. apply Hc.
Qed.

(** A computation that returns in a world with the same heap and arena. *)
Lemma extends_store {A : Type} (n : nat) (m : ciKlass.M A) :
  (forall w r w', m w = Returned (r, w') ->
                  ciKlass.vm_heap w' = ciKlass.vm_heap w
                  /\ ciKlass.objects w' = ciKlass.objects w) ->
  ciKlass.extends n m.
Proof.
  intros H w r w' E. destruct (H w r w' E) as (Hh & Ho).
  split; [exact Hh|]. split; [|split].
  - exists []. rewrite app_nil_r. split; [exact Ho | simpl; lia].
  - intros Hok. now rewrite (objects_ok_store w w' Hh Ho).
  - now apply coherent_store.
Qed.

Lemma extends_ret {A : Type} (n : nat) (x : A) : ciKlass.extends n (ciKlass.ret x).
Proof.
  apply extends_store. intros w r w' E. injection E as _ <-. now split.
Qed.

Lemma extends_undefined {A : Type} (n : nat) : ciKlass.extends n (@ciKlass.undefined A).
Proof. intros w r w' E. discriminate. Qed.

Lemma extends_get_world (n : nat) : ciKlass.extends n ciKlass.get_world.
Proof.
  apply extends_store. intros w r w' E. injection E as _ <-. now split.
Qed.

Lemma extends_deref (n : nat) (p : ciKlass.ptr) : ciKlass.extends n (ciKlass.deref p).
Proof.
  apply extends_store. intros w r w' E. unfold ciKlass.deref in E.
  destruct (nth_error (ciKlass.objects w) p); [|discriminate].
  injection E as _ <-. now split.
Qed.

Lemma extends_klass_at (n : nat) (k : Klass.id) : ciKlass.extends n (ciKlass.klass_at k).
Proof.
  apply extends_store. intros w r w' E. unfold ciKlass.klass_at in E.
  destruct (nth_error (ciKlass.vm_heap w) k); [|discriminate].
  injection E as _ <-. now split.
Qed.

Lemma extends_bind {A B : Type} (n k : nat) (m : ciKlass.M A) (f : A -> ciKlass.M B) :
  ciKlass.extends n m -> (forall a, ciKlass.extends k (f a)) ->
  ciKlass.extends (n + k) (ciKlass.bindM m f).
Proof.
  intros Hm Hf w r w' E. unfold ciKlass.bindM in E.
  destruct (m w) as [[a w1]| |] eqn:E1; try discriminate.
  destruct (Hm w a w1 E1) as (Hh1 & (more1 & Ho1 & Hn1) & Hok1 & Hc1).
  destruct (Hf a w1 r w' E) as (Hh2 & (more2 & Ho2 & Hn2) & Hok2 & Hc2).
  split; [congruence|]. split; [|split].
  - exists (more1 ++ more2). rewrite Ho2, Ho1, <- app_assoc.
    split; [reflexivity|]. rewrite length_app. lia.
  - intros Hok. auto.
  - intros Hc. auto.
Qed.

Lemma extends_bind0 {A B : Type} (n : nat) (m : ciKlass.M A) (f : A -> ciKlass.M B) :
  ciKlass.extends 0 m -> (forall a, ciKlass.extends n (f a)) ->
  ciKlass.extends n (ciKlass.bindM m f).
Proof. intros Hm Hf. exact (extends_bind 0 n m f Hm Hf). Qed.

Lemma extends_bind_ret {A B : Type} (n : nat) (m : ciKlass.M A) (g : A -> B) :
  ciKlass.extends n m ->
  ciKlass.extends n (ciKlass.bindM m (fun a => ciKlass.ret (g a))).
Proof.
  intros Hm. replace n with (n + 0) by lia.
  apply extends_bind; [exact Hm | intros a; apply extends_ret].
Qed.

Lemma extends_is_loaded (n : nat) (p : ciKlass.ptr) :
  ciKlass.extends n (ciKlass.is_loaded p).
Proof. apply extends_bind_ret. apply extends_deref. Qed.

Lemma extends_get_Klass (n : nat) (p : ciKlass.ptr) :
  ciKlass.extends n (ciKlass.get_Klass p).
Proof.
  apply extends_bind0; [apply extends_deref|].
  intros o. destruct (ciKlass._metadata o);
    [apply extends_ret | apply extends_undefined].
Qed.

Lemma extends_assert (dbg : bool) (n : nat) (cond : ciKlass.M bool) (msg : string) :
  ciKlass.extends 0 cond -> ciKlass.extends n (ciKlass.assert_ dbg cond msg).
Proof.
  intros Hc. unfold ciKlass.assert_. destruct dbg; [|apply extends_ret].
  apply extends_bind0; [exact Hc|].
  intros [|]; [apply extends_ret | intros w r w' E; discriminate].
Qed.

Lemma extends_VM_ENTRY_MARK {A : Type} (n : nat) (rest : ciKlass.M A) :
  ciKlass.extends n rest -> ciKlass.extends n (ciKlass.VM_ENTRY_MARK rest).
Proof.
  intros Hr w r w' E.
  unfold ciKlass.VM_ENTRY_MARK, ciKlass.bindM, ciKlass.enter_vm in E.
  fold (ciKlass.inside w) in E.
  destruct (rest (ciKlass.inside w)) as [[x w1]| |] eqn:E1; try discriminate.
  unfold ciKlass.leave_vm, ciKlass.ret in E. injection E as _ <-.
  destruct (Hr _ _ _ E1) as (Hh & Hmore & Hok & Hc).
  split; [exact Hh|]. split; [exact Hmore|]. split.
  - intros H. rewrite <- (Hok H). now apply objects_ok_store.
  - intros H. apply (coherent_store w1); trivial. apply Hc.
    now apply (coherent_store w).
Qed.

Lemma extends_GUARDED_VM_ENTRY {A : Type} (n : nat) (action : ciKlass.M A) :
  ciKlass.extends n action -> ciKlass.extends n (ciKlass.GUARDED_VM_ENTRY action).
Proof.
  intros Ha w r w'. rewrite GUARDED_VM_ENTRY_eq.
  destruct (0 <? ciKlass.vm_entries w); [apply Ha|].
  now apply extends_VM_ENTRY_MARK.
Qed.

(** A new object made by the constructor for a loaded class caches the
    fields of its class. *)
Lemma coherent_snoc (w : ciKlass.world) (k : Klass.id) (K : Klass.t) (n c : nat) :
  nth_error (ciKlass.vm_heap w) k = Some K ->
  ciKlass.coherent w ->
  ciKlass.coherent
    (ciKlass.mk_world (ciKlass.vm_heap w)
       (ciKlass.objects w
          ++ [ciKlass.mk (Some k) ciKlass.T_OBJECT (Klass.name K) (Klass.layout_helper K)])
       n c).
Proof.
  intros EK Hc p o k0 K0 Ep Mo EK0. simpl in Ep, EK0.
  destruct (Nat.lt_ge_cases p (List.length (ciKlass.objects w))) as [Hlt|Hge].
  - rewrite nth_error_app1 in Ep by exact Hlt. eapply Hc; eauto.
  - rewrite nth_error_app2 in Ep by exact Hge.
    destruct (p - List.length (ciKlass.objects w)) as [|d]; simpl in Ep.
    + injection Ep as <-. simpl in Mo. injection Mo as <-.
      rewrite EK in EK0. injection EK0 as <-. simpl. now split.
    + destruct d; discriminate.
Qed.

Lemma extends_get_klass (k : Klass.id) : ciKlass.extends 1 (ciKlass.get_klass k).
Proof.
  intros w p w' E. split; [|split; [|split]].
  4:{ (* the cache *)
    intros Hc. revert E.
    unfold ciKlass.get_klass, ciKlass.bindM at 1, ciKlass.get_world.
    destruct (ciKlass.find_object (ciKlass.objects w) k 0) as [q|].
    { intros E. now injection E as _ <-. }
    rewrite GUARDED_VM_ENTRY_eq.
    unfold ciKlass.VM_ENTRY_MARK, ciKlass.new_ciKlass, ciKlass.bindM,
      ciKlass.enter_vm, ciKlass.klass_at, ciKlass.allocate, ciKlass.leave_vm,
      ciKlass.ret.
    destruct (0 <? ciKlass.vm_entries w); simpl;
      destruct (nth_error (ciKlass.vm_heap w) k) as [K|] eqn:EK; try discriminate;
      intros E; injection E as _ <-; now apply coherent_snoc. }
  3:{ intros Hok. eapply objects_ok_get_klass; eauto. }
  all: revert E;
    unfold ciKlass.get_klass, ciKlass.bindM at 1, ciKlass.get_world;
    (destruct (ciKlass.find_object (ciKlass.objects w) k 0) as [q|];
     [intros E; injection E as _ <-;
      first [reflexivity | exists []; rewrite app_nil_r; split; [reflexivity | simpl; lia]]|]);
    rewrite GUARDED_VM_ENTRY_eq;
    unfold ciKlass.VM_ENTRY_MARK, ciKlass.new_ciKlass, ciKlass.bindM,
      ciKlass.enter_vm, ciKlass.klass_at, ciKlass.allocate, ciKlass.leave_vm,
      ciKlass.ret;
    destruct (0 <? ciKlass.vm_entries w); simpl;
      destruct (nth_error (ciKlass.vm_heap w) k) as [K|]; try discriminate;
      intros E; injection E as _ <-; simpl;
      first [reflexivity | eexists; split; [reflexivity | simpl; lia]].
Qed.

Lemma extends_get_klass_by_name (p : ciKlass.ptr) (name : string) (local : bool) :
  ciKlass.extends 1 (ciKlass.get_klass_by_name p name local).
Proof.
  unfold ciKlass.get_klass_by_name.
  apply extends_bind0; [apply extends_get_world|]. intros w.
  destruct (ciKlass.find_named (ciKlass.vm_heap w) name 0); [|apply extends_ret].
  apply extends_bind_ret. apply extends_get_klass.
Qed.

Ltac extends_step :=
  first [ apply extends_ret
        | apply extends_undefined
        | apply extends_get_world
        | apply extends_klass_at
        | apply extends_get_Klass
        | apply extends_is_loaded
        | apply extends_get_klass
        | apply extends_get_klass_by_name
        | apply extends_assert
        | apply extends_VM_ENTRY_MARK
        | apply extends_GUARDED_VM_ENTRY
        | apply extends_bind_ret
        | apply extends_bind0; [|intro]
        | match goal with
          | |- ciKlass.extends _ (if ?c then _ else _) => destruct c
          | |- ciKlass.extends _ (match ?x with _ => _ end) => destruct x
          end ].

(** X13. The queries that only read: whenever one of them returns, the
    class metadata is as before, no object was added to the arena or changed,
    and the arena invariants hold as before. *)
Theorem queries_leave_arena (offset header : Klass.t -> Z) (ext_name : Klass.t -> string)
        (a b : ciKlass.ptr) :
  ciKlass.extends 0 (ciKlass.is_subtype_of debug_build a b)
  /\ ciKlass.extends 0 (ciKlass.is_subclass_of debug_build a b)
  /\ ciKlass.extends 0 (ciKlass.super_depth debug_build a)
  /\ ciKlass.extends 0 (ciKlass.super_check_offset debug_build a)
  /\ ciKlass.extends 0 (ciKlass.can_be_primary_super debug_build a)
  /\ ciKlass.extends 0 (ciKlass.modifier_flags debug_build a)
  /\ ciKlass.extends 0 (ciKlass.access_flags debug_build a)
  /\ ciKlass.extends 0 (ciKlass.external_name ext_name a)
  /\ ciKlass.extends 0 (ciKlass.prototype_header_offset debug_build offset a)
  /\ ciKlass.extends 0 (ciKlass.prototype_header debug_build header a)
  /\ forall w r w',
       ciKlass.is_subtype_of debug_build a b w = Returned (r, w') ->
       ciKlass.objects w' = ciKlass.objects w /\ ciKlass.vm_heap w' = ciKlass.vm_heap w.
Proof.
  assert (Sub : ciKlass.extends 0 (ciKlass.is_subtype_of debug_build a b))
    by (unfold ciKlass.is_subtype_of; repeat extends_step).
  split; [exact Sub|].
  split; [unfold ciKlass.is_subclass_of; repeat extends_step|].
  split; [unfold ciKlass.super_depth; repeat extends_step|].
  split; [unfold ciKlass.super_check_offset; repeat extends_step|].
  split; [unfold ciKlass.can_be_primary_super; repeat extends_step|].
  split; [unfold ciKlass.modifier_flags; repeat extends_step|].
  split; [unfold ciKlass.access_flags; repeat extends_step|].
  split; [unfold ciKlass.external_name; repeat extends_step|].
  split; [unfold ciKlass.prototype_header_offset; repeat extends_step|].
  split; [unfold ciKlass.prototype_header; repeat extends_step|].
  intros w r w' H.
  destruct (Sub w r w' H) as (Hh & (more & Ho & Hn) & _).
  split; [|exact Hh].
  destruct more; [now rewrite app_nil_r in Ho | simpl in Hn; lia].
Qed.

(** X14. The queries that may ask [ciEnv] for a handle ([super_of_depth],
    [least_common_ancestor], [find_klass]): whenever one returns, the class
    metadata is as before, at most one object was added to the arena, the
    arena invariants are kept, and every handle that existed before the call
    stands for the same object and class after it. *)
Theorem allocating_queries_extend (a b : ciKlass.ptr) (i : nat) (name : string) :
  ciKlass.extends 1 (ciKlass.super_of_depth debug_build a i)
  /\ ciKlass.extends 1 (ciKlass.least_common_ancestor debug_build a b)
  /\ ciKlass.extends 1 (ciKlass.find_klass debug_build a name)
  /\ forall (A : Type) (m : ciKlass.M A) (n : nat) w r w' p o,
       ciKlass.extends n m -> m w = Returned (r, w') ->
       nth_error (ciKlass.objects w) p = Some o ->
       nth_error (ciKlass.objects w') p = Some o
       /\ ciKlass.klass_of w' p = ciKlass.klass_of w p.
Proof.
  split; [|split; [|split]].
  - unfold ciKlass.super_of_depth. repeat extends_step.
  - unfold ciKlass.least_common_ancestor. repeat extends_step.
  - unfold ciKlass.find_klass. repeat extends_step.
  - intros A m n w r w' p o Hm E Ep.
    destruct (Hm w r w' E) as (_ & (more & Ho & _) & _).
    assert (Ep' : nth_error (ciKlass.objects w') p = Some o).
    { rewrite Ho, nth_error_app1; [exact Ep|]. apply nth_error_Some. congruence. }
    split; [exact Ep'|]. unfold ciKlass.klass_of. now rewrite Ep, Ep'.
Qed.

(** ** The fields an object caches *)

Lemma name_run (w : ciKlass.world) (p : ciKlass.ptr) (o : ciKlass.t) :
  nth_error (ciKlass.objects w) p = Some o ->
  ciKlass.name p w = Returned (ciKlass._name o, w)
  /\ ciKlass.layout_helper p w = Returned (ciKlass._layout_helper o, w).
Proof.
  intros Eo. unfold ciKlass.name, ciKlass.layout_helper, ciKlass.bindM, ciKlass.deref.
  rewrite Eo. now split.
Qed.

(** X15. What an object caches. The handle [get_klass] returns for a
    class is loaded and its cached name and layout helper are those of the
    class; the handle of an unloaded klass is not loaded, carries the name it
    was made with and the neutral layout helper. The agreement of the cached
    fields with the classes holds in a new [ciEnv] and is kept by both
    factory calls and by the definition of further classes. *)
Theorem cached_fields_coherent (limit : nat) :
  (forall h n c, ciKlass.coherent (ciKlass.mk_world h [] n c))
  /\ (forall w k K,
        ciKlass.objects_ok w = true -> ciKlass.coherent w ->
        nth_error (ciKlass.vm_heap w) k = Some K ->
        exists p w',
          ciKlass.get_klass k w = Returned (p, w')
          /\ ciKlass.coherent w'
          /\ ciKlass.is_loaded p w' = Returned (true, w')
          /\ ciKlass.name p w' = Returned (Klass.name K, w')
          /\ ciKlass.layout_helper p w' = Returned (Klass.layout_helper K, w'))
  /\ (forall w name,
        ciKlass.coherent w ->
        exists p w',
          ciKlass.get_unloaded_klass name w = Returned (p, w')
          /\ ciKlass.coherent w'
          /\ ciKlass.is_loaded p w' = Returned (false, w')
          /\ ciKlass.name p w' = Returned (name, w')
          /\ ciKlass.layout_helper p w' = Returned (ciKlass._lh_neutral_value, w'))
  /\ (forall w ds h' n c,
        ciKlass.objects_ok w = true -> ciKlass.coherent w ->
        Klass.load limit (ciKlass.vm_heap w) ds = Some h' ->
        ciKlass.coherent (ciKlass.mk_world h' (ciKlass.objects w) n c)).
Proof.
  split; [|split; [|split]].
  - intros h n c p o k K Ep. destruct p; discriminate.
  - intros w k K Hok Hc EK.
    destruct (get_klass_run w k K Hok EK) as (p & w' & E & Hp & Hh & _).
    exists p, w'. split; [exact E|].
    assert (Hc' : ciKlass.coherent w')
      by (destruct (extends_get_klass k w p w' E) as (_ & _ & _ & H); auto).
    split; [exact Hc'|].
    destruct (klass_of_inv _ _ _ Hp) as (o & Eo & Mo).
    destruct (name_run w' p o Eo) as (En & El).
    assert (EK' : nth_error (ciKlass.vm_heap w') k = Some K) by now rewrite Hh.
    destruct (Hc' p o k K Eo Mo EK') as (Hn & Hl).
    rewrite (is_loaded_run w' p o Eo), En, El, Hn, Hl.
    unfold ciKlass.loaded. rewrite Mo. repeat split.
  - intros w name Hc.
    set (o := ciKlass.new_unloaded name ciKlass.T_OBJECT).
    set (w' := ciKlass.mk_world (ciKlass.vm_heap w) (ciKlass.objects w ++ [o])
                                (ciKlass.vm_entries w) (ciKlass.crossings w)).
    exists (List.length (ciKlass.objects w)), w'.
    assert (Eo : nth_error (ciKlass.objects w') (List.length (ciKlass.objects w))
                 = Some o).
    { unfold w'. simpl. rewrite nth_error_app2, Nat.sub_diag by lia. reflexivity. }
    split; [reflexivity|]. split.
    { intros p o0 k0 K0 Ep Mo EK0. unfold w' in Ep, EK0. simpl in Ep, EK0.
      destruct (Nat.lt_ge_cases p (List.length (ciKlass.objects w))) as [Hlt|Hge].
      - rewrite nth_error_app1 in Ep by exact Hlt. eapply Hc; eauto.
      - rewrite nth_error_app2 in Ep by exact Hge.
        destruct (p - List.length (ciKlass.objects w)) as [|d]; simpl in Ep.
        + injection Ep as <-. discriminate.
        + destruct d; discriminate. }
    destruct (name_run w' _ o Eo) as (En & El).
    rewrite (is_loaded_run w' _ o Eo), En, El. repeat split.
  - intros w ds h' n c Hok Hc Hds p o k K Ep Mo EK. simpl in Ep, EK.
    destruct (load_extends _ _ _ _ Hds) as (more & ->).
    destruct (objects_ok_inv w Hok) as (_ & Hv).
    assert (Hk : k < List.length (ciKlass.vm_heap w)).
    { apply (Hv p). unfold ciKlass.klass_of. now rewrite Ep. }
    rewrite nth_error_app1 in EK by exact Hk.
    eapply Hc; eauto.
Qed.

Lemma cached_fields_coherent_witness :
  exists p w',
    ciKlass.get_klass 9 (ciKlass.mk_world Scenario.heap [] 0 0) = Returned (p, w')
    /\ ciKlass.coherent w'
    /\ ciKlass.is_loaded p w' = Returned (true, w')
    /\ ciKlass.name p w' = Returned ("G"%string, w')
    /\ ciKlass.layout_helper p w' = Returned (8%Z, w').
Proof.
  destruct (cached_fields_coherent Scenario.limit) as (Fresh & Get & _).
  refine (Get (ciKlass.mk_world Scenario.heap [] 0 0) 9 (Scenario.klass 9) _ _ _).
  - reflexivity.
  - apply Fresh.
  - vm_compute. reflexivity.
Defined.

End MoreQueries.

(** [G] on the scenario: five proper ancestors, no slot in a display of
    three. *)
Lemma marked_accessors_read_through_witness :
  ciKlass.super_depth true 9 Scenario.world
  = Returned (5, ciKlass.crossed 1 Scenario.world)
  /\ ciKlass.super_check_offset true 9 Scenario.world
     = Returned (3, ciKlass.crossed 1 Scenario.world)
  /\ ciKlass.can_be_primary_super true 9 Scenario.world
     = Returned (false, ciKlass.crossed 1 Scenario.world).
Proof.
  assert (S : ciKlass.klass_of Scenario.world 9 = Some 9
              /\ nth_error (ciKlass.vm_heap Scenario.world) 9 = Some (Scenario.klass 9))
    by (split; vm_compute; reflexivity).
  pose proof (marked_accessors_read_through true (fun _ => 0%Z) (fun _ => 1%Z)
                Scenario.world 9 9 (Scenario.klass 9) (proj1 S) (proj2 S)) as H.
  split; [exact (proj1 H)|]. split; [exact (proj1 (proj2 H))|].
  exact (proj1 (proj2 (proj2 H))).
Defined.

(** [D] against [A], outside the VM and inside a heap-entry scope. *)
Lemma guarded_queries_enter_when_outside_witness :
  ciKlass.is_subclass_of true 6 1 Scenario.world
  = Returned (true, ciKlass.crossed 1 Scenario.world)
  /\ ciKlass.is_subclass_of true 6 1 (ciKlass.inside Scenario.world)
     = Returned (true, ciKlass.inside Scenario.world).
Proof.
  assert (S : ciKlass.klass_of Scenario.world 6 = Some 6
              /\ ciKlass.klass_of Scenario.world 1 = Some 1
              /\ nth_error (ciKlass.vm_heap Scenario.world) 6 = Some (Scenario.klass 6)
              /\ nth_error (ciKlass.vm_heap Scenario.world) 1 = Some (Scenario.klass 1))
    by (refine (conj _ (conj _ (conj _ _))); vm_compute; reflexivity).
  destruct S as (S1 & S2 & S3 & S4).
  split.
  - exact (proj1 (guarded_queries_enter_when_outside true Klass.name
                    Scenario.world 6 1 6 1 (Scenario.klass 6) (Scenario.klass 1)
                    S1 S2 S3 S4)).
  - exact (proj1 (guarded_queries_enter_when_outside true Klass.name
                    (ciKlass.inside Scenario.world) 6 1 6 1
                    (Scenario.klass 6) (Scenario.klass 1) S1 S2 S3 S4)).
Defined.

(* ================================================================== *)
(** * Properties of the initialization of the VM *)

Local Open Scope Z_scope.

(** ** Reasoning about statements *)

Lemma seq_done (s1 s2 : VM_Version.stmt) (st st' : VM_Version.t) :
  VM_Version.seq s1 s2 st = VM_Version.Done st' ->
  exists st1, s1 st = VM_Version.Done st1 /\ s2 st1 = VM_Version.Done st'.
Proof.
  unfold VM_Version.seq. destruct (s1 st) as [st1| |]; try discriminate.
  intros H. now exists st1.
Qed.

Lemma when_done (c : VM_Version.cond) (s : VM_Version.stmt) (st st' : VM_Version.t) :
  VM_Version.when c s st = VM_Version.Done st' ->
  (c st = true /\ s st = VM_Version.Done st') \/ (c st = false /\ st' = st).
Proof.
  unfold VM_Version.when, VM_Version.If, VM_Version.skip.
  destruct (c st); intros H; [now left | right]. split; congruence.
Qed.

Lemma keeps_skip {A : Type} (part : VM_Version.t -> A) :
  VM_Version.keeps part VM_Version.skip.
Proof. intros st st' H. injection H as <-. reflexivity. Qed.

Lemma keeps_seq {A : Type} (part : VM_Version.t -> A) (s1 s2 : VM_Version.stmt) :
  VM_Version.keeps part s1 -> VM_Version.keeps part s2 ->
  VM_Version.keeps part (VM_Version.seq s1 s2).
Proof.
  intros H1 H2 st st' H. destruct (seq_done _ _ _ _ H) as (st1 & E1 & E2).
  rewrite (H2 _ _ E2). exact (H1 _ _ E1).
Qed.

Lemma keeps_If {A : Type} (part : VM_Version.t -> A) (c : VM_Version.cond)
      (s1 s2 : VM_Version.stmt) :
  VM_Version.keeps part s1 -> VM_Version.keeps part s2 ->
  VM_Version.keeps part (VM_Version.If c s1 s2).
Proof.
  intros H1 H2 st st'. unfold VM_Version.If. destruct (c st); [apply H1 | apply H2].
Qed.

Lemma keeps_when {A : Type} (part : VM_Version.t -> A) (c : VM_Version.cond)
      (s : VM_Version.stmt) :
  VM_Version.keeps part s -> VM_Version.keeps part (VM_Version.when c s).
Proof. intros H. apply keeps_If; [exact H | apply keeps_skip]. Qed.

Lemma keeps_exit {A : Type} (part : VM_Version.t -> A) (fmt : string)
      (args : VM_Version.t -> list Z) :
  VM_Version.keeps part (VM_Version.vm_exit_during_initialization fmt args).
Proof. intros st st' H. discriminate. Qed.

(** A step that always falls through. *)
Lemma keeps_step {A : Type} (part : VM_Version.t -> A) (step : VM_Version.t -> VM_Version.t) :
  (forall st, part (step st) = part st) ->
  VM_Version.keeps part (fun st => VM_Version.Done (step st)).
Proof. intros H st st' E. injection E as <-. apply H. Qed.

Lemma keeps_set_bool {A : Type} (part : VM_Version.t -> A) (f : VM_Version.bool_flag)
      (v : bool) :
  (forall st, part (VM_Version.set_bool f v st) = part st) ->
  VM_Version.keeps part (VM_Version.FLAG_SET_DEFAULT f v).
Proof. intros H. now apply keeps_step. Qed.

Lemma keeps_set_intx {A : Type} (part : VM_Version.t -> A) (f : VM_Version.intx_flag)
      (v : VM_Version.t -> Z) :
  (forall st x, part (VM_Version.set_intx f x st) = part st) ->
  VM_Version.keeps part (VM_Version.FLAG_SET_DEFAULT_intx f v).
Proof. intros H st st' E. injection E as <-. apply H. Qed.

Lemma keeps_warning {A : Type} (part : VM_Version.t -> A) (fmt : string)
      (args : VM_Version.t -> list Z) :
  (forall st m, part (VM_Version.mk (VM_Version.bool_value st) (VM_Version.intx_value st)
                        (VM_Version.bool_is_default st) (VM_Version.intx_is_default st)
                        (VM_Version.bool_is_cmdline st) (VM_Version._features st)
                        (VM_Version._uarch st) (VM_Version._initial_vector_length st)
                        (VM_Version._features_string st) m) = part st) ->
  VM_Version.keeps part (VM_Version.warning fmt args).
Proof. intros H st st' E. injection E as <-. apply H. Qed.

Lemma keeps_getPsrInfo_stub {A : Type} (part : VM_Version.t -> A) (blob : bool) :
  VM_Version.keeps part (VM_Version.getPsrInfo_stub blob).
Proof.
  unfold VM_Version.getPsrInfo_stub. destruct blob;
    [apply keeps_skip | apply keeps_exit].
Qed.

Lemma keeps_set_features_string {A : Type} (part : VM_Version.t -> A)
      (table : list (Z * string)) :
  (forall st b, part (VM_Version.mk (VM_Version.bool_value st) (VM_Version.intx_value st)
                        (VM_Version.bool_is_default st) (VM_Version.intx_is_default st)
                        (VM_Version.bool_is_cmdline st) (VM_Version._features st)
                        (VM_Version._uarch st) (VM_Version._initial_vector_length st)
                        b (VM_Version.warnings st)) = part st) ->
  VM_Version.keeps part (VM_Version.set_features_string table).
Proof.
  intros H st st'. unfold VM_Version.set_features_string.
  destruct (VM_Version.features_buf table st); [|discriminate].
  intros E. injection E as <-. apply H.
Qed.

Ltac keeps_step_tac :=
  first [ apply keeps_seq
        | apply keeps_when
        | apply keeps_If
        | apply keeps_skip
        | apply keeps_exit
        | apply keeps_getPsrInfo_stub
        | apply keeps_set_bool; intros; reflexivity
        | apply keeps_set_intx; intros; reflexivity
        | apply keeps_warning; intros; reflexivity
        | apply keeps_set_features_string; intros; reflexivity
        | apply keeps_step; intros; reflexivity
        | match goal with
          | |- VM_Version.keeps _ (if ?b then _ else _) => destruct b
          end ].

Ltac keeps_tac := repeat keeps_step_tac.

(** Carry the value of a part back over the statements that keep it. *)
Ltac carry part :=
  repeat match goal with
         | E : ?s ?a = VM_Version.Done ?b |- ?G =>
             let pb := eval cbv beta in (part b) in
             let pa := eval cbv beta in (part a) in
             match G with
             | context [pb] =>
                 let K := fresh "K" in
                 assert (K : pb = pa)
                   by (refine ((_ : VM_Version.keeps part s) a b E);
                       unfold VM_Version.UNSUPPORTED_OPTION, VM_Version.c2_initialize,
                         VM_Version.get_os_cpu_info, VM_Version.read_vector_length;
                       keeps_tac);
                 rewrite K; clear K
             end
         end.

(** The value of a part after one statement that keeps it. *)
Ltac kept part E K :=
  match type of E with
  | ?s ?a = VM_Version.Done ?b =>
      let pb := eval cbv beta in (part b) in
      let pa := eval cbv beta in (part a) in
      assert (K : pb = pa)
        by (refine ((_ : VM_Version.keeps part s) a b E);
            unfold VM_Version.UNSUPPORTED_OPTION, VM_Version.c2_initialize,
              VM_Version.get_os_cpu_info, VM_Version.read_vector_length;
            keeps_tac)
  end.

Ltac peel H :=
  let st := fresh "st" in
  let E := fresh "E" in
  apply seq_done in H; destruct H as (st & E & H).

(** A flag that is switched off when it is on. *)
Lemma switched_off (f : VM_Version.bool_flag) (s : VM_Version.stmt)
      (st st' : VM_Version.t) :
  VM_Version.when (VM_Version.flag f)
    (VM_Version.seq s (VM_Version.FLAG_SET_DEFAULT f false)) st
  = VM_Version.Done st' ->
  VM_Version.bool_value st' f = false.
Proof.
  intros H. destruct (when_done _ _ _ _ H) as [(C & E)|(C & ->)]; [|exact C].
  destruct (seq_done _ _ _ _ E) as (st1 & _ & E2).
  injection E2 as <-. simpl.
  destruct (VM_Version.bool_flag_eq_dec f f); congruence.
Qed.

Lemma set_bool_same (f : VM_Version.bool_flag) (v : bool) (st : VM_Version.t) :
  VM_Version.bool_value (VM_Version.set_bool f v st) f = v.
Proof. simpl. destruct (VM_Version.bool_flag_eq_dec f f); congruence. Qed.

Lemma set_intx_same (f : VM_Version.intx_flag) (v : Z) (st : VM_Version.t) :
  VM_Version.intx_value (VM_Version.set_intx f v st) f = v.
Proof. simpl. destruct (VM_Version.intx_flag_eq_dec f f); congruence. Qed.


(** A flag that is switched off when it is on and was not left at its
    default. *)
Lemma survives_as_default (f : VM_Version.bool_flag) (s : VM_Version.stmt)
      (st st' : VM_Version.t) :
  VM_Version.when
    (fun st => VM_Version.flag f st && negb (VM_Version.FLAG_IS_DEFAULT f st))
    (VM_Version.seq s (VM_Version.FLAG_SET_DEFAULT f false)) st
  = VM_Version.Done st' ->
  VM_Version.bool_value st' f = true ->
  VM_Version.bool_is_default st f = true /\ VM_Version.bool_value st f = true.
Proof.
  intros H Hv. destruct (when_done _ _ _ _ H) as [(C & E)|(C & ->)].
  - destruct (seq_done _ _ _ _ E) as (st1 & _ & E2).
    injection E2 as <-. rewrite set_bool_same in Hv. discriminate.
  - unfold VM_Version.flag, VM_Version.FLAG_IS_DEFAULT in C. rewrite Hv in C.
    simpl in C. apply negb_false_iff in C. now split.
Qed.

(** A flag that is switched off when it is on and the CPU lacks the
    feature. *)
Lemma needs_feature (f : VM_Version.bool_flag) (bit : Z) (s : VM_Version.stmt)
      (st st' : VM_Version.t) :
  VM_Version.when
    (fun st => VM_Version.flag f st && negb (VM_Version.has bit st))
    (VM_Version.seq s (VM_Version.FLAG_SET_DEFAULT f false)) st
  = VM_Version.Done st' ->
  VM_Version.bool_value st' f = true ->
  Z.land (VM_Version._features st) bit <> 0.
Proof.
  intros H Hv. destruct (when_done _ _ _ _ H) as [(C & E)|(C & ->)].
  - destruct (seq_done _ _ _ _ E) as (st1 & _ & E2).
    injection E2 as <-. rewrite set_bool_same in Hv. discriminate.
  - unfold VM_Version.flag, VM_Version.has, VM_Version.supported in C. rewrite Hv in C.
    simpl in C. rewrite negb_involutive in C. now apply Z.eqb_neq.
Qed.

Section Initialize.

Variable CPU_V : Z.
Variable CPU_B : Z.
Variable CPU_C : Z.
Variable CPU_FEATURE_FLAGS : list (Z * string).
Variable COMPILER2 : bool.
Variable os_features : Z.
Variable os_uarch : option string.
Variable blob_created : bool.
Variable current_vector_length : Z.

(** X16. When [initialize] falls through: the AES/CTR, SHA and CRC32
    flags and [CriticalJNINatives] are off and [UseMembar] is on, whatever
    they were; [UseAES] and [UseAESIntrinsics] are on only if they were on by
    default; [UseRVB] and [UseRVC] are on only if the CPU has the feature bit;
    [UsePopCountInstruction] is on only if [UseRVB] is; the feature word is
    the one the operating system reported, and no flag has changed its
    origin. *)
Theorem initialize_switches_off (st st' : VM_Version.t) :
  VM_Version.initialize CPU_V CPU_B CPU_C CPU_FEATURE_FLAGS COMPILER2
    os_features os_uarch blob_created current_vector_length st
  = VM_Version.Done st' ->
  (* what this CPU never has *)
  (forall f, In f [VM_Version.UseAESCTRIntrinsics; VM_Version.UseSHA;
                   VM_Version.UseSHA1Intrinsics; VM_Version.UseSHA256Intrinsics;
                   VM_Version.UseSHA512Intrinsics; VM_Version.UseCRC32Intrinsics;
                   VM_Version.UseCRC32CIntrinsics; VM_Version.CriticalJNINatives] ->
              VM_Version.bool_value st' f = false)
  /\ VM_Version.bool_value st' VM_Version.UseMembar = true
  (* AES survives only as a default *)
  /\ (VM_Version.bool_value st' VM_Version.UseAES = true ->
      VM_Version.bool_is_default st VM_Version.UseAES = true
      /\ VM_Version.bool_value st VM_Version.UseAES = true)
  /\ (VM_Version.bool_value st' VM_Version.UseAESIntrinsics = true ->
      VM_Version.bool_is_default st VM_Version.UseAESIntrinsics = true
      /\ VM_Version.bool_value st VM_Version.UseAESIntrinsics = true)
  (* extensions need their feature bit *)
  /\ VM_Version._features st' = os_features
  /\ (VM_Version.bool_value st' VM_Version.UseRVB = true ->
      Z.land os_features CPU_B <> 0)
  /\ (VM_Version.bool_value st' VM_Version.UseRVC = true ->
      Z.land os_features CPU_C <> 0)
  /\ (VM_Version.bool_value st' VM_Version.UsePopCountInstruction = true ->
      VM_Version.bool_value st' VM_Version.UseRVB = true)
  (* the origin of a flag is not touched *)
  /\ VM_Version.bool_is_default st' = VM_Version.bool_is_default st
  /\ VM_Version.intx_is_default st' = VM_Version.intx_is_default st.
Proof.
  intros H. unfold VM_Version.initialize in H.
  do 19 peel H.
  rename H into E19.
  assert (Feat : VM_Version._features st' = os_features).
  { carry VM_Version._features. injection E as <-. reflexivity. }
  split; [|split; [|split; [|split; [|split; [|split; [|split; [|split; [|split]]]]]]]].
  - intros f Hf. simpl in Hf.
    repeat (destruct Hf as [<-|Hf]); try contradiction.
    + carry (fun s => VM_Version.bool_value s VM_Version.UseAESCTRIntrinsics).
      eapply switched_off; eassumption.
    + carry (fun s => VM_Version.bool_value s VM_Version.UseSHA).
      eapply switched_off; eassumption.
    + carry (fun s => VM_Version.bool_value s VM_Version.UseSHA1Intrinsics).
      eapply switched_off; eassumption.
    + carry (fun s => VM_Version.bool_value s VM_Version.UseSHA256Intrinsics).
      eapply switched_off; eassumption.
    + carry (fun s => VM_Version.bool_value s VM_Version.UseSHA512Intrinsics).
      eapply switched_off; eassumption.
    + carry (fun s => VM_Version.bool_value s VM_Version.UseCRC32Intrinsics).
      eapply switched_off; eassumption.
    + carry (fun s => VM_Version.bool_value s VM_Version.UseCRC32CIntrinsics).
      eapply switched_off; eassumption.
    + carry (fun s => VM_Version.bool_value s VM_Version.CriticalJNINatives).
      unfold VM_Version.UNSUPPORTED_OPTION in *.
      eapply switched_off; eassumption.
  - injection E19 as <-. apply set_bool_same.
  - intros Hv.
    assert (V3 : VM_Version.bool_value st3 VM_Version.UseAES = true)
      by (rewrite <- Hv; symmetry;
          carry (fun s => VM_Version.bool_value s VM_Version.UseAES); reflexivity).
    assert (D : VM_Version.bool_is_default st2 = VM_Version.bool_is_default st)
      by (carry VM_Version.bool_is_default; reflexivity).
    assert (V : VM_Version.bool_value st2 VM_Version.UseAES
                = VM_Version.bool_value st VM_Version.UseAES)
      by (carry (fun s => VM_Version.bool_value s VM_Version.UseAES); reflexivity).
    rewrite <- D, <- V.
    destruct (when_done _ _ _ _ E2) as [(_ & B)|(C & Same)].
    + destruct (seq_done _ _ _ _ B) as (sa & Ba & Bb).
      kept (fun s => VM_Version.bool_value s VM_Version.UseAES) Bb Kb.
      rewrite Kb in V3.
      exact (survives_as_default _ _ _ _ Ba V3).
    + subst st3. unfold VM_Version.flag in C. rewrite V3 in C. discriminate.
  - intros Hv.
    assert (V3 : VM_Version.bool_value st3 VM_Version.UseAESIntrinsics = true)
      by (rewrite <- Hv; symmetry;
          carry (fun s => VM_Version.bool_value s VM_Version.UseAESIntrinsics);
          reflexivity).
    assert (D : VM_Version.bool_is_default st2 = VM_Version.bool_is_default st)
      by (carry VM_Version.bool_is_default; reflexivity).
    assert (V : VM_Version.bool_value st2 VM_Version.UseAESIntrinsics
                = VM_Version.bool_value st VM_Version.UseAESIntrinsics)
      by (carry (fun s => VM_Version.bool_value s VM_Version.UseAESIntrinsics);
          reflexivity).
    rewrite <- D, <- V.
    destruct (when_done _ _ _ _ E2) as [(_ & B)|(C & Same)].
    + destruct (seq_done _ _ _ _ B) as (sa & Ba & Bb).
      kept VM_Version.bool_is_default Ba Da.
      kept (fun s => VM_Version.bool_value s VM_Version.UseAESIntrinsics) Ba Va.
      rewrite <- Da, <- Va.
      exact (survives_as_default _ _ _ _ Bb V3).
    + subst st3. unfold VM_Version.flag in C. rewrite V3 in C.
      rewrite orb_true_r in C. discriminate.
  - exact Feat.
  - intros Hv.
    assert (V : VM_Version.bool_value st12 VM_Version.UseRVB = true)
      by (rewrite <- Hv; symmetry;
          carry (fun s => VM_Version.bool_value s VM_Version.UseRVB); reflexivity).
    assert (F : VM_Version._features st11 = os_features).
    { carry VM_Version._features. injection E as <-. reflexivity. }
    rewrite <- F.
    exact (needs_feature _ _ _ _ _ E11 V).
  - intros Hv.
    assert (V : VM_Version.bool_value st13 VM_Version.UseRVC = true)
      by (rewrite <- Hv; symmetry;
          carry (fun s => VM_Version.bool_value s VM_Version.UseRVC); reflexivity).
    assert (F : VM_Version._features st12 = os_features).
    { carry VM_Version._features. injection E as <-. reflexivity. }
    rewrite <- F.
    exact (needs_feature _ _ _ _ _ E12 V).
  - assert (P : VM_Version.bool_value st' VM_Version.UsePopCountInstruction
                = VM_Version.bool_value st15 VM_Version.UsePopCountInstruction)
      by (carry (fun s => VM_Version.bool_value s VM_Version.UsePopCountInstruction);
          reflexivity).
    assert (B : VM_Version.bool_value st' VM_Version.UseRVB
                = VM_Version.bool_value st14 VM_Version.UseRVB)
      by (carry (fun s => VM_Version.bool_value s VM_Version.UseRVB); reflexivity).
    rewrite P, B. clear P B.
    revert E14. unfold VM_Version.If, VM_Version.flag.
    destruct (VM_Version.bool_value st14 VM_Version.UseRVB); intros E14 Hv;
      [reflexivity|].
    injection E14 as <-. rewrite set_bool_same in Hv. discriminate.
  - carry VM_Version.bool_is_default. reflexivity.
  - carry VM_Version.intx_is_default. reflexivity.
Qed.

End Initialize.

(** ** [c2_initialize] *)

Lemma If_done (c : VM_Version.cond) (s1 s2 : VM_Version.stmt) (st st' : VM_Version.t) :
  VM_Version.If c s1 s2 st = VM_Version.Done st' ->
  (c st = true /\ s1 st = VM_Version.Done st')
  \/ (c st = false /\ s2 st = VM_Version.Done st').
Proof.
  unfold VM_Version.If. destruct (c st); intros H; [now left | now right].
Qed.

(** Take a statement that fell through apart, down to the assignments. *)
Ltac run_step :=
  match goal with
  | E : VM_Version.seq _ _ _ = VM_Version.Done _ |- _ =>
      let st := fresh "st" in
      let E1 := fresh "E" in
      apply seq_done in E; destruct E as (st & E1 & E)
  | E : VM_Version.when _ _ _ = VM_Version.Done _ |- _ =>
      let C := fresh "C" in
      apply when_done in E; destruct E as [(C & E)|(C & E)]; [|subst]
  | E : VM_Version.If _ _ _ _ = VM_Version.Done _ |- _ =>
      let C := fresh "C" in
      apply If_done in E; destruct E as [(C & E)|(C & E)]
  | E : VM_Version.FLAG_SET_DEFAULT _ _ _ = VM_Version.Done _ |- _ =>
      injection E as E; subst
  | E : VM_Version.FLAG_SET_DEFAULT_intx _ _ _ = VM_Version.Done _ |- _ =>
      injection E as E; subst
  | E : VM_Version.warning _ _ _ = VM_Version.Done _ |- _ =>
      injection E as E; subst
  | E : VM_Version.vm_exit_during_initialization _ _ _ = VM_Version.Done _ |- _ =>
      discriminate E
  end.

(** Conditions as propositions. *)
Ltac conditions :=
  unfold VM_Version.flag, VM_Version.intx, VM_Version.FLAG_IS_DEFAULT,
    VM_Version.FLAG_IS_DEFAULT_intx in *;
  cbn in *;
  repeat match goal with
         | C : _ && _ = true |- _ => apply andb_true_iff in C; destruct C
         | C : _ && _ = false |- _ => apply andb_false_iff in C; destruct C
         | C : negb _ = true |- _ => apply negb_true_iff in C
         | C : negb _ = false |- _ => apply negb_false_iff in C
         | C : (_ <? _) = true |- _ => apply Z.ltb_lt in C
         | C : (_ <? _) = false |- _ => apply Z.ltb_ge in C
         | C : (_ =? _) = true |- _ => apply Z.eqb_eq in C
         | C : (_ =? _) = false |- _ => apply Z.eqb_neq in C
         end.

(** X17. When [c2_initialize] falls through: [UseCMoveUnconditionally] is
    off and [ConditionalMoveLimit] is not positive. If [UseRVV] is on
    afterwards it was on before and [MaxVectorSize] is 16. If [UseRVV] was
    off, [MaxVectorSize] is 0 and [SpecialEncodeISOArray] is off. If [UseRVV]
    was on and is off afterwards, [MaxVectorSize] had been set to less than
    16, and that value and [SpecialEncodeISOArray] are left as they were:
    the vector size is not taken back to 0 on this path. *)
Theorem c2_initialize_vector_size (st st' : VM_Version.t) :
  VM_Version.c2_initialize st = VM_Version.Done st' ->
  VM_Version.bool_value st' VM_Version.UseCMoveUnconditionally = false
  /\ VM_Version.intx_value st' VM_Version.ConditionalMoveLimit <= 0
  (* RVV on: sixteen bytes *)
  /\ (VM_Version.bool_value st' VM_Version.UseRVV = true ->
      VM_Version.bool_value st VM_Version.UseRVV = true
      /\ VM_Version.intx_value st' VM_Version.MaxVectorSize = 16)
  (* RVV off from the start: no vectors *)
  /\ (VM_Version.bool_value st VM_Version.UseRVV = false ->
      VM_Version.intx_value st' VM_Version.MaxVectorSize = 0
      /\ VM_Version.bool_value st' VM_Version.SpecialEncodeISOArray = false)
  (* RVV switched off here: the requested size stays *)
  /\ (VM_Version.bool_value st VM_Version.UseRVV = true ->
      VM_Version.bool_value st' VM_Version.UseRVV = false ->
      VM_Version.intx_is_default st VM_Version.MaxVectorSize = false
      /\ VM_Version.intx_value st VM_Version.MaxVectorSize < 16
      /\ VM_Version.intx_value st' VM_Version.MaxVectorSize
         = VM_Version.intx_value st VM_Version.MaxVectorSize
      /\ VM_Version.bool_value st' VM_Version.SpecialEncodeISOArray
         = VM_Version.bool_value st VM_Version.SpecialEncodeISOArray).
Proof.
  intros H. unfold VM_Version.c2_initialize in H.
  do 6 peel H.
  (* the statements after the vector size keep what is stated *)
  kept (fun s => VM_Version.bool_value s VM_Version.UseCMoveUnconditionally) H K1.
  kept (fun s => VM_Version.intx_value s VM_Version.ConditionalMoveLimit) H K2.
  kept (fun s => VM_Version.bool_value s VM_Version.UseRVV) H K3.
  kept (fun s => VM_Version.intx_value s VM_Version.MaxVectorSize) H K4.
  kept (fun s => VM_Version.bool_value s VM_Version.SpecialEncodeISOArray) H K5.
  rewrite K1, K2, K3, K4, K5. clear H K1 K2 K3 K4 K5.
  repeat run_step; conditions;
    (repeat split; intros; try congruence; try lia).
Qed.

Lemma falls_through_skip : VM_Version.falls_through VM_Version.skip.
Proof. intros st. now exists st. Qed.

Lemma falls_through_step (step : VM_Version.t -> VM_Version.t) :
  VM_Version.falls_through (fun st => VM_Version.Done (step st)).
Proof. intros st. now exists (step st). Qed.

Lemma falls_through_seq (s1 s2 : VM_Version.stmt) :
  VM_Version.falls_through s1 -> VM_Version.falls_through s2 ->
  VM_Version.falls_through (VM_Version.seq s1 s2).
Proof.
  intros H1 H2 st. destruct (H1 st) as (st1 & E1). destruct (H2 st1) as (st2 & E2).
  exists st2. unfold VM_Version.seq. now rewrite E1.
Qed.

Lemma falls_through_If (c : VM_Version.cond) (s1 s2 : VM_Version.stmt) :
  VM_Version.falls_through s1 -> VM_Version.falls_through s2 ->
  VM_Version.falls_through (VM_Version.If c s1 s2).
Proof.
  intros H1 H2 st. unfold VM_Version.If. destruct (c st); [apply H1 | apply H2].
Qed.

Lemma falls_through_when (c : VM_Version.cond) (s : VM_Version.stmt) :
  VM_Version.falls_through s -> VM_Version.falls_through (VM_Version.when c s).
Proof. intros H. apply falls_through_If; [exact H | apply falls_through_skip]. Qed.

Ltac falls_tac :=
  repeat first [ apply falls_through_seq
               | apply falls_through_when
               | apply falls_through_If
               | apply falls_through_skip
               | apply falls_through_step ].

Lemma seq_run (s1 s2 : VM_Version.stmt) (st st1 : VM_Version.t) :
  s1 st = VM_Version.Done st1 -> VM_Version.seq s1 s2 st = s2 st1.
Proof. intros H. unfold VM_Version.seq. now rewrite H. Qed.

(** Before a statement that falls through, a sequence ends as its first
    part ends. *)
Lemma seq_stops (s1 s2 : VM_Version.stmt) (st : VM_Version.t) :
  VM_Version.falls_through s2 ->
  (VM_Version.seq s1 s2 st = VM_Version.Overrun <-> s1 st = VM_Version.Overrun)
  /\ forall e a, VM_Version.seq s1 s2 st = VM_Version.Exit e a
                 <-> s1 st = VM_Version.Exit e a.
Proof.
  intros H2. unfold VM_Version.seq.
  destruct (s1 st) as [st1|e1 a1|].
  - destruct (H2 st1) as (st2 & E2). rewrite E2.
    split; [|intros e a]; split; discriminate.
  - split; [|intros e a]; split; trivial; discriminate.
  - split; [|intros e a]; split; trivial; discriminate.
Qed.

(** Run the first statement of a sequence, which falls through. *)
Ltac run_first E :=
  match goal with
  | |- context [VM_Version.seq ?s1 ?s2 ?st] =>
      let st1 := fresh "st" in
      destruct ((ltac:(falls_tac) : VM_Version.falls_through s1) st) as (st1 & E);
      rewrite (seq_run s1 s2 st st1 E)
  end.

(** How [c2_initialize] can end: never in an overrun, and in an exit in
    exactly one way. *)
Lemma c2_initialize_ends (st : VM_Version.t) :
  VM_Version.c2_initialize st <> VM_Version.Overrun
  /\ forall e a,
       VM_Version.c2_initialize st = VM_Version.Exit e a
       <-> VM_Version.bool_value st VM_Version.UseRVV = true
           /\ VM_Version.intx_is_default st VM_Version.MaxVectorSize = false
           /\ 16 <= VM_Version.intx_value st VM_Version.MaxVectorSize
           /\ VM_Version.is_power_of_2 (VM_Version.intx_value st VM_Version.MaxVectorSize)
              = false
           /\ e = "Unsupported MaxVectorSize: %d"%string
           /\ a = [VM_Version.to_int (VM_Version.intx_value st VM_Version.MaxVectorSize)].
Proof.
  unfold VM_Version.c2_initialize.
  run_first E1. run_first E2. run_first E3. run_first E4.
  (* what the first four statements leave of the vector flags *)
  assert (Head : VM_Version.bool_value st3 VM_Version.UseRVV
                 = VM_Version.bool_value st VM_Version.UseRVV
                 /\ VM_Version.intx_is_default st3 VM_Version.MaxVectorSize
                    = VM_Version.intx_is_default st VM_Version.MaxVectorSize
                 /\ (VM_Version.bool_value st VM_Version.UseRVV = true ->
                     VM_Version.intx_value st3 VM_Version.MaxVectorSize
                     = VM_Version.intx_value st VM_Version.MaxVectorSize)).
  { clear - E1 E2 E3 E4. repeat run_step; conditions;
      (repeat split; intros; congruence). }
  destruct Head as (HV & HD & HM). clear E1 E2 E3 E4.
  match goal with
  | |- context [VM_Version.seq ?s1 ?s2 st3] =>
      destruct (seq_stops s1 s2 st3 ltac:(falls_tac)) as (Over & Ex)
  end.
  split.
  - rewrite Over. unfold VM_Version.when, VM_Version.If, VM_Version.skip,
      VM_Version.seq, VM_Version.FLAG_SET_DEFAULT_intx, VM_Version.warning,
      VM_Version.FLAG_SET_DEFAULT, VM_Version.vm_exit_during_initialization.
    repeat match goal with
           | |- context [if ?c then _ else _] => destruct c
           end; discriminate.
  - intros e a. rewrite Ex. clear Over Ex.
    unfold VM_Version.when, VM_Version.If, VM_Version.skip.
    unfold VM_Version.flag, VM_Version.FLAG_IS_DEFAULT_intx, VM_Version.intx.
    rewrite HV, HD.
    destruct (VM_Version.bool_value st VM_Version.UseRVV) eqn:V.
    2:{ split; [discriminate | intros (F & _); discriminate]. }
    rewrite (HM eq_refl).
    destruct (VM_Version.intx_is_default st VM_Version.MaxVectorSize) eqn:D.
    { split; [discriminate | intros (_ & F & _); discriminate]. }
    destruct (Z.ltb_spec (VM_Version.intx_value st VM_Version.MaxVectorSize) 16) as [L|L].
    { split; [discriminate | intros (_ & _ & F & _); lia]. }
    destruct (VM_Version.is_power_of_2 (VM_Version.intx_value st VM_Version.MaxVectorSize))
      eqn:P.
    { split; [|intros (_ & _ & _ & F & _); discriminate].
      unfold VM_Version.seq, VM_Version.when, VM_Version.If, VM_Version.skip.
      match goal with
      | |- context [if ?c then _ else _] => destruct c
      end; discriminate. }
    unfold VM_Version.vm_exit_during_initialization, VM_Version.intx.
    rewrite (HM eq_refl).
    split.
    + intros H. injection H as <- <-. repeat split; trivial.
    + intros (_ & _ & _ & _ & -> & ->). reflexivity.
Qed.

(** X18. [c2_initialize] exits the VM exactly when [UseRVV] is on and
    [MaxVectorSize] was set, not left at its default, to a value of at least
    16 that is not a power of two; the error names the size as an [int]. In
    every other case it falls through. *)
Theorem c2_initialize_exit (st : VM_Version.t) :
  let size := VM_Version.intx_value st VM_Version.MaxVectorSize in
  if VM_Version.bool_value st VM_Version.UseRVV
     && negb (VM_Version.intx_is_default st VM_Version.MaxVectorSize)
     && (16 <=? size) && negb (VM_Version.is_power_of_2 size)
  then VM_Version.c2_initialize st
       = VM_Version.Exit "Unsupported MaxVectorSize: %d" [VM_Version.to_int size]
  else exists st', VM_Version.c2_initialize st = VM_Version.Done st'.
Proof.
  intros size. subst size. destruct (c2_initialize_ends st) as (NoOver & Ex).
  destruct (VM_Version.bool_value st VM_Version.UseRVV) eqn:V;
    destruct (VM_Version.intx_is_default st VM_Version.MaxVectorSize) eqn:D;
    destruct (Z.leb_spec 16 (VM_Version.intx_value st VM_Version.MaxVectorSize)) as [L|L];
    destruct (VM_Version.is_power_of_2
                (VM_Version.intx_value st VM_Version.MaxVectorSize)) eqn:P;
    cbn [andb negb];
    try (apply Ex; repeat split; assumption).
  (* in every other case no exit is possible *)
  all: destruct (VM_Version.c2_initialize st) as [st'|e a|] eqn:R;
    [ now exists st'
    | exfalso; destruct (proj1 (Ex e a) eq_refl) as (R1 & R2 & R3 & R4 & _);
      first [congruence | lia]
    | exfalso; now apply NoOver ].
Qed.


(** ** The features string *)

Lemma string_length_append (a b : string) :
  String.length (a ++ b) = (String.length a + String.length b)%nat.
Proof. induction a as [|c a IH]; simpl; [reflexivity | now rewrite IH]. Qed.

Lemma string_append_assoc (a b c : string) :
  ((a ++ b) ++ c)%string = (a ++ b ++ c)%string.
Proof. induction a as [|x a IH]; simpl; [reflexivity | now rewrite IH]. Qed.

Lemma string_append_empty (a : string) : (a ++ "")%string = a.
Proof. induction a as [|x a IH]; simpl; [reflexivity | now rewrite IH]. Qed.

(** The names appended to a buffer that holds [b]. *)
Lemma build_from (features : Z) (table : list (Z * string)) :
  forall b : string,
    (String.length b < 512)%nat ->
    fold_left (fun buf '(bit, name) =>
                 match buf with
                 | Some b => if VM_Version.supported features bit
                             then VM_Version.strcat b name else Some b
                 | None => None
                 end) table (Some b)
    = let names := fold_right append EmptyString
                     (map snd (filter (fun entry => VM_Version.supported features (fst entry))
                                      table)) in
      if (String.length (b ++ names) <? 512)%nat then Some (b ++ names)%string else None.
Proof.
  induction table as [|[bit name] table IH]; intros b Hb; simpl.
  - rewrite string_append_empty.
    apply Nat.ltb_lt in Hb. now rewrite Hb.
  - destruct (VM_Version.supported features bit); simpl; [|now apply IH].
    unfold VM_Version.strcat.
    destruct (Nat.ltb_spec (String.length b + String.length name) 512) as [Fit|Over].
    + rewrite IH by (rewrite string_length_append; exact Fit).
      simpl. now rewrite string_append_assoc.
    + (* nothing is appended to a buffer that has run over *)
      assert (N : forall t : list (Z * string),
                 fold_left (fun buf '(bit, name) =>
                              match buf with
                              | Some b => if VM_Version.supported features bit
                                          then VM_Version.strcat b name else Some b
                              | None => None
                              end) t None = None).
      { induction t as [|[b' n'] t IHt]; simpl; [reflexivity | exact IHt]. }
      rewrite N.
      destruct (Nat.ltb_spec
                  (String.length
                     (b ++ name ++ fold_right append EmptyString
                                     (map snd (filter (fun entry =>
                                                         VM_Version.supported features (fst entry))
                                                      table)))) 512) as [L|L];
        [|reflexivity].
      rewrite !string_length_append in L. lia.
Qed.

Lemma build_features_string_text (table : list (Z * string)) (features : Z)
      (uarch : option string) :
  VM_Version.build_features_string table features uarch
  = if (String.length (VM_Version.features_text table features uarch) <? 512)%nat
    then Some (VM_Version.features_text table features uarch)
    else None.
Proof.
  unfold VM_Version.build_features_string, VM_Version.features_text.
  assert (S : VM_Version.strcat (VM_Version.uarch_prefix uarch) "rv64"
              = if (String.length (VM_Version.uarch_prefix uarch)
                    + String.length "rv64" <? 512)%nat
                then Some (VM_Version.uarch_prefix uarch ++ "rv64")%string
                else None) by reflexivity.
  rewrite S. clear S.
  destruct (Nat.ltb_spec (String.length (VM_Version.uarch_prefix uarch)
                          + String.length "rv64") 512) as [Fit|Over].
  - rewrite build_from by (rewrite string_length_append; exact Fit).
    simpl. now rewrite !string_append_assoc.
  - assert (N : forall t : list (Z * string),
               fold_left (fun buf '(bit, name) =>
                            match buf with
                            | Some b => if VM_Version.supported features bit
                                        then VM_Version.strcat b name else Some b
                            | None => None
                            end) t None = None).
    { induction t as [|[b' n'] t IHt]; simpl; [reflexivity | exact IHt]. }
    rewrite N.
    match goal with
    | |- None = (if (?n <? 512)%nat then _ else _) =>
        destruct (Nat.ltb_spec n 512) as [L|L]; [|reflexivity]
    end.
    rewrite !string_length_append in L. lia.
Qed.

Lemma set_features_string_run (table : list (Z * string)) (st : VM_Version.t) :
  let text := VM_Version.features_text table (VM_Version._features st)
                                       (VM_Version._uarch st) in
  VM_Version.set_features_string table st
  = if (String.length text <? 512)%nat
    then VM_Version.Done
           (VM_Version.mk (VM_Version.bool_value st) (VM_Version.intx_value st)
              (VM_Version.bool_is_default st) (VM_Version.intx_is_default st)
              (VM_Version.bool_is_cmdline st) (VM_Version._features st)
              (VM_Version._uarch st) (VM_Version._initial_vector_length st)
              (Some text) (VM_Version.warnings st))
    else VM_Version.Overrun.
Proof.
  intros text. unfold VM_Version.set_features_string, VM_Version.features_buf.
  rewrite build_features_string_text. fold text.
  destruct (String.length text <? 512)%nat; reflexivity.
Qed.

(** X19. The features string is the micro-architecture and a comma, when
    there is one, then "rv64", then the names of the supported features in
    the order of the table. It is built in a buffer of 512 characters: the
    building runs over the buffer exactly when this text has 512 characters
    or more, which a micro-architecture of 507 characters already causes,
    although [snprintf] cuts what it prints to 511. Flags and warnings are
    not touched. *)
Theorem features_string_fits (table : list (Z * string)) (st : VM_Version.t) :
  let text := VM_Version.features_text table (VM_Version._features st)
                                       (VM_Version._uarch st) in
  (VM_Version.set_features_string table st = VM_Version.Overrun
   <-> (512 <= String.length text)%nat)
  /\ (forall st',
         VM_Version.set_features_string table st = VM_Version.Done st' ->
         VM_Version._features_string st' = Some text
         /\ VM_Version.bool_value st' = VM_Version.bool_value st
         /\ VM_Version.intx_value st' = VM_Version.intx_value st
         /\ VM_Version.warnings st' = VM_Version.warnings st)
  /\ (String.length (VM_Version.uarch_prefix (VM_Version._uarch st)) <= 511)%nat
  /\ (forall u, VM_Version._uarch st = Some u -> (507 <= String.length u)%nat ->
                VM_Version.set_features_string table st = VM_Version.Overrun).
Proof.
  intros text.
  pose proof (set_features_string_run table st) as Run. cbv zeta in Run. fold text in Run.
  (* [substring] cuts at its length argument *)
  assert (Cut : forall (n : nat) (s : string), (String.length (substring 0 n s) <= n)%nat).
  { induction n as [|n IH]; intros s.
    - destruct s; simpl; lia.
    - destruct s as [|c s]; simpl; [lia|]. specialize (IH s). lia. }
  assert (Whole : forall (n : nat) (s : string),
             (String.length s <= n)%nat -> substring 0 n s = s).
  { induction n as [|n IH]; intros s Hs.
    - destruct s; simpl in *; [reflexivity | lia].
    - destruct s as [|c s]; simpl in *; [reflexivity|]. rewrite IH by lia. reflexivity. }
  assert (Full : forall (n : nat) (s : string),
             (n <= String.length s)%nat -> String.length (substring 0 n s) = n).
  { induction n as [|n IH]; intros s Hs.
    - destruct s; reflexivity.
    - destruct s as [|c s]; simpl in *; [lia|]. rewrite IH by lia. reflexivity. }
  split; [|split; [|split]].
  - rewrite Run. destruct (Nat.ltb_spec (String.length text) 512) as [L|L].
    + split; [discriminate | lia].
    + split; trivial.
  - intros st'. rewrite Run.
    destruct (String.length text <? 512)%nat; [|discriminate].
    intros E. injection E as <-. repeat split.
  - unfold VM_Version.uarch_prefix.
    destruct (VM_Version._uarch st) as [u|]; [|simpl; lia].
    destruct (negb (u =? "")%string); [apply Cut | simpl; lia].
  - intros u Hu Long. rewrite Run.
    destruct (Nat.ltb_spec (String.length text) 512) as [L|L]; [|reflexivity].
    exfalso. unfold text, VM_Version.features_text, VM_Version.uarch_prefix in L.
    rewrite Hu in L.
    assert (Ne : (u =? "")%string = false).
    { apply String.eqb_neq. intros ->. simpl in Long. lia. }
    rewrite Ne in L. simpl negb in L. cbv iota in L.
    rewrite !string_length_append in L.
    assert (P : (508 <= String.length (substring 0 511 (u ++ ",")))%nat).
    { destruct (Nat.le_gt_cases (String.length (u ++ ",")) 511) as [S|S].
      - rewrite Whole by exact S. rewrite string_length_append. simpl. lia.
      - rewrite Full by lia. lia. }
    simpl String.length in L. lia.
Qed.

(** ** How [initialize] ends *)

Lemma seq_exits (s1 s2 : VM_Version.stmt) (st : VM_Version.t) (e : string) (a : list Z) :
  s1 st = VM_Version.Exit e a -> VM_Version.seq s1 s2 st = VM_Version.Exit e a.
Proof. intros H. unfold VM_Version.seq. now rewrite H. Qed.

Lemma seq_overruns (s1 s2 : VM_Version.stmt) (st : VM_Version.t) :
  s1 st = VM_Version.Overrun -> VM_Version.seq s1 s2 st = VM_Version.Overrun.
Proof. intros H. unfold VM_Version.seq. now rewrite H. Qed.

Section Outcome.

Variable CPU_V : Z.
Variable CPU_B : Z.
Variable CPU_C : Z.
Variable CPU_FEATURE_FLAGS : list (Z * string).
Variable COMPILER2 : bool.
Variable os_features : Z.
Variable os_uarch : option string.
Variable blob_created : bool.
Variable current_vector_length : Z.

(** X20. The ways [initialize] can end, in the order in which they are
    met: it exits with "Unable to allocate getPsrInfo_stub" when [UseRVV] is
    on, the CPU does not report the V extension and no blob could be
    created; else it runs over the buffer when the features text does not
    fit; else, with the second compiler, it exits with "Unsupported
    MaxVectorSize: %d" on the condition of [c2_initialize]; in every other
    case it falls through. *)
Theorem initialize_outcome (st : VM_Version.t) :
  let rvv := VM_Version.bool_value st VM_Version.UseRVV in
  let size := VM_Version.intx_value st VM_Version.MaxVectorSize in
  let text := VM_Version.features_text CPU_FEATURE_FLAGS os_features os_uarch in
  let initialize :=
    VM_Version.initialize CPU_V CPU_B CPU_C CPU_FEATURE_FLAGS COMPILER2
      os_features os_uarch blob_created current_vector_length st in
  if rvv && negb (VM_Version.supported os_features CPU_V) && negb blob_created
  then initialize = VM_Version.Exit "Unable to allocate getPsrInfo_stub" []
  else if (512 <=? String.length text)%nat
  then initialize = VM_Version.Overrun
  else if COMPILER2 && rvv
          && negb (VM_Version.intx_is_default st VM_Version.MaxVectorSize)
          && (16 <=? size) && negb (VM_Version.is_power_of_2 size)
  then initialize
       = VM_Version.Exit "Unsupported MaxVectorSize: %d" [VM_Version.to_int size]
  else exists st', initialize = VM_Version.Done st'.
Proof.
  intros rvv size text initialize. subst initialize.
  unfold VM_Version.initialize.
  (* up to the vector extension everything falls through *)
  run_first E1. run_first E2. run_first E3. run_first E4. run_first E5.
  run_first E6. run_first E7. run_first E8. run_first E9. run_first E10.
  run_first E11.
  assert (Kr : VM_Version.bool_value st10 VM_Version.UseRVV = rvv)
    by (carry (fun s => VM_Version.bool_value s VM_Version.UseRVV); reflexivity).
  assert (Kf : VM_Version._features st10 = os_features)
    by (carry VM_Version._features; injection E1 as <-; reflexivity).
  (* the test for the vector extension *)
  match goal with
  | |- context [VM_Version.seq ?s1 ?s2 st10] =>
      assert (Block : (rvv && negb (VM_Version.supported os_features CPU_V)
                           && negb blob_created = true
                       /\ s1 st10 = VM_Version.Exit "Unable to allocate getPsrInfo_stub" [])
                      \/ (rvv && negb (VM_Version.supported os_features CPU_V)
                              && negb blob_created = false
                          /\ exists st11, s1 st10 = VM_Version.Done st11))
  end.
  { unfold VM_Version.when, VM_Version.If, VM_Version.flag, VM_Version.has.
    rewrite Kr, Kf.
    destruct rvv; [|right; split; [reflexivity | eexists; reflexivity]].
    destruct (VM_Version.supported os_features CPU_V); cbn [negb andb];
      [right; split; [reflexivity | eexists; reflexivity]|].
    unfold VM_Version.getPsrInfo_stub.
    destruct blob_created; cbn [negb];
      [right; split; [reflexivity | eexists; reflexivity] | left; now split]. }
  destruct Block as [(B & Ex)|(B & st11 & E12)]; rewrite B.
  { now apply seq_exits. }
  rewrite (seq_run _ _ _ _ E12).
  run_first E13. run_first E14. run_first E15. run_first E16.
  (* the features string *)
  assert (Kf' : VM_Version._features st15 = os_features)
    by (carry VM_Version._features; injection E1 as <-; reflexivity).
  assert (Ku : VM_Version._uarch st15 = os_uarch)
    by (carry VM_Version._uarch; injection E1 as <-; reflexivity).
  pose proof (set_features_string_run CPU_FEATURE_FLAGS st15) as Run.
  cbv zeta in Run. rewrite Kf', Ku in Run. fold text in Run.
  destruct (Nat.leb_spec 512 (String.length text)) as [Long|Fits].
  { apply seq_overruns. rewrite Run.
    destruct (Nat.ltb_spec (String.length text) 512); [lia | reflexivity]. }
  assert (F : (String.length text <? 512)%nat = true) by now apply Nat.ltb_lt.
  rewrite F in Run. rewrite (seq_run _ _ _ _ Run).
  match type of Run with
  | _ = VM_Version.Done ?s => set (st16 := s) in *
  end.
  (* the flags the second compiler looks at are as they were *)
  assert (Kr' : VM_Version.bool_value st16 VM_Version.UseRVV = rvv)
    by (carry (fun s => VM_Version.bool_value s VM_Version.UseRVV); reflexivity).
  assert (Ks : VM_Version.intx_value st16 VM_Version.MaxVectorSize = size)
    by (carry (fun s => VM_Version.intx_value s VM_Version.MaxVectorSize); reflexivity).
  assert (Kd : VM_Version.intx_is_default st16 VM_Version.MaxVectorSize
               = VM_Version.intx_is_default st VM_Version.MaxVectorSize)
    by (carry (fun s => VM_Version.intx_is_default s VM_Version.MaxVectorSize);
        reflexivity).
  match goal with
  | |- context [VM_Version.seq ?s1 ?s2 st16] =>
      destruct (seq_stops s1 s2 st16 ltac:(unfold VM_Version.UNSUPPORTED_OPTION; falls_tac))
        as (_ & Ex);
      assert (Tail : VM_Version.falls_through s2)
        by (unfold VM_Version.UNSUPPORTED_OPTION; falls_tac)
  end.
  destruct COMPILER2; cbn [andb].
  - destruct (c2_initialize_ends st16) as (NoOver & C2).
    rewrite Kr', Ks, Kd in C2.
    destruct (VM_Version.c2_initialize st16) as [st17|e a|] eqn:R.
    + (* no exit: the condition of the exit is false *)
      assert (Cond : rvv && negb (VM_Version.intx_is_default st VM_Version.MaxVectorSize)
                         && (16 <=? size) && negb (VM_Version.is_power_of_2 size)
                     = false).
      { destruct (rvv && negb (VM_Version.intx_is_default st VM_Version.MaxVectorSize)
                      && (16 <=? size) && negb (VM_Version.is_power_of_2 size)) eqn:Q;
          [|reflexivity].
        repeat (apply andb_true_iff in Q; destruct Q as (Q & ?)).
        assert (X : VM_Version.Done st17
                    = VM_Version.Exit "Unsupported MaxVectorSize: %d"
                        [VM_Version.to_int size]).
        { apply C2. repeat split; trivial.
          - now apply negb_true_iff.
          - now apply Z.leb_le.
          - now apply negb_true_iff. }
        discriminate X. }
      rewrite Cond. rewrite (seq_run _ _ _ _ R). apply Tail.
    + destruct (proj1 (C2 e a) eq_refl) as (R1 & R2 & R3 & R4 & -> & ->).
      rewrite R1, R2, R4. apply Z.leb_le in R3. rewrite R3. cbn [negb andb].
      apply Ex. reflexivity.
    + exfalso. now apply NoOver.
  - unfold VM_Version.skip at 1.
    match goal with
    | |- exists st', VM_Version.seq ?s1 ?s2 st16 = _ =>
        change (VM_Version.seq s1 s2 st16) with (s2 st16)
    end.
    apply Tail.
Qed.

End Outcome.

(** ** The warnings *)

Lemma logs_skip : VM_Version.logs VM_Version.skip.
Proof. intros st st' H. injection H as <-. exists []. now rewrite app_nil_r. Qed.

Lemma logs_seq (s1 s2 : VM_Version.stmt) :
  VM_Version.logs s1 -> VM_Version.logs s2 -> VM_Version.logs (VM_Version.seq s1 s2).
Proof.
  intros H1 H2 st st' H. destruct (seq_done _ _ _ _ H) as (st1 & E1 & E2).
  destruct (H1 _ _ E1) as (m1 & L1). destruct (H2 _ _ E2) as (m2 & L2).
  exists (m1 ++ m2). now rewrite L2, L1, app_assoc.
Qed.

Lemma logs_If (c : VM_Version.cond) (s1 s2 : VM_Version.stmt) :
  VM_Version.logs s1 -> VM_Version.logs s2 -> VM_Version.logs (VM_Version.If c s1 s2).
Proof.
  intros H1 H2 st st'. unfold VM_Version.If. destruct (c st); [apply H1 | apply H2].
Qed.

Lemma logs_when (c : VM_Version.cond) (s : VM_Version.stmt) :
  VM_Version.logs s -> VM_Version.logs (VM_Version.when c s).
Proof. intros H. apply logs_If; [exact H | apply logs_skip]. Qed.

Lemma logs_warning (fmt : string) (args : VM_Version.t -> list Z) :
  VM_Version.logs (VM_Version.warning fmt args).
Proof. intros st st' H. injection H as <-. simpl. now eexists. Qed.

Lemma logs_keeps (s : VM_Version.stmt) :
  VM_Version.keeps VM_Version.warnings s -> VM_Version.logs s.
Proof.
  intros K st st' H. exists []. rewrite app_nil_r. exact (K _ _ H).
Qed.

Ltac logs_tac :=
  repeat first [ apply logs_seq
               | apply logs_when
               | apply logs_If
               | apply logs_skip
               | apply logs_warning
               | match goal with
                 | |- VM_Version.logs (if ?b then _ else _) => destruct b
                 end
               | apply logs_keeps; solve [keeps_tac] ].

(** A warning given in state [x] stays in the list. *)
Ltac carry_warning_to x :=
  repeat match goal with
         | E : ?s ?a = VM_Version.Done ?b |- In ?m (VM_Version.warnings ?b) =>
             lazymatch b with
             | x => fail
             | _ => idtac
             end;
             let L := fresh "L" in
             let more := fresh "more" in
             assert (L : VM_Version.logs s)
               by (unfold VM_Version.UNSUPPORTED_OPTION, VM_Version.c2_initialize,
                     VM_Version.get_os_cpu_info, VM_Version.read_vector_length;
                   logs_tac);
             destruct (L a b E) as (more & ->); clear L;
             apply in_or_app; left
         end.

(** The warning of a flag that is switched off when it is on. *)
Lemma switched_off_warns (f : VM_Version.bool_flag) (fmt : string)
      (st st' : VM_Version.t) :
  VM_Version.when (VM_Version.flag f)
    (VM_Version.seq (VM_Version.warning fmt VM_Version.no_arguments)
                    (VM_Version.FLAG_SET_DEFAULT f false)) st
  = VM_Version.Done st' ->
  VM_Version.bool_value st f = true ->
  VM_Version.warnings st' = VM_Version.warnings st ++ [VM_Version.warning_call fmt []].
Proof.
  intros H Hv. destruct (when_done _ _ _ _ H) as [(C & E)|(C & _)].
  - destruct (seq_done _ _ _ _ E) as (st1 & E1 & E2).
    injection E1 as <-. injection E2 as <-. reflexivity.
  - unfold VM_Version.flag in C. congruence.
Qed.

Section Warnings.

Variable CPU_V : Z.
Variable CPU_B : Z.
Variable CPU_C : Z.
Variable CPU_FEATURE_FLAGS : list (Z * string).
Variable COMPILER2 : bool.
Variable os_features : Z.
Variable os_uarch : option string.
Variable blob_created : bool.
Variable current_vector_length : Z.

(** X21. [initialize] only adds to the warnings given. When it falls
    through, for each of the AES/CTR, SHA and CRC32 flags that was on when it
    was called the warning of that flag has been given. *)
Theorem initialize_warns (st st' : VM_Version.t) :
  VM_Version.initialize CPU_V CPU_B CPU_C CPU_FEATURE_FLAGS COMPILER2
    os_features os_uarch blob_created current_vector_length st
  = VM_Version.Done st' ->
  (exists more, VM_Version.warnings st' = VM_Version.warnings st ++ more)
  /\ forall f fmt,
       In (f, fmt)
          [(VM_Version.UseAESCTRIntrinsics,
            "AES/CTR intrinsics are not available on this CPU"%string);
           (VM_Version.UseSHA,
            "SHA instructions are not available on this CPU"%string);
           (VM_Version.UseSHA1Intrinsics,
            "Intrinsics for SHA-1 crypto hash functions not available on this CPU."%string);
           (VM_Version.UseSHA256Intrinsics,
            "Intrinsics for SHA-224 and SHA-256 crypto hash functions not available on this CPU."%string);
           (VM_Version.UseSHA512Intrinsics,
            "Intrinsics for SHA-384 and SHA-512 crypto hash functions not available on this CPU."%string);
           (VM_Version.UseCRC32Intrinsics,
            "CRC32 intrinsics are not available on this CPU."%string);
           (VM_Version.UseCRC32CIntrinsics,
            "CRC32C intrinsics are not available on this CPU."%string)] ->
       VM_Version.bool_value st f = true ->
       In (VM_Version.warning_call fmt []) (VM_Version.warnings st').
Proof.
  intros H. split.
  - assert (L : VM_Version.logs
                  (VM_Version.initialize CPU_V CPU_B CPU_C CPU_FEATURE_FLAGS COMPILER2
                     os_features os_uarch blob_created current_vector_length)).
    { unfold VM_Version.initialize, VM_Version.UNSUPPORTED_OPTION,
        VM_Version.c2_initialize, VM_Version.get_os_cpu_info,
        VM_Version.read_vector_length.
      logs_tac. }
    exact (L st st' H).
  - intros f fmt Hin Hv. unfold VM_Version.initialize in H.
    do 19 peel H.
    (* the statement of the flag appends its warning; the later ones keep it *)
    assert (Here : forall (a b : VM_Version.t),
               VM_Version.when (VM_Version.flag f)
                 (VM_Version.seq (VM_Version.warning fmt VM_Version.no_arguments)
                                 (VM_Version.FLAG_SET_DEFAULT f false)) a
               = VM_Version.Done b ->
               VM_Version.bool_value a f = VM_Version.bool_value st f ->
               In (VM_Version.warning_call fmt []) (VM_Version.warnings b)).
    { intros a b Eab Same. rewrite (switched_off_warns f fmt a b Eab) by congruence.
      apply in_or_app. right. now left. }
    simpl in Hin.
    repeat (destruct Hin as [Hin|Hin]; [injection Hin as <- <-|]); try contradiction.
    + carry_warning_to st4. apply (Here st3 st4 E3).
      carry (fun s => VM_Version.bool_value s VM_Version.UseAESCTRIntrinsics). reflexivity.
    + carry_warning_to st5. apply (Here st4 st5 E4).
      carry (fun s => VM_Version.bool_value s VM_Version.UseSHA). reflexivity.
    + carry_warning_to st6. apply (Here st5 st6 E5).
      carry (fun s => VM_Version.bool_value s VM_Version.UseSHA1Intrinsics). reflexivity.
    + carry_warning_to st7. apply (Here st6 st7 E6).
      carry (fun s => VM_Version.bool_value s VM_Version.UseSHA256Intrinsics). reflexivity.
    + carry_warning_to st8. apply (Here st7 st8 E7).
      carry (fun s => VM_Version.bool_value s VM_Version.UseSHA512Intrinsics). reflexivity.
    + carry_warning_to st9. apply (Here st8 st9 E8).
      carry (fun s => VM_Version.bool_value s VM_Version.UseCRC32Intrinsics). reflexivity.
    + carry_warning_to st10. apply (Here st9 st10 E9).
      carry (fun s => VM_Version.bool_value s VM_Version.UseCRC32CIntrinsics). reflexivity.
Qed.

End Warnings.

(** ** Flags the user has switched off *)

Lemma respects_skip (f : VM_Version.bool_flag) :
  VM_Version.respects_off f VM_Version.skip.
Proof. intros st st' H. injection H as <-. now split. Qed.

Lemma respects_seq (f : VM_Version.bool_flag) (s1 s2 : VM_Version.stmt) :
  VM_Version.respects_off f s1 -> VM_Version.respects_off f s2 ->
  VM_Version.respects_off f (VM_Version.seq s1 s2).
Proof.
  intros H1 H2 st st' H D V. destruct (seq_done _ _ _ _ H) as (st1 & E1 & E2).
  destruct (H1 _ _ E1 D V) as (D1 & V1). exact (H2 _ _ E2 D1 V1).
Qed.

Lemma respects_If (f : VM_Version.bool_flag) (c : VM_Version.cond)
      (s1 s2 : VM_Version.stmt) :
  VM_Version.respects_off f s1 -> VM_Version.respects_off f s2 ->
  VM_Version.respects_off f (VM_Version.If c s1 s2).
Proof.
  intros H1 H2 st st'. unfold VM_Version.If. destruct (c st); [apply H1 | apply H2].
Qed.

Lemma respects_when (f : VM_Version.bool_flag) (c : VM_Version.cond)
      (s : VM_Version.stmt) :
  VM_Version.respects_off f s -> VM_Version.respects_off f (VM_Version.when c s).
Proof. intros H. apply respects_If; [exact H | apply respects_skip]. Qed.

(** What is done only to a flag at its default is not done to this one. *)
Lemma respects_default (f : VM_Version.bool_flag) (s : VM_Version.stmt) :
  VM_Version.respects_off f (VM_Version.when (VM_Version.FLAG_IS_DEFAULT f) s).
Proof.
  intros st st' H D V. destruct (when_done _ _ _ _ H) as [(C & _)|(_ & ->)].
  - unfold VM_Version.FLAG_IS_DEFAULT in C. congruence.
  - now split.
Qed.

Lemma respects_clear (f : VM_Version.bool_flag) :
  VM_Version.respects_off f (VM_Version.FLAG_SET_DEFAULT f false).
Proof.
  intros st st' H D V. injection H as <-. split; [exact D | apply set_bool_same].
Qed.

Lemma respects_keeps (f : VM_Version.bool_flag) (s : VM_Version.stmt) :
  VM_Version.keeps (fun st => (VM_Version.bool_is_default st f, VM_Version.bool_value st f)) s ->
  VM_Version.respects_off f s.
Proof.
  intros K st st' H D V. specialize (K st st' H). cbv beta in K.
  injection K as K1 K2. split; congruence.
Qed.

Ltac respects_tac :=
  repeat first [ apply respects_seq
               | apply respects_default
               | apply respects_clear
               | apply respects_keeps;
                 solve [unfold VM_Version.UNSUPPORTED_OPTION, VM_Version.c2_initialize,
                          VM_Version.get_os_cpu_info, VM_Version.read_vector_length;
                        keeps_tac]
               | apply respects_when
               | apply respects_If
               | apply respects_skip
               | match goal with
                 | |- VM_Version.respects_off _ (if ?b then _ else _) => destruct b
                 end ].

Section Respect.

Variable CPU_V : Z.
Variable CPU_B : Z.
Variable CPU_C : Z.
Variable CPU_FEATURE_FLAGS : list (Z * string).
Variable COMPILER2 : bool.
Variable os_features : Z.
Variable os_uarch : option string.
Variable blob_created : bool.
Variable current_vector_length : Z.

(** X22. [initialize] does not switch on what the user has switched off:
    a boolean flag other than [UseRVV071] and [UseMembar] that is off and not
    at its default when [initialize] is called is off when it falls
    through. *)
Theorem initialize_respects_off (f : VM_Version.bool_flag) (st st' : VM_Version.t) :
  f <> VM_Version.UseRVV071 -> f <> VM_Version.UseMembar ->
  VM_Version.initialize CPU_V CPU_B CPU_C CPU_FEATURE_FLAGS COMPILER2
    os_features os_uarch blob_created current_vector_length st
  = VM_Version.Done st' ->
  VM_Version.bool_is_default st f = false ->
  VM_Version.bool_value st f = false ->
  VM_Version.bool_value st' f = false.
Proof.
  intros N1 N2 H D V.
  assert (R : VM_Version.respects_off f
                (VM_Version.initialize CPU_V CPU_B CPU_C CPU_FEATURE_FLAGS COMPILER2
                   os_features os_uarch blob_created current_vector_length)).
  { unfold VM_Version.initialize, VM_Version.UNSUPPORTED_OPTION.
    destruct f; try contradiction; respects_tac. }
  exact (proj2 (R st st' H D V)).
Qed.

End Respect.

(** ** A start of the VM *)

Lemma boot_started :
  VM_Version.initialize Boot.CPU_V Boot.CPU_B Boot.CPU_C Boot.CPU_FEATURE_FLAGS true
    Boot.features (Some "sifive,u74-mc"%string) true 16 Boot.flags
  = VM_Version.Done Boot.started.
Proof. vm_compute. reflexivity. Qed.

Lemma boot_compiled :
  VM_Version.c2_initialize Boot.flags = VM_Version.Done Boot.compiled.
Proof. vm_compute. reflexivity. Qed.

Lemma initialize_switches_off_witness :
  VM_Version.bool_value Boot.started VM_Version.UseSHA = false
  /\ VM_Version.bool_value Boot.started VM_Version.UseMembar = true
  /\ (VM_Version.bool_value Boot.started VM_Version.UseRVB = true ->
      Z.land Boot.features Boot.CPU_B <> 0).
Proof.
  pose proof (initialize_switches_off Boot.CPU_V Boot.CPU_B Boot.CPU_C
                Boot.CPU_FEATURE_FLAGS true Boot.features (Some "sifive,u74-mc"%string)
                true 16 Boot.flags Boot.started boot_started) as H.
  destruct H as (Off & Membar & _ & _ & _ & RVB & _).
  split; [|split; [exact Membar | exact RVB]].
  apply Off. right. now left.
Defined.

(** [-XX:+UseRVV -XX:MaxVectorSize=8]: RVV is switched off, the size stays. *)
Lemma c2_initialize_vector_size_witness :
  VM_Version.bool_value Boot.compiled VM_Version.UseCMoveUnconditionally = false
  /\ VM_Version.intx_value Boot.compiled VM_Version.MaxVectorSize = 8.
Proof.
  destruct (c2_initialize_vector_size Boot.flags Boot.compiled boot_compiled)
    as (Off & _ & _ & _ & Kept).
  split; [exact Off|].
  destruct Kept as (_ & _ & Same & _); [reflexivity | reflexivity | exact Same].
Defined.

Lemma initialize_warns_witness :
  In (VM_Version.warning_call "SHA instructions are not available on this CPU" [])
     (VM_Version.warnings Boot.started).
Proof.
  destruct (initialize_warns Boot.CPU_V Boot.CPU_B Boot.CPU_C
              Boot.CPU_FEATURE_FLAGS true Boot.features (Some "sifive,u74-mc"%string)
              true 16 Boot.flags Boot.started boot_started) as (_ & W).
  apply (W VM_Version.UseSHA); [right; now left | reflexivity].
Defined.

(** [-XX:-UseFMA] stays off, although [UseFMA] is switched on by default. *)
Lemma initialize_respects_off_witness :
  VM_Version.bool_value Boot.started VM_Version.UseFMA = false.
Proof.
  refine (initialize_respects_off Boot.CPU_V Boot.CPU_B Boot.CPU_C
            Boot.CPU_FEATURE_FLAGS true Boot.features (Some "sifive,u74-mc"%string)
            true 16 VM_Version.UseFMA Boot.flags Boot.started _ _ boot_started _ _);
    first [discriminate | reflexivity].
Defined.

(** What the start leaves. *)
Example boot_answers :
  VM_Version._features_string Boot.started = Some "sifive,u74-mc,rv64imafdcv"%string
  /\ VM_Version.bool_value Boot.started VM_Version.UseRVV = false
  /\ VM_Version.intx_value Boot.started VM_Version.MaxVectorSize = 8
  /\ VM_Version.bool_value Boot.started VM_Version.UseRVB = false
  /\ VM_Version.bool_value Boot.started VM_Version.UsePopCountInstruction = false
  /\ VM_Version.bool_value Boot.started VM_Version.UseFMA = false
  /\ VM_Version.bool_value Boot.started VM_Version.AvoidUnalignedAccesses = true
  /\ List.length (VM_Version.warnings Boot.started) = 3%nat.
Proof. vm_compute. repeat split. Qed.
